(** * vanmoof-canbus: frame classification, reassembly, grouping, comparison

    A shallow embedding of the Go sources: the types of types.go, the
    heartbeat tests of analyzer.go, [displayGroupedFrames], the loop of
    [main] and the classification of [processFile], and
    [CompareUnaccountedFrames]; the readers [parseCSVLine],
    [parseCandumpLine] and [parseTimestamp], the loops of [processFile] and
    [compareFiles], and the printer [decodeAndPrint]; together with the
    properties that the design document states about them and further
    properties of the code.

    Conventions.
    - A Go [byte] is a [Byte.byte]; [b & m] is [N.land] on [Byte.to_N b].
    - A Go [string] is a [string]; [<] on strings is the bytewise
      lexicographic order, [String.ltb].
    - A Go [int] is a [Z] in the 64-bit two's complement range; [x++] is
      [int_incr], which wraps.
    - A Go [float64] is a [spec_float]; [==] and [<] are [SFeqb] and [SFltb],
      so that NaN compares false with everything.
    - A Go [map[string]V] is a [gmap string V].  Ranging over a map visits
      the entries in an unspecified order: a loop over a map takes the
      visiting order as a list that is a permutation of [map_to_list].
    - Printing is modelled by returning the list of printed records.
    - A function that returns a value and an error returns a [Result]; an
      index or a slice out of range is the outcome [Panicked]. *)

From Stdlib Require Import ZArith NArith List String Ascii Sorted.
From Stdlib Require Import Strings.Byte.
From Stdlib Require Import Floats.SpecFloat.
From stdpp Require Import base list strings gmap fin_maps sorting.

Local Open Scope Z_scope.

(** ** Machine integers *)

Definition int_max : Z := 2 ^ 63 - 1.

(** Two's complement wrap-around of a 64-bit [int]. *)
Definition int_wrap (z : Z) : Z := (z + 2 ^ 63) mod 2 ^ 64 - 2 ^ 63.

(** [x++] on an [int]. *)
Definition int_incr (z : Z) : Z := int_wrap (z + 1).

(** [len(s)] as an [int]. *)
Definition len {A} (l : list A) : Z := Z.of_nat (length l).

(** [b & m] for a byte [b] and a constant mask [m]. *)
Definition byte_and (b : byte) (m : N) : N := N.land (Byte.to_N b) m.

Global Instance byte_eq_dec : EqDecision byte := Byte.byte_eq_dec.

(** ** types.go *)

(** CANFrame represents a parsed CAN bus frame *)
Record CANFrame := mkCANFrame {
  Timestamp : string;
  ID : string;
  IsExtended : bool;
  Direction : string;
  Bus : Z;
  Length : Z;
  Data : list byte
}.

(** FrameInfo stores frame with metadata for grouping *)
Record FrameInfo := mkFrameInfo {
  Frame : CANFrame;
  TimestampFloat : spec_float;
  Header : byte;
  FrameType : string;
  IsHeartbeat : bool;
  IsCBOR : bool;
  SequenceNum : Z
}.

(** [frame.Data = d], all other fields kept. *)
Definition withData (frame : CANFrame) (d : list byte) : CANFrame :=
  {| Timestamp := Timestamp frame; ID := ID frame;
     IsExtended := IsExtended frame; Direction := Direction frame;
     Bus := Bus frame; Length := Length frame; Data := d |}.

(** ** Printed records

    One constructor per [fmt.Printf] of the modelled functions, carrying the
    values that are formatted. *)
Inductive Output {Item : Type} :=
  | PrintFrameHeader (frame : CANFrame) (header : byte) (frameType : string)
      (* printFrameHeader *)
  | PrintTelemetry (b0 b1 b2 b3 : byte)
      (* "Telemetry? Bytes[1:4]: ..." *)
  | PrintHeartbeat
      (* "Heartbeat/Keep-alive (all zeros)" *)
  | PrintStatusByte (b0 : byte)
      (* "Status byte: ..." *)
  | PrintDiscarding (nbytes : Z) (buffer : list byte)
      (* "Discarding incomplete buffer (%d bytes): %X" *)
  | PrintNewMessage (buffer : list byte)
      (* "New message started, buffer: %X" *)
  | PrintAppended (frameCount : Z) (buffer : list byte) (nbytes : Z)
      (* "Frame %d appended, buffer now: %X (%d bytes)" *)
  | PrintComplete (canID : string) (frameCount : Z) (bytesConsumed : Z)
      (raw : list byte) (item : Item)
      (* "COMPLETE CBOR MESSAGE (CAN ID: 0x%s, %d frames, %d bytes)",
         "Raw CBOR: %X" and the decoded structure *).
Arguments Output : clear implicits.

(** ** analyzer.go *)

(** [for _, b := range data { if b != 0 { ...false } }] *)
Fixpoint allZero (data : list byte) : bool :=
  match data with
  | [] => true
  | b :: rest => if decide (b = x00) then allZero rest else false
  end.

(** checkIfHeartbeat checks if a frame is a heartbeat/keep-alive frame *)
Definition checkIfHeartbeat (frame : CANFrame) : bool :=
  if negb (String.prefix "01111" (ID frame)) then false
  else allZero (Data frame).

(** analyzeRawFrame analyzes non-CBOR frames for patterns and returns true if
    heartbeat detected; the second component is what it prints. *)
Definition analyzeRawFrame {Item} (frame : CANFrame) (verbose : bool)
  : bool * list (Output Item) :=
  if decide (ID frame = "14609460") then
    match Data frame with
    | b0 :: b1 :: b2 :: b3 :: _ =>
        (false, if verbose then [PrintTelemetry b0 b1 b2 b3] else [])
    | _ => (false, [])
    end
  else if String.prefix "01111" (ID frame) then
    if allZero (Data frame) then
      (true, if verbose then [PrintHeartbeat] else [])
    else (false, [])
  else if decide (ID frame = "18209820") then
    match Data frame with
    | b0 :: _ => (false, if verbose then [PrintStatusByte b0] else [])
    | _ => (false, [])
    end
  else (false, []).

(** ** Frame classification ([processFile]) *)

Definition isStartHeader (header : byte) : bool :=
  N.eqb (byte_and header 0xF0) 0xA0.
Definition isContinuationHeader (header : byte) : bool :=
  N.eqb (byte_and header 0xF0) 0x10.

(** The body of the loop of [processFile] from the empty-payload guard on:
    [None] is the [continue] taken for a frame without data, otherwise the
    [FrameInfo] appended to [allFrames]. *)
Definition classifyFrame (frame : CANFrame) (timestampFloat : spec_float)
    (sequenceNum : Z) : option FrameInfo :=
  match Data frame with
  | [] => None
  | header :: _ =>
      let isStartFrame := isStartHeader header in
      let isContinuation := isContinuationHeader header in
      let '(frameType, isCBOR, isHeartbeat) :=
        if isStartFrame then ("START", true, false)
        else if isContinuation then ("CONT", true, false)
        else
          let isHeartbeat := checkIfHeartbeat frame in
          if isHeartbeat then ("HEARTBEAT", false, isHeartbeat)
          else ("UNACCOUNTED", false, isHeartbeat) in
      Some {| Frame := frame; TimestampFloat := timestampFloat;
              Header := header; FrameType := frameType;
              IsHeartbeat := isHeartbeat; IsCBOR := isCBOR;
              SequenceNum := sequenceNum |}
  end.

(** The frame type alone. *)
Definition classify (frame : CANFrame) : option string :=
  FrameType <$> classifyFrame frame (S754_zero false) 0.

(** ** The payload codec

    [cbor.NewDecoder(bufReader).Decode(&item)] is a third-party function.
    It either fails or yields the decoded item; [unread] is what
    [bufReader.Len()] returns afterwards, which for a [bytes.Reader] lies
    between 0 and the length of the buffer it was made from.  The loop only
    tests [err == nil]; the two kinds of failure are kept apart here so that
    statements can tell them apart. *)
Inductive DecodeError := NeedMoreBytes | Malformed.

Inductive DecodeResult (Item : Type) :=
  | Decoded (item : Item) (unread : Z)
  | DecodeFailed (err : DecodeError).
Arguments Decoded {Item} item unread.
Arguments DecodeFailed {Item} err.

(** ** The main loop ([main]) *)

(** The command line flags read by the loop. *)
Record Flags := mkFlags {
  unaccountedOnly : bool;
  hideUnaccounted : bool;
  hideAccounted : bool;
  groupByID : bool
}.

(** The variables of [main] that the framing logic reads and writes.  The
    timestamp bookkeeping ([minTimestamp], [maxTimestamp], [captureStarted])
    and [allFrames] do not take part in it and are left out. *)
Record Reassembly := mkReassembly {
  cborBuffer : list byte;
  lastCanID : string;
  frameCount : Z;
  cborMessageCount : Z;
  heartbeatCount : Z;
  totalFramesProcessed : Z
}.

(** The zero values the variables are declared with. *)
Definition initialState : Reassembly :=
  {| cborBuffer := []; lastCanID := ""; frameCount := 0;
     cborMessageCount := 0; heartbeatCount := 0; totalFramesProcessed := 0 |}.

(** [totalFramesProcessed++] *)
Definition countFrame (st : Reassembly) : Reassembly :=
  {| cborBuffer := cborBuffer st; lastCanID := lastCanID st;
     frameCount := frameCount st;
     cborMessageCount := cborMessageCount st;
     heartbeatCount := heartbeatCount st;
     totalFramesProcessed := int_incr (totalFramesProcessed st) |}.

(** [if isHeartbeat { heartbeatCount++ }] *)
Definition countHeartbeat (isHeartbeat : bool) (st : Reassembly) : Reassembly :=
  {| cborBuffer := cborBuffer st; lastCanID := lastCanID st;
     frameCount := frameCount st;
     cborMessageCount := cborMessageCount st;
     heartbeatCount :=
       if isHeartbeat then int_incr (heartbeatCount st) else heartbeatCount st;
     totalFramesProcessed := totalFramesProcessed st |}.

Section MainLoop.
Context {Item : Type}.
Variable decode : list byte -> DecodeResult Item.

(** [if !*unaccountedOnly && !*hideAccounted { printFrameHeader(...) }] *)
Definition printAccountedHeader (fl : Flags) (frame : CANFrame)
    (header : byte) (frameType : string) : list (Output Item) :=
  if negb (unaccountedOnly fl) && negb (hideAccounted fl)
  then [PrintFrameHeader frame header frameType] else [].

(** The [isStartFrame] branch of the framing logic. *)
Definition absorbStart (fl : Flags) (st : Reassembly) (frame : CANFrame)
    (header : byte) (payload : list byte) : Reassembly * list (Output Item) :=
  let out1 := printAccountedHeader fl frame header "START" in
  let out2 :=
    if 0 <? len (cborBuffer st)
    then [PrintDiscarding (len (cborBuffer st)) (cborBuffer st)] else [] in
  let cborBuffer' := [] ++ payload in
  ({| cborBuffer := cborBuffer'; lastCanID := ID frame; frameCount := 1;
      cborMessageCount := cborMessageCount st;
      heartbeatCount := heartbeatCount st;
      totalFramesProcessed := totalFramesProcessed st |},
   out1 ++ out2 ++ [PrintNewMessage cborBuffer']).

(** The [isContinuation] branch of the framing logic. *)
Definition absorbContinuation (fl : Flags) (st : Reassembly)
    (frame : CANFrame) (header : byte) (payload : list byte)
  : Reassembly * list (Output Item) :=
  let out1 := printAccountedHeader fl frame header "CONT" in
  let cborBuffer' := cborBuffer st ++ payload in
  let frameCount' := int_incr (frameCount st) in
  ({| cborBuffer := cborBuffer'; lastCanID := lastCanID st;
      frameCount := frameCount';
      cborMessageCount := cborMessageCount st;
      heartbeatCount := heartbeatCount st;
      totalFramesProcessed := totalFramesProcessed st |},
   out1 ++ [PrintAppended frameCount' cborBuffer' (len cborBuffer')]).

(** The last branch: not CBOR framing, the frame is analysed as raw data
    and the iteration ends ([continue]). *)
Definition rawFrame (fl : Flags) (st : Reassembly) (frame : CANFrame)
    (header : byte) : Reassembly * list (Output Item) :=
  let showVerbose :=
    negb (unaccountedOnly fl) && negb (hideUnaccounted fl)
    && negb (hideAccounted fl) in
  let '(isHeartbeat, out1) := analyzeRawFrame frame showVerbose in
  let out2 :=
    if negb isHeartbeat && (unaccountedOnly fl || hideAccounted fl)
    then [PrintFrameHeader frame header "UNACCOUNTED"] else [] in
  (countHeartbeat isHeartbeat st, out1 ++ out2).

(** "Try to decode CBOR from the accumulated buffer". *)
Definition tryDecode (st : Reassembly) : Reassembly * list (Output Item) :=
  if 0 <? len (cborBuffer st) then
    match decode (cborBuffer st) with
    | Decoded item unread =>
        let bytesConsumed := len (cborBuffer st) - unread in
        ({| cborBuffer := drop (Z.to_nat bytesConsumed) (cborBuffer st);
            lastCanID := lastCanID st; frameCount := frameCount st;
            cborMessageCount := int_incr (cborMessageCount st);
            heartbeatCount := heartbeatCount st;
            totalFramesProcessed := totalFramesProcessed st |},
         [PrintComplete (lastCanID st) (frameCount st) bytesConsumed
            (take (Z.to_nat bytesConsumed) (cborBuffer st)) item])
    | DecodeFailed _ => (st, [])
    end
  else (st, []).

(** The framing logic of one iteration, outside group-by-ID mode. *)
Definition framingStep (fl : Flags) (st : Reassembly) (frame : CANFrame)
    (header : byte) (payload : list byte) : Reassembly * list (Output Item) :=
  if isStartHeader header then
    let '(st1, out1) := absorbStart fl st frame header payload in
    let '(st2, out2) := tryDecode st1 in
    (st2, out1 ++ out2)
  else if isContinuationHeader header then
    let '(st1, out1) := absorbContinuation fl st frame header payload in
    let '(st2, out2) := tryDecode st1 in
    (st2, out1 ++ out2)
  else rawFrame fl st frame header.

(** The buffer handling of group-by-ID mode ("Still need to process CBOR
    for accurate counts"): the same buffer updates, nothing printed. *)
Definition groupedAbsorb (st : Reassembly) (frame : CANFrame)
    (header : byte) (payload : list byte) : Reassembly :=
  if isStartHeader header then
    {| cborBuffer := [] ++ payload; lastCanID := ID frame; frameCount := 1;
       cborMessageCount := cborMessageCount st;
       heartbeatCount := heartbeatCount st;
       totalFramesProcessed := totalFramesProcessed st |}
  else if isContinuationHeader header then
    {| cborBuffer := cborBuffer st ++ payload; lastCanID := lastCanID st;
       frameCount := int_incr (frameCount st);
       cborMessageCount := cborMessageCount st;
       heartbeatCount := heartbeatCount st;
       totalFramesProcessed := totalFramesProcessed st |}
  else st.

Definition groupedDecode (st : Reassembly) (isCBOR : bool) : Reassembly :=
  if isCBOR && (0 <? len (cborBuffer st)) then
    match decode (cborBuffer st) with
    | Decoded item unread =>
        {| cborBuffer :=
             drop (Z.to_nat (len (cborBuffer st) - unread)) (cborBuffer st);
           lastCanID := lastCanID st; frameCount := frameCount st;
           cborMessageCount := int_incr (cborMessageCount st);
           heartbeatCount := heartbeatCount st;
           totalFramesProcessed := totalFramesProcessed st |}
    | DecodeFailed _ => st
    end
  else st.

Definition groupedStep (st : Reassembly) (frame : CANFrame)
    (header : byte) (payload : list byte) : Reassembly * list (Output Item) :=
  let isCBOR := isStartHeader header || isContinuationHeader header in
  let isHeartbeat := negb isCBOR && checkIfHeartbeat frame in
  let st1 := groupedAbsorb st frame header payload in
  let st2 := groupedDecode st1 isCBOR in
  (countHeartbeat isHeartbeat st2, []).

(** One iteration of the loop for a parsed frame: the empty-payload guard,
    the frame counter, the header split, then one of the two modes. *)
Definition processFrame (fl : Flags) (st : Reassembly) (frame : CANFrame)
  : Reassembly * list (Output Item) :=
  match Data frame with
  | [] => (st, [])
  | header :: payload =>
      let st0 := countFrame st in
      if groupByID fl then groupedStep st0 frame header payload
      else framingStep fl st0 frame header payload
  end.

(** The loop over the parsed frames, in capture order. *)
Fixpoint mainLoop (fl : Flags) (st : Reassembly) (frames : list CANFrame)
  : Reassembly * list (Output Item) :=
  match frames with
  | [] => (st, [])
  | frame :: rest =>
      let '(st1, out1) := processFrame fl st frame in
      let '(st2, out2) := mainLoop fl st1 rest in
      (st2, out1 ++ out2)
  end.
End MainLoop.

(** ** A small codec

    An instance of the codec interface on which the loop can be run: the
    CBOR data items that neither nest nor are of indefinite length
    (RFC 8949: unsigned and negative integers, byte and text strings, and
    the one-byte simple values).  A buffer that ends inside such an item is
    [NeedMoreBytes]; any other initial byte is [Malformed]: that is what a
    CBOR decoder answers to the "break" byte [0xFF] and to the reserved
    additional information values 28 to 30, while arrays, maps, tags and
    floating-point numbers are outside this codec.  The reader is left with
    exactly the bytes that follow the item. *)
Inductive MiniItem :=
  | MUint (n : N)
  | MNint (n : N)
  | MBytes (bs : list byte)
  | MText (bs : list byte)
  | MSimple (n : N).

(** Big-endian value of a byte sequence. *)
Definition beValue (bs : list byte) : N :=
  fold_left (fun acc b => (acc * 256 + Byte.to_N b)%N) bs 0%N.

(** The argument of an item head: its value and the bytes after it. *)
Definition miniArgument (ai : N) (rest : list byte)
  : DecodeError + N * list byte :=
  let extra (n : nat) :=
    if (length rest <? n)%nat then inl NeedMoreBytes
    else inr (beValue (take n rest), drop n rest) in
  if (ai <? 24)%N then inr (ai, rest)
  else if (ai =? 24)%N then extra 1%nat
  else if (ai =? 25)%N then extra 2%nat
  else if (ai =? 26)%N then extra 4%nat
  else if (ai =? 27)%N then extra 8%nat
  else inl Malformed.

Definition miniDecode (buf : list byte) : DecodeResult MiniItem :=
  match buf with
  | [] => DecodeFailed NeedMoreBytes
  | ib :: rest =>
      let major := (Byte.to_N ib / 32)%N in
      let ai := (Byte.to_N ib mod 32)%N in
      if (major =? 7)%N then
        if (ai <? 24)%N then Decoded (MSimple ai) (len rest)
        else DecodeFailed Malformed
      else if (3 <? major)%N then DecodeFailed Malformed
      else
        match miniArgument ai rest with
        | inl e => DecodeFailed e
        | inr (n, rest') =>
            if (major =? 0)%N then Decoded (MUint n) (len rest')
            else if (major =? 1)%N then Decoded (MNint n) (len rest')
            else if (length rest' <? N.to_nat n)%nat
            then DecodeFailed NeedMoreBytes
            else
              let body := take (N.to_nat n) rest' in
              let unread := len (drop (N.to_nat n) rest') in
              if (major =? 2)%N then Decoded (MBytes body) unread
              else Decoded (MText body) unread
        end
  end.

(** ** Sorting

    [sort.Slice] and [sort.Strings] sort a slice of at most 12 elements by
    this insertion sort: from left to right, each element is swapped
    leftwards while it is less than its left neighbour.  On longer
    slices they switch to pattern-defeating quicksort, which, like the
    insertion sort, returns a permutation of the slice that is sorted
    whenever [less] is a strict weak order; the properties proved of the
    sorted lists use these two facts only. *)
Section Sort.
Context {A : Type}.
Variable less : A -> A -> bool.

(** [insertLeft x sorted]: [sorted] is the part of the slice left of [x],
    nearest element first; [x] moves left past the elements it is less
    than and stops at the first one it is not less than. *)
Fixpoint insertLeft (x : A) (left : list A) : list A :=
  match left with
  | [] => [x]
  | y :: left' => if less x y then y :: insertLeft x left' else x :: left
  end.

Definition sortSlice (l : list A) : list A :=
  rev (fold_left (fun left x => insertLeft x left) l []).
End Sort.

(** [sort.Strings] *)
Definition sortStrings (l : list string) : list string :=
  sortSlice String.ltb l.

(** ** Grouped display ([displayGroupedFrames]) *)

(** The comparison passed to [sort.Slice] in [displayGroupedFrames]. *)
Definition frameLess (a b : FrameInfo) : bool :=
  if SFeqb (TimestampFloat a) (TimestampFloat b)
  then SequenceNum a <? SequenceNum b
  else SFltb (TimestampFloat a) (TimestampFloat b).

(** [grouped[f.Frame.ID] = append(grouped[f.Frame.ID], f)] for each frame. *)
Definition groupFrames (frames : list FrameInfo) : gmap string (list FrameInfo) :=
  fold_left
    (fun grouped f =>
       <[ID (Frame f) := default [] (grouped !! ID (Frame f)) ++ [f]]> grouped)
    frames ∅.

(** The two [continue]s of the filter loop. *)
Definition hiddenFrame (hideAccounted hideUnaccounted : bool) (f : FrameInfo)
  : bool :=
  (hideAccounted && (IsCBOR f || IsHeartbeat f))
  || (hideUnaccounted && negb (IsCBOR f) && negb (IsHeartbeat f)).

(** One round of the loop over the sorted ids: [None] is the [continue] of
    a group left empty by the filter, otherwise the id and the frames that
    are printed under it, in printing order. *)
Definition displayGroup (grouped : gmap string (list FrameInfo))
    (hideAccounted hideUnaccounted : bool) (id : string)
  : option (string * list FrameInfo) :=
  let frameList := sortSlice frameLess (default [] (grouped !! id)) in
  let filteredFrames :=
    filter (fun f => hiddenFrame hideAccounted hideUnaccounted f = false)
      frameList in
  if decide (len filteredFrames = 0) then None else Some (id, filteredFrames).

(** displayGroupedFrames displays frames grouped by CAN ID and sorted by
    timestamp.  [rangeIDs] is the order in which [for id := range grouped]
    visits the keys. *)
Definition displayGroupedFrames (rangeIDs : list string)
    (frames : list FrameInfo) (hideAccounted hideUnaccounted : bool)
  : list (string * list FrameInfo) :=
  let grouped := groupFrames frames in
  let ids := sortStrings rangeIDs in
  omap (displayGroup grouped hideAccounted hideUnaccounted) ids.

(** ** Comparison of unaccounted frames ([CompareUnaccountedFrames]) *)

(** UnaccountedFrame represents a unique unaccounted frame pattern.  (The
    first two fields are [ID] and [Header] in the source.) *)
Record UnaccountedFrame := mkUnaccountedFrame {
  PatID : string;
  PatHeader : byte;
  DataHex : string;
  Occurrences : gmap string Z
}.

Definition hexDigit (n : N) : ascii :=
  nth (N.to_nat n) (list_ascii_of_string "0123456789ABCDEF") "0"%char.

(** [fmt.Sprintf("%02X", b)] for a byte. *)
Definition hexByte (b : byte) : string :=
  String (hexDigit (Byte.to_N b / 16)) (String (hexDigit (Byte.to_N b mod 16)) "").

(** [fmt.Sprintf("%X", data)] for a byte slice. *)
Fixpoint sprintfX (data : list byte) : string :=
  match data with
  | [] => ""
  | b :: rest => hexByte b +:+ sprintfX rest
  end.

(** [fmt.Sprintf("%s:%02X:%s", id, header, dataHex)] *)
Definition patternKey (id : string) (header : byte) (dataHex : string) : string :=
  id +:+ ":" +:+ hexByte header +:+ ":" +:+ dataHex.

(** [pattern.Occurrences[filename]++] *)
Definition countOccurrence (filename : string) (pattern : UnaccountedFrame)
  : UnaccountedFrame :=
  {| PatID := PatID pattern; PatHeader := PatHeader pattern;
     DataHex := DataHex pattern;
     Occurrences :=
       <[filename := int_incr (default 0 (Occurrences pattern !! filename))]>
         (Occurrences pattern) |}.

(** The body of the inner collecting loop, for one frame of [filename]. *)
Definition addPattern (filename : string)
    (framePatterns : gmap string UnaccountedFrame) (f : FrameInfo)
  : gmap string UnaccountedFrame :=
  if IsCBOR f || IsHeartbeat f then framePatterns
  else
    let dataHex := sprintfX (Data (Frame f)) in
    let key := patternKey (ID (Frame f)) (Header f) dataHex in
    let framePatterns1 :=
      match framePatterns !! key with
      | Some _ => framePatterns
      | None =>
          <[key := {| PatID := ID (Frame f); PatHeader := Header f;
                      DataHex := dataHex; Occurrences := ∅ |}]> framePatterns
      end in
    alter (countOccurrence filename) key framePatterns1.

(** "Collect all unique unaccounted frame patterns"; [rangeFiles] is the
    order in which the files of [fileFrames] are visited. *)
Definition collectPatterns (rangeFiles : list (string * list FrameInfo))
  : gmap string UnaccountedFrame :=
  fold_left
    (fun framePatterns '(filename, frames) =>
       fold_left (addPattern filename) frames framePatterns)
    rangeFiles ∅.

(** The comparison of [sortFramesByID]. *)
Definition patternLess (a b : UnaccountedFrame) : bool :=
  if decide (PatID a = PatID b) then
    if decide (PatHeader a = PatHeader b) then String.ltb (DataHex a) (DataHex b)
    else (Byte.to_N (PatHeader a) <? Byte.to_N (PatHeader b))%N
  else String.ltb (PatID a) (PatID b).

Definition sortFramesByID (frames : list UnaccountedFrame)
  : list UnaccountedFrame :=
  sortSlice patternLess frames.

Record Categories := mkCategories {
  commonToAll : list UnaccountedFrame;
  uniqueFrames : gmap string (list UnaccountedFrame);
  partialFrames : list UnaccountedFrame
}.

(** The body of the categorizing loop.  In its middle branch the occurrence
    map has one entry, so that the loop over it has one visiting order. *)
Definition categorize (nfiles : nat) (cats : Categories)
    (pattern : UnaccountedFrame) : Categories :=
  if decide (size (Occurrences pattern) = nfiles) then
    {| commonToAll := commonToAll cats ++ [pattern];
       uniqueFrames := uniqueFrames cats;
       partialFrames := partialFrames cats |}
  else if decide (size (Occurrences pattern) = 1%nat) then
    {| commonToAll := commonToAll cats;
       uniqueFrames :=
         fold_left
           (fun unique '(fn, _) =>
              <[fn := default [] (unique !! fn) ++ [pattern]]> unique)
           (map_to_list (Occurrences pattern)) (uniqueFrames cats);
       partialFrames := partialFrames cats |}
  else
    {| commonToAll := commonToAll cats;
       uniqueFrames := uniqueFrames cats;
       partialFrames := partialFrames cats ++ [pattern] |}.

Definition categorizeAll (nfiles : nat) (rangePatterns : list UnaccountedFrame)
  : Categories :=
  fold_left (categorize nfiles) rangePatterns
    {| commonToAll := []; uniqueFrames := ∅; partialFrames := [] |}.

(** countUniqueFrames: the sum does not depend on the visiting order. *)
Definition countUniqueFrames (uniqueFrames : gmap string (list UnaccountedFrame))
  : Z :=
  map_fold (fun _ frames total => total + len frames) 0 uniqueFrames.

(** What [CompareUnaccountedFrames] prints. *)
Record Report := mkReport {
  (* "Files analyzed": index, name, unaccounted count, total frames *)
  reportFiles : list (Z * string * Z * Z);
  (* "Frames Common to ALL Files", in printing order *)
  reportCommon : list UnaccountedFrame;
  (* "Frames UNIQUE to <file>", one block per file that has some *)
  reportUnique : list (string * list UnaccountedFrame);
  (* "Frames in SOME Files", in printing order *)
  reportPartial : list UnaccountedFrame;
  (* the four lines of the summary *)
  totalPatterns : Z;
  commonCount : Z;
  uniqueCount : Z;
  partialCount : Z
}.

Definition isUnaccounted (f : FrameInfo) : bool :=
  negb (IsCBOR f) && negb (IsHeartbeat f).

(** The file summary lines, numbered from 1. *)
Fixpoint fileSummary (fileFrames : gmap string (list FrameInfo))
    (i : Z) (filenames : list string) : list (Z * string * Z * Z) :=
  match filenames with
  | [] => []
  | fn :: rest =>
      let frames := default [] (fileFrames !! fn) in
      (i + 1, fn, len (List.filter isUnaccounted frames), len frames)
        :: fileSummary fileFrames (i + 1) rest
  end.

(** The blocks of unique frames, one per file name that has any. *)
Definition uniqueBlocks (uniqueFrames : gmap string (list UnaccountedFrame))
    (filenames : list string) : list (string * list UnaccountedFrame) :=
  omap (fun fn =>
          let frames := default [] (uniqueFrames !! fn) in
          if decide (0 < len frames) then Some (fn, sortFramesByID frames)
          else None)
       filenames.

(** CompareUnaccountedFrames compares unaccounted frames across multiple
    files.  The three loops over maps take their visiting orders:
    [rangeFiles1] for the collecting loop, [rangeFiles2] for the loop that
    gathers the file names, [rangePatterns] for the categorizing loop. *)
Definition CompareUnaccountedFrames (fileFrames : gmap string (list FrameInfo))
    (rangeFiles1 rangeFiles2 : list (string * list FrameInfo))
    (rangePatterns : list (string * UnaccountedFrame)) : Report :=
  let framePatterns := collectPatterns rangeFiles1 in
  let filenames := sortStrings (rangeFiles2.*1) in
  let cats := categorizeAll (length filenames) (rangePatterns.*2) in
  {| reportFiles := fileSummary fileFrames 0 filenames;
     reportCommon := sortFramesByID (commonToAll cats);
     reportUnique := uniqueBlocks (uniqueFrames cats) filenames;
     reportPartial := sortFramesByID (partialFrames cats);
     totalPatterns := Z.of_nat (size framePatterns);
     commonCount := len (commonToAll cats);
     uniqueCount := countUniqueFrames (uniqueFrames cats);
     partialCount := len (partialFrames cats) |}.

(** A run of [CompareUnaccountedFrames] on [fileFrames]: the report for
    some visiting orders of the maps. *)
Definition CompareRun (fileFrames : gmap string (list FrameInfo)) (r : Report)
  : Prop :=
  exists rangeFiles1 rangeFiles2 rangePatterns,
    rangeFiles1 ≡ₚ map_to_list fileFrames /\
    rangeFiles2 ≡ₚ map_to_list fileFrames /\
    rangePatterns ≡ₚ map_to_list (collectPatterns rangeFiles1) /\
    r = CompareUnaccountedFrames fileFrames rangeFiles1 rangeFiles2 rangePatterns.

(** The run that visits every map in the order of [map_to_list]. *)
Definition compareReport (fileFrames : gmap string (list FrameInfo)) : Report :=
  let files := map_to_list fileFrames in
  CompareUnaccountedFrames fileFrames files files
    (map_to_list (collectPatterns files)).

(** ** Vocabulary of the reassembly properties *)

(** [frame.Data[1:]] *)
Definition stripHeader (frame : CANFrame) : list byte := drop 1 (Data frame).

(** The frame takes the [isStartFrame] branch. *)
Definition frameIsStart (frame : CANFrame) : bool :=
  match Data frame with
  | [] => false
  | header :: _ => isStartHeader header
  end.

(** The frame takes the [isContinuation] branch. *)
Definition frameIsContinuation (frame : CANFrame) : bool :=
  match Data frame with
  | [] => false
  | header :: _ => negb (isStartHeader header) && isContinuationHeader header
  end.

(** The buffer that the decode attempt of an iteration sees, for a START
    or continuation frame. *)
Definition absorbedBuffer (st : Reassembly) (frame : CANFrame) : list byte :=
  if frameIsStart frame then stripHeader frame
  else cborBuffer st ++ stripHeader frame.

(** The record is the report of a decoded message. *)
Definition isComplete {Item} (o : Output Item) : bool :=
  match o with PrintComplete _ _ _ _ _ => true | _ => false end.

(** The record is a warning: the one line of the loop that reports an
    anomaly of the frame sequence. *)
Definition isWarning {Item} (o : Output Item) : bool :=
  match o with PrintDiscarding _ _ => true | _ => false end.

(** The flag defaults ("Mode: All frames") and group-by-ID mode. *)
Definition defaultFlags : Flags :=
  {| unaccountedOnly := false; hideUnaccounted := false;
     hideAccounted := false; groupByID := false |}.
Definition groupedFlags : Flags :=
  {| unaccountedOnly := false; hideUnaccounted := false;
     hideAccounted := false; groupByID := true |}.

(** A frame as [parseCandumpLine] builds it from [id#payload]. *)
Definition candumpFrame (id : string) (payload : list byte) : CANFrame :=
  {| Timestamp := ""; ID := id;
     IsExtended := (3 <? String.length id)%nat;
     Direction := ""; Bus := 0; Length := len payload; Data := payload |}.

(** Sample frames and states on which the loop is run below. *)
Module Sample.
(** START carrying the one-byte encoding of the unsigned integer 1 *)
Definition startUint1 : CANFrame := candumpFrame "123" [xa0; x01].
(** continuation that carries the header byte only *)
Definition contEmpty : CANFrame := candumpFrame "123" [x10].
(** START carrying the first byte of the two-byte encoding of 42 *)
Definition startUint42 : CANFrame := candumpFrame "123" [xa0; x18].
(** continuation carrying the second byte of that encoding *)
Definition contUint42 : CANFrame := candumpFrame "123" [x11; x2a].
(** START of another identifier carrying the first byte of a three-byte
    unsigned integer *)
Definition startUint16 : CANFrame := candumpFrame "456" [xa1; x19].
(** START carrying the "break" byte, which opens no data item *)
Definition startBreak : CANFrame := candumpFrame "123" [xa0; xff].
(** continuation carrying the first byte of a two-byte unsigned integer *)
Definition contPending : CANFrame := candumpFrame "123" [x11; x18].
(** the state after [startUint42]: one byte buffered, not yet a value *)
Definition pending : Reassembly :=
  {| cborBuffer := [x18]; lastCanID := "123"; frameCount := 1;
     cborMessageCount := 0; heartbeatCount := 0;
     totalFramesProcessed := 1 |}.
End Sample.

(** What the absorbing branch of an iteration prints outside group-by-ID
    mode, for a START or continuation frame. *)
Definition absorbOutput {Item} (fl : Flags) (st : Reassembly)
    (frame : CANFrame) : list (Output Item) :=
  match Data frame with
  | [] => []
  | header :: payload =>
      if isStartHeader header
      then snd (absorbStart fl st frame header payload)
      else snd (absorbContinuation fl st frame header payload)
  end.

(** ** Vocabulary of the grouping properties *)

(** The timestamp is a number. *)
Definition isNumber (t : spec_float) : Prop :=
  match t with S754_nan => False | _ => True end.

(** [a] stands before [b] in the order "timestamp ascending, ties by
    sequence number ascending". *)
Definition frameLe (a b : FrameInfo) : Prop :=
  SFltb (TimestampFloat a) (TimestampFloat b) = true \/
  (SFeqb (TimestampFloat a) (TimestampFloat b) = true /\
   SequenceNum a <= SequenceNum b).

(** The frame passes the filter of the active view. *)
Definition shownFrame (hideAccounted hideUnaccounted : bool) (f : FrameInfo)
  : Prop :=
  hiddenFrame hideAccounted hideUnaccounted f = false.

Global Instance shownFrame_dec (hideAccounted hideUnaccounted : bool)
    (f : FrameInfo) : Decision (shownFrame hideAccounted hideUnaccounted f) :=
  decide (hiddenFrame hideAccounted hideUnaccounted f = false).

(** The frames of [frames] that carry the identifier [id], in capture
    order. *)
Definition framesOfID (id : string) (frames : list FrameInfo) : list FrameInfo :=
  filter (fun f => ID (Frame f) = id) frames.

(** The position of a number in the order of [SFcompare]: sign class, then
    exponent, then mantissa, the last two negated for negative numbers. *)
Definition floatKey (t : spec_float) : Z * Z * Z :=
  match t with
  | S754_zero _ => (0, 0, 0)
  | S754_infinity true => (-2, 0, 0)
  | S754_infinity false => (2, 0, 0)
  | S754_nan => (3, 0, 0)
  | S754_finite true m e => (-1, - e, - Z.pos m)
  | S754_finite false m e => (1, e, Z.pos m)
  end.

Definition keyLt (a b : Z * Z * Z) : Prop :=
  a.1.1 < b.1.1 \/
  (a.1.1 = b.1.1 /\ (a.1.2 < b.1.2 \/ (a.1.2 = b.1.2 /\ a.2 < b.2))).

(** Sample classified frames of one identifier, as group-by-ID mode
    collects them from three lines of a CSV capture whose time stamp fields
    read 2000000, NaN and 1000000 (microseconds): [strconv.ParseFloat]
    accepts "NaN", so that the timestamps are 2.0, NaN and 1.0. *)
Module SampleGroup.
Definition two : spec_float := S754_finite false 4503599627370496 (-51).
Definition one : spec_float := S754_finite false 4503599627370496 (-52).
Definition csvFrame (timestamp : string) : CANFrame :=
  {| Timestamp := timestamp; ID := "123"; IsExtended := false;
     Direction := "Rx"; Bus := 0; Length := 2; Data := [x80; x01] |}.
Definition frame (timestamp : string) (t : spec_float) (seq : Z) : FrameInfo :=
  {| Frame := csvFrame timestamp; TimestampFloat := t;
     Header := x80; FrameType := "UNACCOUNTED"; IsHeartbeat := false;
     IsCBOR := false; SequenceNum := seq |}.
Definition f1 : FrameInfo := frame "2000000" two 1.
Definition f2 : FrameInfo := frame "NaN" S754_nan 2.
Definition f3 : FrameInfo := frame "1000000" one 3.
End SampleGroup.

(** ** Vocabulary of the comparison properties *)

(** The character occurs in the string. *)
Fixpoint occursIn (c : ascii) (s : string) : bool :=
  match s with
  | EmptyString => false
  | String a rest => if decide (a = c) then true else occursIn c rest
  end.

(** The 256 bytes. *)
Definition allBytes : list byte :=
  omap (fun n => Byte.of_N (N.of_nat n)) (seq 0 256).

(** The byte that is printed as the two hexadecimal digits [s]. *)
Definition byteOfHex (s : string) : option byte :=
  List.find (fun b => String.eqb (hexByte b) s) allBytes.

(** The key under which the pattern of a frame is stored. *)
Definition frameKey (f : FrameInfo) : string :=
  patternKey (ID (Frame f)) (Header f) (sprintfX (Data (Frame f))).

(** The pattern created for a frame that is the first of its shape. *)
Definition freshPattern (f : FrameInfo) : UnaccountedFrame :=
  {| PatID := ID (Frame f); PatHeader := Header f;
     DataHex := sprintfX (Data (Frame f)); Occurrences := ∅ |}.

(** The shape of a frame: identifier, header byte and payload bytes. *)
Definition frameShape (f : FrameInfo) : string * byte * list byte :=
  (ID (Frame f), Header f, Data (Frame f)).

(** The unaccounted frames of all files, each with the name of its file, in
    the order in which the collecting loop meets them. *)
Definition observations (rangeFiles : list (string * list FrameInfo))
  : list (string * FrameInfo) :=
  rangeFiles ≫= fun '(filename, frames) =>
    (fun f => (filename, f)) <$> List.filter isUnaccounted frames.

(** The collecting loop body on an observation. *)
Definition collectStep (m : gmap string UnaccountedFrame)
    (o : string * FrameInfo) : gmap string UnaccountedFrame :=
  addPattern o.1 m o.2.

(** The distinct shapes of the unaccounted frames of all files. *)
Definition distinctShapes (fileFrames : gmap string (list FrameInfo))
  : list (string * byte * list byte) :=
  remove_dups (frameShape <$> (observations (map_to_list fileFrames)).*2).

(** The key under which a pattern is stored. *)
Definition patternKeyOf (p : UnaccountedFrame) : string :=
  patternKey (PatID p) (PatHeader p) (DataHex p).

(** [a] stands before [b] in the order of the report: by identifier as
    text, then by header byte as a number, then by payload hex as text. *)
Definition patternLt (a b : UnaccountedFrame) : Prop :=
  String.ltb (PatID a) (PatID b) = true \/
  (PatID a = PatID b /\
   ((Byte.to_N (PatHeader a) < Byte.to_N (PatHeader b))%N \/
    (PatHeader a = PatHeader b /\
     String.ltb (DataHex a) (DataHex b) = true))).

(** The three classes of patterns for [nfiles] sources. *)
Definition isCommon (nfiles : nat) (p : UnaccountedFrame) : Prop :=
  size (Occurrences p) = nfiles.
Definition isUnique (nfiles : nat) (p : UnaccountedFrame) : Prop :=
  size (Occurrences p) <> nfiles /\ size (Occurrences p) = 1%nat.
Definition isPartial (nfiles : nat) (p : UnaccountedFrame) : Prop :=
  size (Occurrences p) <> nfiles /\ size (Occurrences p) <> 1%nat.

Global Instance isCommon_dec nfiles p : Decision (isCommon nfiles p) :=
  decide (size (Occurrences p) = nfiles).
Global Instance isUnique_dec nfiles p : Decision (isUnique nfiles p) :=
  decide (size (Occurrences p) <> nfiles /\ size (Occurrences p) = 1%nat).
Global Instance isPartial_dec nfiles p : Decision (isPartial nfiles p) :=
  decide (size (Occurrences p) <> nfiles /\ size (Occurrences p) <> 1%nat).

(** The pattern has been seen in [filename] and in no other file, among
    more than one. *)
Definition isUniqueTo (nfiles : nat) (filename : string)
    (p : UnaccountedFrame) : Prop :=
  isUnique nfiles p /\ is_Some (Occurrences p !! filename).

Global Instance isUniqueTo_dec nfiles filename p
  : Decision (isUniqueTo nfiles filename p) :=
  decide (isUnique nfiles p /\ is_Some (Occurrences p !! filename)).

(** The lexicographic combination of two comparisons, as [patternLess]
    nests them: the first components decide unless they are equal. *)
Definition lexLess {X Y} `{EqDecision X}
    (lx : X -> X -> bool) (ly : Y -> Y -> bool) (a b : X * Y) : bool :=
  if decide (a.1 = b.1) then ly a.2 b.2 else lx a.1 b.1.

(** [less] is a strict total order. *)
Record StrictTotal {A} (less : A -> A -> bool) : Prop := {
  st_asym : forall x y, less x y = true -> less y x = false;
  st_negtrans : forall x y z,
    less x y = false -> less y z = false -> less x z = false;
  st_total : forall x y, less x y = false -> less y x = false -> x = y
}.

(** The comparison of header bytes in [patternLess]. *)
Definition byteLess (a b : byte) : bool := (Byte.to_N a <? Byte.to_N b)%N.

(** The fields that [patternLess] compares. *)
Definition patternFields (p : UnaccountedFrame) : string * (byte * string) :=
  (PatID p, (PatHeader p, DataHex p)).

(** Three sample captures: the shape ("100", 0x50, 50 01) is in the first
    two, the shape ("200", 0x60, 60) in all three, and the shape
    ("300", 0x70, 70) in the third only. *)
Module SampleCompare.
Definition unaccounted (id : string) (data : list byte) (seq : Z) : FrameInfo :=
  {| Frame := candumpFrame id data; TimestampFloat := S754_zero false;
     Header := hd x00 data; FrameType := "UNACCOUNTED";
     IsHeartbeat := false; IsCBOR := false; SequenceNum := seq |}.
Definition fileA : list FrameInfo :=
  [unaccounted "100" [x50; x01] 1; unaccounted "200" [x60] 2].
Definition fileB : list FrameInfo :=
  [unaccounted "200" [x60] 1; unaccounted "100" [x50; x01] 2;
   unaccounted "200" [x60] 3].
Definition fileC : list FrameInfo :=
  [unaccounted "300" [x70] 1; unaccounted "200" [x60] 2].
Definition fileFrames : gmap string (list FrameInfo) :=
  {[ "a.log" := fileA; "b.log" := fileB; "c.log" := fileC ]}.
(** the report of a run that visits files and patterns in reverse order *)
Definition reversedRun : Report :=
  let files := reverse (map_to_list fileFrames) in
  CompareUnaccountedFrames fileFrames files (map_to_list fileFrames)
    (reverse (map_to_list (collectPatterns files))).
End SampleCompare.

(** ** Reading a capture (decoder.go, [processFile], [compareFiles])

    The outcome of a call that returns a value and an error. *)
Inductive Result (A : Type) :=
  | Returned (a : A)   (* the value, with a nil error *)
  | Failed             (* a non-nil error *)
  | Panicked.          (* index or slice bounds out of range *)
Arguments Returned {A} a.
Arguments Failed {A}.
Arguments Panicked {A}.

Global Instance Result_bind : MBind Result := fun A B k r =>
  match r with
  | Returned a => k a
  | Failed => Failed
  | Panicked => Panicked
  end.

(** *** The string functions of the Go library

    Go strings are byte sequences.  In every call of [strings.Index],
    [strings.LastIndex], [strings.ReplaceAll] and [strings.Split] modelled
    here the separator is a one-byte string, and the replacement of
    [strings.ReplaceAll] is the empty string. *)

(** [len(s)] *)
Definition strLen (s : string) : Z := Z.of_nat (String.length s).

Fixpoint stringTake (n : nat) (s : string) : string :=
  match n, s with
  | S n', String a rest => String a (stringTake n' rest)
  | _, _ => EmptyString
  end.

Fixpoint stringDrop (n : nat) (s : string) : string :=
  match n, s with
  | S n', String _ rest => stringDrop n' rest
  | _, _ => s
  end.

(** [s[:n]] *)
Definition sliceTo (s : string) (n : Z) : Result string :=
  if (n <? 0) || (strLen s <? n) then Panicked
  else Returned (stringTake (Z.to_nat n) s).

(** [s[n:]] *)
Definition sliceFrom (s : string) (n : Z) : Result string :=
  if (n <? 0) || (strLen s <? n) then Panicked
  else Returned (stringDrop (Z.to_nat n) s).

(** [fields[k]] *)
Definition indexField (fields : list string) (k : Z) : Result string :=
  if k <? 0 then Panicked
  else match fields !! Z.to_nat k with
       | Some field => Returned field
       | None => Panicked
       end.

(** [strings.Index(s, sep)]: the index of the first [sep] in [s], or -1. *)
Fixpoint stringsIndex (s : string) (sep : ascii) : Z :=
  match s with
  | EmptyString => -1
  | String a rest =>
      if decide (a = sep) then 0
      else let i := stringsIndex rest sep in
           if i =? -1 then -1 else i + 1
  end.

(** [strings.LastIndex(s, sep)]: the index of the last [sep] in [s], or -1. *)
Fixpoint stringsLastIndex (s : string) (sep : ascii) : Z :=
  match s with
  | EmptyString => -1
  | String a rest =>
      let i := stringsLastIndex rest sep in
      if i =? -1 then (if decide (a = sep) then 0 else -1) else i + 1
  end.

(** [strings.ReplaceAll(s, old, "")]: [s] without the bytes [old]. *)
Fixpoint stringsRemove (s : string) (old : ascii) : string :=
  match s with
  | EmptyString => EmptyString
  | String a rest =>
      if decide (a = old) then stringsRemove rest old
      else String a (stringsRemove rest old)
  end.

(** [strings.Contains(s, substr)] *)
Fixpoint stringsContains (s substr : string) : bool :=
  String.prefix substr s ||
  match s with
  | EmptyString => false
  | String _ rest => stringsContains rest substr
  end.

(** [strings.Split(s, sep)]: the pieces of [s] between the bytes [sep]; one
    piece more than there are separators. *)
Fixpoint stringsSplit (s : string) (sep : ascii) : list string :=
  match s with
  | EmptyString => [EmptyString]
  | String a rest =>
      if decide (a = sep) then EmptyString :: stringsSplit rest sep
      else match stringsSplit rest sep with
           | piece :: pieces => String a piece :: pieces
           | [] => [String a EmptyString]
           end
  end.

(** The value of a hexadecimal digit of either case ([fromHexChar] of
    encoding/hex; the digits that [strconv.ParseUint] accepts in base 16). *)
Definition fromHexChar (c : ascii) : option N :=
  let n := N_of_ascii c in
  if (48 <=? n)%N && (n <=? 57)%N then Some (n - 48)%N
  else if (97 <=? n)%N && (n <=? 102)%N then Some (n - 87)%N
  else if (65 <=? n)%N && (n <=? 70)%N then Some (n - 55)%N
  else None.

(** [byte(n)] for [n] below 256. *)
Definition byteOfN (n : N) : byte := default x00 (Byte.of_N n).

(** [hex.DecodeString(s)]: the bytes written as pairs of hexadecimal
    digits; an error for a character that is no digit and for an odd
    length. *)
Fixpoint hexDecodeString (s : string) : option (list byte) :=
  match s with
  | EmptyString => Some []
  | String _ EmptyString => None
  | String p (String q rest) =>
      match fromHexChar p, fromHexChar q, hexDecodeString rest with
      | Some hi, Some lo, Some bytes => Some (byteOfN (hi * 16 + lo) :: bytes)
      | _, _, _ => None
      end
  end.

Fixpoint hexValue (acc : N) (s : string) : option N :=
  match s with
  | EmptyString => Some acc
  | String c rest =>
      match fromHexChar c with
      | Some d => hexValue (acc * 16 + d) rest
      | None => None
      end
  end.

(** [strconv.ParseUint(s, 16, 8)]: a non-empty sequence of hexadecimal
    digits, without sign, prefix or underscore, whose value is below 256;
    [None] for an error. *)
Definition parseUint16_8 (s : string) : option byte :=
  if decide (s = EmptyString) then None
  else match hexValue 0 s with
       | Some n => if (n <=? 255)%N then Byte.of_N n else None
       | None => None
       end.

Fixpoint decValue (acc : Z) (s : string) : option Z :=
  match s with
  | EmptyString => Some acc
  | String c rest =>
      let n := Z.of_N (N_of_ascii c) in
      if (48 <=? n) && (n <=? 57) then decValue (acc * 10 + (n - 48)) rest
      else None
  end.

(** [strconv.Atoi(s)]: an optional sign and a non-empty sequence of decimal
    digits whose value is an [int]; [None] for an error. *)
Definition Atoi (s : string) : option Z :=
  let '(neg, digits) :=
    match s with
    | String "-"%char rest => (true, rest)
    | String "+"%char rest => (false, rest)
    | _ => (false, s)
    end in
  if decide (digits = EmptyString) then None
  else match decValue 0 digits with
       | Some n =>
           let v := if neg : bool then - n else n in
           if (- 2 ^ 63 <=? v) && (v <=? int_max) then Some v else None
       | None => None
       end.

(** The float64 constant [1_000_000]. *)
Definition million : spec_float := S754_finite false 8589934592000000 (-33).

Section Reading.
(** [strings.TrimSpace], [strings.ToLower] and [strconv.ParseFloat(s, 64)]
    work on Unicode text and on decimal floating-point notation; they are
    taken as they are, [None] standing for an error of [ParseFloat]. *)
Variable TrimSpace : string -> string.
Variable ToLower : string -> string.
Variable ParseFloat : string -> option spec_float.

(** "Parse Data bytes (D1-D8)": the loop
    [for i := 0; i < 8 && i < length; i++], entered with [i] and with
    [8 - i] as [remaining]. *)
Fixpoint csvData (fields : list string) (length : Z) (remaining : nat)
    (i : Z) (data : list byte) : Result (list byte) :=
  match remaining with
  | O => Returned data
  | S remaining' =>
      if i <? length then
        field ← indexField fields (6 + i);
        let hexStr := TrimSpace field in
        if bool_decide (hexStr = "")
           || (bool_decide (hexStr = "00") && (length <=? i))
        then csvData fields length remaining' (i + 1) data
        else match parseUint16_8 hexStr with
             | None => csvData fields length remaining' (i + 1) data
             | Some b => csvData fields length remaining' (i + 1) (data ++ [b])
             end
      else Returned data
  end.

(** parseCSVLine parses a CSV line in the format:
    Time Stamp,ID,Extended,Dir,Bus,LEN,D1,D2,D3,D4,D5,D6,D7,D8 *)
Definition parseCSVLine (fields : list string) : Result CANFrame :=
  if len fields <? 14 then Failed
  else
    timestamp ← indexField fields 0;
    id ← indexField fields 1;
    extended ← indexField fields 2;
    direction ← indexField fields 3;
    busField ← indexField fields 4;
    let bus := default 0 (Atoi busField) in
    lengthField ← indexField fields 5;
    match Atoi lengthField with
    | None => Failed
    | Some length =>
        data ← csvData fields length 8 0 [];
        Returned {| Timestamp := timestamp; ID := id;
                    IsExtended := bool_decide (ToLower extended = "true");
                    Direction := direction; Bus := bus; Length := length;
                    Data := data |}
    end.

(** [if idx := strings.LastIndex(idPart, sep); idx != -1
     { idPart = idPart[idx+1:] }] *)
Definition cutAfterLast (idPart : string) (sep : ascii) : Result string :=
  let idx := stringsLastIndex idPart sep in
  if idx =? -1 then Returned idPart else sliceFrom idPart (idx + 1).

(** parseCandumpLine extracts CAN ID and payload from candump format.
    Format: (timestamp) interface ID#PAYLOAD *)
Definition parseCandumpLine (line : string) : Result CANFrame :=
  let idxHash := stringsIndex line "#" in
  if idxHash =? -1 then Failed
  else
    idPart ← sliceTo line idxHash;
    let idPart := TrimSpace idPart in
    idPart ← cutAfterLast idPart ")";
    let idPart := TrimSpace idPart in
    idPart ← cutAfterLast idPart " ";
    let canID := TrimSpace idPart in
    payloadHex ← sliceFrom line (idxHash + 1);
    let payloadHex := stringsRemove payloadHex " " in
    match hexDecodeString payloadHex with
    | None => Failed
    | Some payload => Returned (candumpFrame canID payload)
    end.

(** "Parse timestamp": zero unless the field is a number; the time stamps
    of a CSV capture are microseconds. *)
Definition timestampOf (isCSV : bool) (frame : CANFrame) : spec_float :=
  if decide (Timestamp frame = "") then S754_zero false
  else match ParseFloat (Timestamp frame) with
       | Some ts => if isCSV then SFdiv 53 1024 ts million else ts
       | None => S754_zero false
       end.

(** The variables of the loop of [processFile]. *)
Record Scan := mkScan {
  isCSV : bool;
  lineNum : Z;
  sequenceNum : Z;
  allFrames : list FrameInfo
}.

(** One round of the loop of [processFile], for one line of the file. *)
Definition scanLine (st : Scan) (line : string) : Result Scan :=
  let lineNum1 := int_incr (lineNum st) in
  let continue (isCSV' : bool) :=
    Returned {| isCSV := isCSV'; lineNum := lineNum1;
                sequenceNum := sequenceNum st; allFrames := allFrames st |} in
  if decide (TrimSpace line = "") then continue (isCSV st)
  else if (lineNum1 =? 1)
          && (stringsContains line "Time Stamp"
              || stringsContains line "ID,Extended")
  then continue true
  else
    let isCSV1 :=
      if (lineNum1 =? 1) && stringsContains line "#" then false
      else isCSV st in
    let asCSV :=
      isCSV1 || (stringsContains line "," && negb (stringsContains line "#")) in
    let isCSV2 := if asCSV then true else isCSV1 in
    match (if asCSV then parseCSVLine (stringsSplit line ",")
           else parseCandumpLine line) with
    | Panicked => Panicked
    | Failed => continue isCSV2
    | Returned frame =>
        let sequenceNum1 := int_incr (sequenceNum st) in
        match classifyFrame frame (timestampOf isCSV2 frame) sequenceNum1 with
        | None => continue isCSV2
        | Some info =>
            Returned {| isCSV := isCSV2; lineNum := lineNum1;
                        sequenceNum := sequenceNum1;
                        allFrames := allFrames st ++ [info] |}
        end
    end.

Fixpoint scanLines (st : Scan) (lines : list string) : Result Scan :=
  match lines with
  | [] => Returned st
  | line :: rest => st1 ← scanLine st line; scanLines st1 rest
  end.

(** processFile reads a file and returns all frame info.  [file] is [None]
    when the file cannot be opened, otherwise the lines that the scanner
    yields. *)
Definition processFile (file : option (list string)) : Result (list FrameInfo) :=
  match file with
  | None => Returned []
  | Some lines =>
      st ← scanLines {| isCSV := false; lineNum := 0; sequenceNum := 0;
                         allFrames := [] |} lines;
      Returned (allFrames st)
  end.


End Reading.

(** ** The timestamp of a line ([parseTimestamp]) *)

(** [s[lo:hi]] *)
Definition sliceRange (s : string) (lo hi : Z) : Result string :=
  if (lo <? 0) || (hi <? lo) || (strLen s <? hi) then Panicked
  else Returned (stringTake (Z.to_nat (hi - lo)) (stringDrop (Z.to_nat lo) s)).

Section Timestamp.
Variable TrimSpace : string -> string.
Variable ParseFloat : string -> option spec_float.

(** [return strconv.ParseFloat(s, 64)] *)
Definition returnParseFloat (s : string) : Result spec_float :=
  match ParseFloat s with
  | Some ts => Returned ts
  | None => Failed
  end.

(** parseTimestamp extracts the numeric timestamp from a line *)
Definition parseTimestamp (line : string) (isCSV : bool) : Result spec_float :=
  if isCSV then
    let fields := stringsSplit line "," in
    if 0 <? len fields then
      field ← indexField fields 0;
      returnParseFloat (TrimSpace field)
    else Failed
  else
    let start := stringsIndex line "(" in
    let end_ := stringsIndex line ")" in
    if negb (start =? -1) && negb (end_ =? -1) && (start <? end_) then
      tsStr ← sliceRange line (start + 1) end_;
      returnParseFloat tsStr
    else Failed.
End Timestamp.

(** ** Printing a decoded item ([decodeAndPrint]) *)

(** The decoded item, by the cases of the type switch.  The entries of a
    map stand in the order in which the loop over the map visits them. *)
#[warnings="-register-all"] Inductive Value :=
  | VBytes (v : list byte)              (* []uint8 *)
  | VText (v : string)                  (* string *)
  | VArray (v : list Value)             (* []interface{} *)
  | VMap (v : list (Value * Value))     (* map[interface{}]interface{} *)
  | VUint (v : Z)                       (* uint64 *)
  | VInt (v : Z)                        (* int64 *)
  | VBool (v : bool)                    (* bool *)
  | VNil                                (* nil *)
  | VOther.                             (* default *)

(** The lines of [decodeAndPrint], one constructor per [fmt.Printf], with
    the values that are formatted. *)
Inductive Line :=
  | TypeByteString (nbytes : Z) | HexLine (v : list byte)
  | AsciiLine (ascii : list byte) | NonceHint
  | TypeTextString (nchars : Z) | TextValue (v : string)
  | BinaryWarning | RawHexLine (v : list byte)
  | TypeArray (length : Z) | ArrayIndex (i : Z)
  | TypeMap (entries : Z) | MapKey (k : Value) | MapValue
  | TypeUnsigned | UnsignedValue (v : Z)
  | TypeSigned | SignedValue (v : Z)
  | TypeBoolean | BooleanValue (v : bool)
  | TypeNull
  | TypeOther | OtherValue.

(** [b >= 32 && b < 127] *)
Definition isPrintable (b : byte) : bool :=
  (32 <=? Byte.to_N b)%N && (Byte.to_N b <? 127)%N.

(** "ASCII interpretation" *)
Definition asciiOf (v : list byte) : list byte :=
  (fun b => if isPrintable b then b else "."%byte) <$> v.

(** "Check for binary data disguised as text": the loop ranges over the
    runes of the text; a rune is below 32 or above 126 exactly when it is
    such a byte or takes a byte above 126 to encode. *)
Definition hasBinary (v : string) : bool :=
  existsb (fun b => (Byte.to_N b <? 32)%N || (126 <? Byte.to_N b)%N)
    (list_byte_of_string v).

(** The loop over the elements of an array, entered with the index [i]:
    the line "[i]:" and what [print] prints for the element. *)
Fixpoint arrayLines (print : Value -> list (nat * Line)) (spaces : nat)
    (i : Z) (elems : list Value) : list (nat * Line) :=
  match elems with
  | [] => []
  | elem :: rest =>
      (spaces, ArrayIndex i)
      :: print elem ++ arrayLines print spaces (i + 1) rest
  end.

(** The loop over the entries of a map: the lines "Key: ..." and "Value:"
    and what [print] prints for the value. *)
Fixpoint mapLines (print : Value -> list (nat * Line)) (spaces : nat)
    (entries : list (Value * Value)) : list (nat * Line) :=
  match entries with
  | [] => []
  | (k, val) :: rest =>
      (spaces, MapKey k) :: (spaces, MapValue)
      :: print val ++ mapLines print spaces rest
  end.

(** decodeAndPrint recursively prints CBOR structures with indentation:
    the lines printed, each with the number of spaces that it starts
    with.  [indent] is not negative in any call. *)
Fixpoint decodeAndPrint (item : Value) (indent : nat) : list (nat * Line) :=
  let prefix := (2 * indent)%nat in
  match item with
  | VBytes v =>
      [(prefix, TypeByteString (len v)); (prefix, HexLine v);
       (prefix, AsciiLine (asciiOf v))]
      ++ (if decide (len v = 9) then [(prefix, NonceHint)] else [])
  | VText v =>
      [(prefix, TypeTextString (strLen v)); (prefix, TextValue v)]
      ++ (if hasBinary v
          then [(prefix, BinaryWarning);
                (prefix, RawHexLine (list_byte_of_string v))]
          else [])
  | VArray v =>
      (prefix, TypeArray (len v))
      :: arrayLines (fun elem => decodeAndPrint elem (indent + 2))
           (prefix + 2) 0 v
  | VMap v =>
      (prefix, TypeMap (len v))
      :: mapLines (fun val => decodeAndPrint val (indent + 2))
           (prefix + 2) v
  | VUint v => [(prefix, TypeUnsigned); (prefix, UnsignedValue v)]
  | VInt v => [(prefix, TypeSigned); (prefix, SignedValue v)]
  | VBool v => [(prefix, TypeBoolean); (prefix, BooleanValue v)]
  | VNil => [(prefix, TypeNull)]
  | VOther => [(prefix, TypeOther); (prefix, OtherValue)]
  end.

(** ** Vocabulary of the counting properties *)

(** The frame carries data: it passes the guard [len(frame.Data) == 0]. *)
Definition hasData (frame : CANFrame) : bool :=
  match Data frame with [] => false | _ => true end.

(** The frame takes one of the two branches that feed the buffer. *)
Definition isFraming (frame : CANFrame) : bool :=
  frameIsStart frame || frameIsContinuation frame.

(** The frame is classified as a heartbeat. *)
Definition isHeartbeatFrame (frame : CANFrame) : bool :=
  bool_decide (classify frame = Some "HEARTBEAT").

(** The number of unaccounted frames of [frames] whose pattern is stored
    under the key [k]. *)
Definition occurrencesOf (k : string) (frames : list FrameInfo) : Z :=
  len (filter (fun f => isUnaccounted f = true /\ frameKey f = k) frames).

(** The count that the pattern map [m] holds for the key [k] and the file
    [fn], if any. *)
Definition occurrenceIn (m : gmap string UnaccountedFrame) (k fn : string)
  : option Z :=
  m !! k ≫= fun p => Occurrences p !! fn.

(** The observation is counted under the key [k] for the file [fn]. *)
Definition countsFor (k fn : string) (o : string * FrameInfo) : Prop :=
  frameKey o.2 = k /\ o.1 = fn.

Global Instance countsFor_dec k fn o : Decision (countsFor k fn o) :=
  decide (frameKey o.2 = k /\ o.1 = fn).

(** ** Vocabulary of the reading properties *)

(** The part of [s] before the first [c], and the part after it. *)
Fixpoint beforeFirst (c : ascii) (s : string) : string :=
  match s with
  | EmptyString => EmptyString
  | String a rest =>
      if decide (a = c) then EmptyString else String a (beforeFirst c rest)
  end.

Fixpoint afterFirst (c : ascii) (s : string) : string :=
  match s with
  | EmptyString => EmptyString
  | String a rest => if decide (a = c) then rest else afterFirst c rest
  end.

(** The part of [s] after the last [c]; [s] itself when there is none. *)
Fixpoint afterLast (c : ascii) (s : string) : string :=
  match s with
  | EmptyString => EmptyString
  | String a rest =>
      if occursIn c rest then afterLast c rest
      else if decide (a = c) then rest else s
  end.

(** The number of bytes [c] in [s]. *)
Fixpoint countByte (c : ascii) (s : string) : nat :=
  match s with
  | EmptyString => 0%nat
  | String a rest =>
      if decide (a = c) then S (countByte c rest) else countByte c rest
  end.

(** A graphic ASCII character: printable and not the space. *)
Definition isGraphic (c : ascii) : bool :=
  let n := N_of_ascii c in (33 <=? n)%N && (n <=? 126)%N.

Fixpoint allGraphic (s : string) : bool :=
  match s with
  | EmptyString => true
  | String c rest => isGraphic c && allGraphic rest
  end.

Fixpoint noGraphic (s : string) : bool :=
  match s with
  | EmptyString => true
  | String c rest => negb (isGraphic c) && noGraphic rest
  end.

(** What the properties use of [strings.TrimSpace]: it returns the string
    without a prefix and a suffix, and what it removes is white space, so
    that no graphic ASCII character is removed. *)
Definition TrimsSpace (TrimSpace : string -> string) : Prop :=
  forall s, exists pre post,
    s = pre +:+ TrimSpace s +:+ post /\
    noGraphic pre = true /\ noGraphic post = true.

(** The text before the identifier of a candump line ends a field: it is
    empty or ends with a space or a closing parenthesis. *)
Fixpoint endsField (s : string) : bool :=
  match s with
  | EmptyString => true
  | String c EmptyString =>
      bool_decide (c = " "%char) || bool_decide (c = ")"%char)
  | String _ rest => endsField rest
  end.

(** The string is a sequence of hexadecimal digits. *)
Fixpoint allHex (s : string) : bool :=
  match s with
  | EmptyString => true
  | String c rest =>
      match fromHexChar c with Some _ => allHex rest | None => false end
  end.

(** The identifier that [parseCandumpLine] extracts from the text before
    the first '#'. *)
Definition canIDOf (TrimSpace : string -> string) (idText : string) : string :=
  TrimSpace (afterLast " " (TrimSpace (afterLast ")" (TrimSpace idText)))).

(** An instance of the string functions on which the readers can be run:
    [strings.TrimSpace] and [strings.ToLower] as they act on ASCII text,
    and [strconv.ParseFloat] on the decimal integers below 2^53, which a
    float64 holds exactly. *)
Module AsciiText.
Definition isSpace (c : ascii) : bool :=
  let n := N_of_ascii c in ((9 <=? n)%N && (n <=? 13)%N) || (n =? 32)%N.

Fixpoint trimLeft (s : string) : string :=
  match s with
  | EmptyString => EmptyString
  | String c rest => if isSpace c then trimLeft rest else s
  end.

Fixpoint trimRight (s : string) : string :=
  match s with
  | EmptyString => EmptyString
  | String c rest =>
      match trimRight rest with
      | EmptyString => if isSpace c then EmptyString else String c EmptyString
      | kept => String c kept
      end
  end.

Definition TrimSpace (s : string) : string := trimRight (trimLeft s).

Definition lower (c : ascii) : ascii :=
  let n := N_of_ascii c in
  if (65 <=? n)%N && (n <=? 90)%N then ascii_of_N (n + 32) else c.

Fixpoint ToLower (s : string) : string :=
  match s with
  | EmptyString => EmptyString
  | String c rest => String (lower c) (ToLower rest)
  end.

Definition ParseFloat (s : string) : option spec_float :=
  if decide (s = EmptyString) then None
  else match decValue 0 s with
       | Some n =>
           if n <? 2 ^ 53 then Some (binary_normalize 53 1024 n 0 false)
           else None
       | None => None
       end.
End AsciiText.

(** The data bytes of a CSV row whose LEN column reads [length]: of the
    first [min(8, length)] data columns, those that hold a byte, in column
    order. *)
Definition csvBytes (TrimSpace : string -> string) (length : Z)
    (fields : list string) : list byte :=
  omap (fun field => parseUint16_8 (TrimSpace field))
    (take (Z.to_nat (Z.min 8 length)) (drop 6 fields)).

(** The record is the classification of its own frame: [classifyFrame]
    returns it for the frame, the timestamp and the sequence number that it
    carries. *)
Definition isClassified (info : FrameInfo) : Prop :=
  classifyFrame (Frame info) (TimestampFloat info) (SequenceNum info)
  = Some info.

(** The state in which [processFile] enters its loop. *)
Definition scanStart : Scan :=
  {| isCSV := false; lineNum := 0; sequenceNum := 0; allFrames := [] |}.

(** ** Vocabulary of the printing properties *)

(** The line names the type of a value: the first line printed for it. *)
Definition isTypeLine (l : Line) : bool :=
  match l with
  | TypeByteString _ | TypeTextString _ | TypeArray _ | TypeMap _
  | TypeUnsigned | TypeSigned | TypeBoolean | TypeNull | TypeOther => true
  | _ => false
  end.

(** The number of values that [decodeAndPrint] visits in an item: the item,
    the elements of its arrays and the values of its maps, at any depth. *)
Fixpoint valuesIn (item : Value) : nat :=
  match item with
  | VArray v => S (list_sum (map valuesIn v))
  | VMap v => S (list_sum (map (fun entry => valuesIn (snd entry)) v))
  | _ => 1
  end%nat.

(** * Properties *)

(** ** Heartbeat detection and classification *)

Lemma allZero_Forall (data : list byte) :
  allZero data = true <-> Forall (fun b => b = x00) data.
Proof.
  induction data as [|b rest IH]; simpl.
  - split; [constructor | reflexivity].
  - destruct (decide (b = x00)) as [->|Hb].
    + rewrite IH. split; [by constructor | by inversion 1].
    + split; [discriminate | inversion 1; contradiction].
Qed.

Lemma allZero_insert_nonzero (data : list byte) (i : nat) (v : byte) :
  (i < length data)%nat -> v <> x00 -> allZero (<[i:=v]> data) = false.
Proof.
  revert i. induction data as [|b rest IH]; intros i Hi Hv; simpl in *; [lia|].
  destruct i as [|i]; simpl.
  - by destruct (decide (v = x00)).
  - destruct (decide (b = x00)); [apply IH; [lia | done] | done].
Qed.

Lemma isStartHeader_spec (header : byte) :
  isStartHeader header = true <-> byte_and header 0xF0 = 0xA0%N.
Proof. unfold isStartHeader. apply N.eqb_eq. Qed.

Lemma isContinuationHeader_spec (header : byte) :
  isContinuationHeader header = true <-> byte_and header 0xF0 = 0x10%N.
Proof. unfold isContinuationHeader. apply N.eqb_eq. Qed.

Lemma checkIfHeartbeat_spec (frame : CANFrame) :
  checkIfHeartbeat frame = true <->
  String.prefix "01111" (ID frame) = true /\
  Forall (fun b => b = x00) (Data frame).
Proof.
  unfold checkIfHeartbeat. rewrite <- allZero_Forall.
  destruct (String.prefix "01111" (ID frame)); simpl; intuition congruence.
Qed.

(** The frame type computed by the classifier, as a function of the three
    tests. *)
Lemma classify_unfold (frame : CANFrame) (header : byte) (payload : list byte) :
  Data frame = header :: payload ->
  classify frame =
    Some (if isStartHeader header then "START"
          else if isContinuationHeader header then "CONT"
          else if checkIfHeartbeat frame then "HEARTBEAT" else "UNACCOUNTED").
Proof.
  intros HD. unfold classify, classifyFrame. rewrite HD.
  destruct (isStartHeader header); [done|].
  destruct (isContinuationHeader header); [done|].
  by destruct (checkIfHeartbeat frame).
Qed.

(** C3.  For a frame with a non-empty payload the classifier answers START
    iff the high nibble of the header byte is 0xA, otherwise CONT iff it is
    0x1, otherwise HEARTBEAT iff the identifier starts with "01111" and all
    payload bytes are zero, otherwise UNACCOUNTED; and overwriting one payload
    byte of a heartbeat frame with a non-zero value, which at position 0 does
    not carry a START or CONT nibble, gives an UNACCOUNTED frame. *)
Theorem classify_rule (frame : CANFrame) (header : byte) (payload : list byte) :
  Data frame = header :: payload ->
  let start := byte_and header 0xF0 = 0xA0%N in
  let cont := byte_and header 0xF0 = 0x10%N in
  let heartbeat :=
    String.prefix "01111" (ID frame) = true /\
    Forall (fun b => b = x00) (Data frame) in
  (classify frame = Some "START" <-> start) /\
  (classify frame = Some "CONT" <-> ~ start /\ cont) /\
  (classify frame = Some "HEARTBEAT" <-> ~ start /\ ~ cont /\ heartbeat) /\
  (classify frame = Some "UNACCOUNTED" <-> ~ start /\ ~ cont /\ ~ heartbeat) /\
  (forall (i : nat) (v : byte),
      classify frame = Some "HEARTBEAT" ->
      (i < length (Data frame))%nat ->
      v <> x00 ->
      (i = 0%nat ->
       byte_and v 0xF0 <> 0xA0%N /\ byte_and v 0xF0 <> 0x10%N) ->
      classify (withData frame (<[i:=v]> (Data frame))) = Some "UNACCOUNTED").
Proof.
  intros HD start cont heartbeat.
  assert (Hclass := classify_unfold frame header payload HD).
  assert (Hs := isStartHeader_spec header).
  assert (Hc := isContinuationHeader_spec header).
  assert (Hh := checkIfHeartbeat_spec frame).
  assert (Hrule :
    (classify frame = Some "START" <-> start) /\
    (classify frame = Some "CONT" <-> ~ start /\ cont) /\
    (classify frame = Some "HEARTBEAT" <-> ~ start /\ ~ cont /\ heartbeat) /\
    (classify frame = Some "UNACCOUNTED" <-> ~ start /\ ~ cont /\ ~ heartbeat)).
  { rewrite Hclass. subst start cont heartbeat.
    destruct (isStartHeader header).
    { repeat split; intros; try discriminate; tauto. }
    destruct (isContinuationHeader header).
    { assert (byte_and header 240 <> 160%N).
      { intros E. apply Hs in E. discriminate. }
      repeat split; intros; try discriminate; try tauto. }
    assert (byte_and header 240 <> 160%N).
    { intros E. apply Hs in E. discriminate. }
    assert (byte_and header 240 <> 16%N).
    { intros E. apply Hc in E. discriminate. }
    destruct (checkIfHeartbeat frame).
    - repeat split; intros; try discriminate; try tauto.
    - assert (~ (String.prefix "01111" (ID frame) = true /\
                 Forall (fun b => b = x00) (Data frame))).
      { intros E. apply Hh in E. discriminate. }
      repeat split; intros; try discriminate; try tauto. }
  destruct Hrule as (R1 & R2 & R3 & R4).
  repeat split; try tauto.
  intros i v Hhb Hi Hv H0.
  apply R3 in Hhb as (_ & _ & Hpre & Hzero).
  rewrite HD in Hi, Hzero |- *.
  assert (Hnothb : checkIfHeartbeat
            (withData frame (<[i:=v]> (header :: payload))) = false).
  { unfold checkIfHeartbeat. simpl. rewrite Hpre. simpl.
    by apply allZero_insert_nonzero. }
  destruct i as [|i].
  - destruct (H0 eq_refl) as [Hv1 Hv2].
    rewrite (classify_unfold _ v payload) by done.
    destruct (isStartHeader v) eqn:E1.
    { apply isStartHeader_spec in E1. contradiction. }
    destruct (isContinuationHeader v) eqn:E2.
    { apply isContinuationHeader_spec in E2. contradiction. }
    by rewrite Hnothb.
  - rewrite (classify_unfold _ header (<[i:=v]> payload)) by done.
    inversion Hzero as [|? ? Hh0 _]; subst header.
    by rewrite Hnothb.
Qed.

Lemma classify_rule_witness :
  let frame := mkCANFrame "" "0111100000" true "Rx" 0 3 [x00; x00; x00] in
  classify frame = Some "HEARTBEAT" /\
  classify (withData frame (<[1%nat:=x07]> (Data frame))) = Some "UNACCOUNTED".
Proof.
  intros frame.
  destruct (classify_rule frame x00 [x00; x00] eq_refl) as (_ & _ & _ & _ & H).
  split; [reflexivity|].
  apply H; [reflexivity | simpl; lia | discriminate | discriminate].
Defined.

(** C10.  The heartbeat answer of [analyzeRawFrame] is the answer of
    [checkIfHeartbeat], for every frame and either verbosity: the two
    identifiers tested by equality do not start with "01111". *)
Theorem analyzeRawFrame_checkIfHeartbeat
    (Item : Type) (frame : CANFrame) (verbose : bool) :
  fst (@analyzeRawFrame Item frame verbose) = checkIfHeartbeat frame.
Proof.
  unfold analyzeRawFrame, checkIfHeartbeat.
  destruct (decide (ID frame = "14609460")) as [E|_].
  { rewrite E. simpl. by destruct (Data frame) as [|? [|? [|? [|? ?]]]]. }
  destruct (String.prefix "01111" (ID frame)) eqn:Hp; simpl.
  { by destruct (allZero (Data frame)). }
  destruct (decide (ID frame = "18209820")); [|done].
  by destruct (Data frame).
Qed.

(** ** The reassembly loop *)

Section MainLoopFacts.
Context {Item : Type}.
Variable decode : list byte -> DecodeResult Item.

Lemma continuation_not_start (header : byte) :
  isContinuationHeader header = true -> isStartHeader header = false.
Proof.
  unfold isContinuationHeader, isStartHeader.
  intros H. apply N.eqb_eq in H. by rewrite H.
Qed.

Lemma frameIsStart_inv (frame : CANFrame) :
  frameIsStart frame = true ->
  exists header, Data frame = header :: stripHeader frame /\
                 isStartHeader header = true.
Proof.
  unfold frameIsStart, stripHeader.
  destruct (Data frame) as [|header payload]; [done|].
  intros H. by exists header.
Qed.

Lemma frameIsContinuation_inv (frame : CANFrame) :
  frameIsContinuation frame = true ->
  exists header, Data frame = header :: stripHeader frame /\
                 isStartHeader header = false /\
                 isContinuationHeader header = true.
Proof.
  unfold frameIsContinuation, stripHeader.
  destruct (Data frame) as [|header payload]; [done|].
  intros [H1 H2]%andb_prop. exists header.
  by apply negb_true_iff in H1.
Qed.

Lemma frameIsContinuation_not_start (frame : CANFrame) :
  frameIsContinuation frame = true -> frameIsStart frame = false.
Proof.
  intros (header & HD & Hs & _)%frameIsContinuation_inv.
  unfold frameIsStart. by rewrite HD.
Qed.

(** A failed decode attempt, or none, leaves the state alone and prints
    nothing. *)
Lemma tryDecode_failed (st : Reassembly) :
  (cborBuffer st = [] \/ exists err, decode (cborBuffer st) = DecodeFailed err) ->
  tryDecode decode st = (st, []).
Proof.
  unfold tryDecode. intros [E|[err E]]; rewrite E; [done|].
  by destruct (0 <? len (cborBuffer st)).
Qed.

Lemma groupedDecode_failed (st : Reassembly) (isCBOR : bool) :
  (cborBuffer st = [] \/ exists err, decode (cborBuffer st) = DecodeFailed err) ->
  groupedDecode decode st isCBOR = st.
Proof.
  unfold groupedDecode. intros [E|[err E]]; rewrite E.
  - by rewrite andb_false_r.
  - by destruct (isCBOR && (0 <? len (cborBuffer st))).
Qed.

Lemma len_pos_iff {A} (l : list A) : (0 <? len l) = true <-> l <> [].
Proof.
  unfold len. destruct l; simpl; [|split; [done | intros _; by apply Z.ltb_lt; lia]].
  split; [done | congruence].
Qed.

(** An iteration whose decode attempt fails, in either mode. *)
Lemma processFrame_decode_failed
    (fl : Flags) (st : Reassembly) (frame : CANFrame) (err : DecodeError) :
  frameIsStart frame = true \/ frameIsContinuation frame = true ->
  decode (absorbedBuffer st frame) = DecodeFailed err ->
  exists st' out,
    processFrame decode fl st frame = (st', out) /\
    cborBuffer st' = absorbedBuffer st frame /\
    cborMessageCount st' = cborMessageCount st /\
    out = (if groupByID fl then [] else absorbOutput fl st frame) /\
    Forall (fun o => isComplete o = false) out.
Proof.
  intros Hkind Hfail.
  unfold processFrame, absorbedBuffer, absorbOutput in *.
  destruct Hkind as [Hk|Hk].
  - rewrite Hk in Hfail |- *.
    apply frameIsStart_inv in Hk as (header & HD & Hs).
    rewrite HD. destruct (groupByID fl).
    + unfold groupedStep, groupedAbsorb. rewrite Hs. simpl.
      rewrite groupedDecode_failed by (right; eauto).
      eexists _, _. split; [reflexivity|]. simpl. by repeat split.
    + unfold framingStep. rewrite Hs. simpl.
      rewrite tryDecode_failed by (right; eauto).
      eexists _, _. split; [reflexivity|]. simpl.
      repeat split; try done; [by rewrite app_nil_r|].
      rewrite app_nil_r. unfold printAccountedHeader.
      destruct (negb _ && negb _), (0 <? _); by repeat constructor.
  - rewrite (frameIsContinuation_not_start _ Hk) in Hfail |- *.
    apply frameIsContinuation_inv in Hk as (header & HD & Hs & Hc).
    rewrite HD. destruct (groupByID fl).
    + unfold groupedStep, groupedAbsorb. rewrite Hs, Hc. simpl.
      rewrite groupedDecode_failed by (right; eauto).
      eexists _, _. split; [reflexivity|]. simpl. by repeat split.
    + unfold framingStep. rewrite Hs, Hc. simpl.
      rewrite tryDecode_failed by (right; eauto).
      eexists _, _. split; [reflexivity|]. simpl.
      repeat split; try done; [by rewrite app_nil_r|].
      rewrite app_nil_r. unfold printAccountedHeader.
      destruct (negb _ && negb _); by repeat constructor.
Qed.

(** C4.  For a START or continuation frame whose decode attempt fails, in
    either mode: the buffer after the iteration is the accumulated buffer
    that was handed to the codec, byte for byte; no message is counted;
    nothing is printed beyond what absorbing the frame prints (nothing at
    all in group-by-ID mode), in particular no decoded message; and the
    loop goes on with the next frame. *)
Theorem decode_failure_retains_buffer
    (fl : Flags) (st : Reassembly) (frame : CANFrame) (err : DecodeError)
    (rest : list CANFrame) :
  frameIsStart frame = true \/ frameIsContinuation frame = true ->
  decode (absorbedBuffer st frame) = DecodeFailed err ->
  exists st' out,
    processFrame decode fl st frame = (st', out) /\
    cborBuffer st' = absorbedBuffer st frame /\
    cborMessageCount st' = cborMessageCount st /\
    out = (if groupByID fl then [] else absorbOutput fl st frame) /\
    Forall (fun o => isComplete o = false) out /\
    mainLoop decode fl st (frame :: rest) =
      (fst (mainLoop decode fl st' rest),
       out ++ snd (mainLoop decode fl st' rest)).
Proof.
  intros Hkind Hfail.
  destruct (processFrame_decode_failed fl st frame err Hkind Hfail)
    as (st' & out & Hstep & H1 & H2 & H3 & H4).
  exists st', out. repeat split; try done.
  simpl. rewrite Hstep. by destruct (mainLoop decode fl st' rest).
Qed.

(** An orphan or ordinary continuation, outside group-by-ID mode. *)
Lemma processFrame_continuation
    (fl : Flags) (st : Reassembly) (frame : CANFrame)
    (header : byte) (payload : list byte) :
  Data frame = header :: payload ->
  isContinuationHeader header = true ->
  groupByID fl = false ->
  let st1 := fst (absorbContinuation (Item:=Item) fl (countFrame st)
                    frame header payload) in
  processFrame decode fl st frame =
    (fst (tryDecode decode st1),
     (printAccountedHeader fl frame header "CONT"
      ++ [PrintAppended (int_incr (frameCount st))
            (cborBuffer st ++ payload) (len (cborBuffer st ++ payload))])
     ++ snd (tryDecode decode st1)).
Proof.
  intros HD Hc Hg st1. unfold processFrame. rewrite HD, Hg.
  unfold framingStep. rewrite (continuation_not_start _ Hc), Hc.
  subst st1. simpl. by destruct (tryDecode decode _).
Qed.

Lemma processFrame_start
    (fl : Flags) (st : Reassembly) (frame : CANFrame)
    (header : byte) (payload : list byte) :
  Data frame = header :: payload ->
  isStartHeader header = true ->
  groupByID fl = false ->
  let st1 := fst (absorbStart (Item:=Item) fl (countFrame st)
                    frame header payload) in
  processFrame decode fl st frame =
    (fst (tryDecode decode st1),
     snd (absorbStart fl st frame header payload)
     ++ snd (tryDecode decode st1)).
Proof.
  intros HD Hs Hg st1. unfold processFrame. rewrite HD, Hg.
  unfold framingStep. rewrite Hs.
  subst st1. simpl. by destruct (tryDecode decode _).
Qed.

Lemma tryDecode_no_warning (st : Reassembly) :
  Forall (fun o => isWarning o = false) (snd (tryDecode decode st)).
Proof.
  unfold tryDecode. destruct (0 <? len (cborBuffer st)); [|constructor].
  destruct (decode (cborBuffer st)); simpl; by repeat constructor.
Qed.

Lemma printAccountedHeader_no_warning
    (fl : Flags) (frame : CANFrame) (header : byte) (frameType : string) :
  Forall (fun o : Output Item => isWarning o = false)
    (printAccountedHeader fl frame header frameType).
Proof.
  unfold printAccountedHeader.
  destruct (negb _ && negb _); by repeat constructor.
Qed.

(** C6, as the code has it.  A continuation frame that arrives while the
    buffer is empty is absorbed like any other: its payload without the
    header byte becomes the buffer that the decode attempt sees, the frame
    count is incremented, the CAN identifier is left as it was; outside
    group-by-ID mode the iteration prints the frame header (if shown),
    the "frame appended" line and what the decode attempt prints, in
    group-by-ID mode nothing; no warning is printed in either mode. *)
Theorem orphan_continuation_absorbed
    (fl : Flags) (st : Reassembly) (frame : CANFrame)
    (header : byte) (payload : list byte) :
  Data frame = header :: payload ->
  isContinuationHeader header = true ->
  cborBuffer st = [] ->
  exists st1,
    cborBuffer st1 = payload /\
    frameCount st1 = int_incr (frameCount st) /\
    lastCanID st1 = lastCanID st /\
    processFrame decode fl st frame =
      (if groupByID fl
       then (groupedDecode decode st1 true, [])
       else (fst (tryDecode decode st1),
             (printAccountedHeader fl frame header "CONT"
              ++ [PrintAppended (int_incr (frameCount st)) payload
                    (len payload)])
             ++ snd (tryDecode decode st1))) /\
    Forall (fun o => isWarning o = false)
      (snd (processFrame decode fl st frame)).
Proof.
  intros HD Hc Hempty.
  exists (fst (absorbContinuation (Item:=Item) fl (countFrame st)
                 frame header payload)).
  simpl. rewrite Hempty. simpl.
  destruct (groupByID fl) eqn:Hg.
  - assert (processFrame decode fl st frame =
            (groupedDecode decode
               (fst (absorbContinuation (Item:=Item) fl (countFrame st)
                       frame header payload)) true, [])) as Hstep.
    { unfold processFrame. rewrite HD, Hg.
      unfold groupedStep, groupedAbsorb.
      rewrite (continuation_not_start _ Hc), Hc. simpl.
      rewrite Hempty. simpl.
      by destruct (groupedDecode decode _ true). }
    simpl in Hstep. rewrite Hempty in Hstep. simpl in Hstep.
    rewrite Hstep. repeat split; constructor.
  - pose proof (processFrame_continuation fl st frame header payload
                  HD Hc Hg) as Hstep.
    simpl in Hstep. rewrite Hempty in Hstep. simpl in Hstep.
    rewrite Hstep. repeat split. simpl.
    rewrite !Forall_app. repeat split.
    + apply printAccountedHeader_no_warning.
    + by repeat constructor.
    + apply tryDecode_no_warning.
Qed.

(** C2, as the code has it.  A START frame that arrives while the buffer
    is non-empty replaces the buffer by its payload without the header
    byte, sets the frame count to 1 and takes over the CAN identifier;
    that buffer is what the decode attempt of the iteration sees.  Outside
    group-by-ID mode the discard is reported once, with the length and the
    bytes of the prior buffer; in group-by-ID mode nothing is printed. *)
Theorem start_discards_buffer
    (fl : Flags) (st : Reassembly) (frame : CANFrame)
    (header : byte) (payload : list byte) :
  Data frame = header :: payload ->
  isStartHeader header = true ->
  cborBuffer st <> [] ->
  exists st1,
    cborBuffer st1 = payload /\
    frameCount st1 = 1 /\
    lastCanID st1 = ID frame /\
    processFrame decode fl st frame =
      (if groupByID fl
       then (groupedDecode decode st1 true, [])
       else (fst (tryDecode decode st1),
             (printAccountedHeader fl frame header "START"
              ++ [PrintDiscarding (len (cborBuffer st)) (cborBuffer st);
                  PrintNewMessage payload])
             ++ snd (tryDecode decode st1))).
Proof.
  intros HD Hs Hne.
  exists (fst (absorbStart (Item:=Item) fl (countFrame st)
                 frame header payload)).
  simpl. repeat split.
  destruct (groupByID fl) eqn:Hg.
  - unfold processFrame. rewrite HD, Hg.
    unfold groupedStep, groupedAbsorb. rewrite Hs. simpl.
    by destruct (groupedDecode decode _ true).
  - rewrite (processFrame_start fl st frame header payload HD Hs Hg).
    simpl. apply len_pos_iff in Hne. by rewrite Hne.
Qed.
(** *** One message from one START and its continuations *)

Lemma tryDecode_not_decoded (st : Reassembly) :
  (forall item unread, decode (cborBuffer st) <> Decoded item unread) ->
  tryDecode decode st = (st, []).
Proof.
  intros H. apply tryDecode_failed.
  destruct (decode (cborBuffer st)) as [item unread|err] eqn:E.
  - by destruct (H item unread).
  - right. by exists err.
Qed.

Lemma tryDecode_all_consumed (st : Reassembly) (item : Item) :
  cborBuffer st <> [] ->
  decode (cborBuffer st) = Decoded item 0 ->
  tryDecode decode st =
    ({| cborBuffer := []; lastCanID := lastCanID st;
        frameCount := frameCount st;
        cborMessageCount := int_incr (cborMessageCount st);
        heartbeatCount := heartbeatCount st;
        totalFramesProcessed := totalFramesProcessed st |},
     [PrintComplete (lastCanID st) (frameCount st) (len (cborBuffer st))
        (cborBuffer st) item]).
Proof.
  intros Hne Hdec. unfold tryDecode.
  apply len_pos_iff in Hne. rewrite Hne, Hdec.
  rewrite Z.sub_0_r. unfold len. rewrite Nat2Z.id.
  by rewrite drop_all, firstn_all.
Qed.

Lemma int_incr_small (z : Z) : 0 <= z < int_max -> int_incr z = z + 1.
Proof.
  unfold int_incr, int_wrap, int_max. intros H.
  rewrite Z.mod_small; lia.
Qed.

Lemma iter_int_incr (n : nat) (z : Z) :
  0 <= z -> z + Z.of_nat n <= int_max ->
  Nat.iter n int_incr z = z + Z.of_nat n.
Proof.
  induction n as [|n IH]; intros Hz Hn; simpl; [lia|].
  rewrite IH by lia. rewrite int_incr_small; lia.
Qed.

Lemma mainLoop_cons (fl : Flags) (st : Reassembly) (f : CANFrame)
    (rest : list CANFrame) :
  mainLoop decode fl st (f :: rest) =
    (fst (mainLoop decode fl (fst (processFrame decode fl st f)) rest),
     snd (processFrame decode fl st f)
     ++ snd (mainLoop decode fl (fst (processFrame decode fl st f)) rest)).
Proof.
  simpl. destruct (processFrame decode fl st f) as [st1 out1]. simpl.
  by destruct (mainLoop decode fl st1 rest).
Qed.

Lemma mainLoop_app (fl : Flags) (st : Reassembly) (l1 l2 : list CANFrame) :
  mainLoop decode fl st (l1 ++ l2) =
    (fst (mainLoop decode fl (fst (mainLoop decode fl st l1)) l2),
     snd (mainLoop decode fl st l1)
     ++ snd (mainLoop decode fl (fst (mainLoop decode fl st l1)) l2)).
Proof.
  revert st. induction l1 as [|f l1 IH]; intros st; simpl.
  - by destruct (mainLoop decode fl st l2).
  - destruct (processFrame decode fl st f) as [st1 out1].
    rewrite IH. destruct (mainLoop decode fl st1 l1) as [st2 out2]. simpl.
    by rewrite app_assoc.
Qed.

(** Continuation frames that do not complete a value: the buffer and the
    frame count grow, nothing is decoded. *)
Lemma mainLoop_continuations_pending (fl : Flags) (conts : list CANFrame) :
  groupByID fl = false ->
  Forall (fun f => frameIsContinuation f = true) conts ->
  forall st : Reassembly,
  (forall k, (1 <= k <= length conts)%nat ->
     forall item unread,
       decode (cborBuffer st ++ concat (stripHeader <$> take k conts))
         <> Decoded item unread) ->
  exists st' out,
    mainLoop decode fl st conts = (st', out) /\
    cborBuffer st' = cborBuffer st ++ concat (stripHeader <$> conts) /\
    lastCanID st' = lastCanID st /\
    frameCount st' = Nat.iter (length conts) int_incr (frameCount st) /\
    cborMessageCount st' = cborMessageCount st /\
    List.filter isComplete out = [].
Proof.
  intros Hg Hconts. induction Hconts as [|f conts Hf _ IH]; intros st Hpend.
  { exists st, []. simpl. by rewrite app_nil_r. }
  pose proof Hf as (header & HD & Hs & Hc)%frameIsContinuation_inv.
  pose proof (processFrame_continuation fl st f header (stripHeader f)
                HD Hc Hg) as Hstep.
  cbv zeta in Hstep. simpl in Hstep.
  rewrite tryDecode_not_decoded in Hstep.
  2:{ simpl. intros item unread.
      specialize (Hpend 1%nat ltac:(simpl; lia) item unread).
      simpl in Hpend. by rewrite app_nil_r in Hpend. }
  simpl in Hstep.
  edestruct IH as (st' & out & Hloop & Hbuf & Hid & Hfc & Hmc & Hout).
  2:{ exists st', (((printAccountedHeader fl f header "CONT"
                      ++ [PrintAppended (int_incr (frameCount st))
                            (cborBuffer st ++ stripHeader f)
                            (len (cborBuffer st ++ stripHeader f))]) ++ [])
                   ++ out).
      split; [simpl; by rewrite Hstep, Hloop|].
      rewrite Hbuf, Hid, Hfc, Hmc.
      change (length (f :: conts)) with (S (length conts)).
      rewrite Nat.iter_succ_r. simpl. rewrite <- app_assoc.
      repeat split; try done.
      rewrite !List.filter_app, Hout. simpl. rewrite !app_nil_r.
      unfold printAccountedHeader. by destruct (negb _ && negb _). }
  simpl. intros k Hk item unread.
  specialize (Hpend (S k) ltac:(simpl; lia) item unread).
  simpl in Hpend. by rewrite <- app_assoc.
Qed.

(** One START frame and its continuations outside group-by-ID mode, when
    the last frame is the one that completes the value. *)
Lemma single_message_framing
    (fl : Flags) (st : Reassembly) (start : CANFrame)
    (conts : list CANFrame) (item : Item) :
  groupByID fl = false ->
  frameIsStart start = true ->
  Forall (fun f => frameIsContinuation f = true) conts ->
  let whole := concat (stripHeader <$> start :: conts) in
  whole <> [] ->
  decode whole = Decoded item 0 ->
  (forall k, (k < length conts)%nat ->
     forall item' unread,
       decode (concat (stripHeader <$> start :: take k conts))
         <> Decoded item' unread) ->
  len conts < int_max ->
  exists st' out,
    mainLoop decode fl st (start :: conts) = (st', out) /\
    List.filter isComplete out =
      [PrintComplete (ID start) (1 + len conts) (len whole) whole item] /\
    cborBuffer st' = [] /\
    frameCount st' = 1 + len conts /\
    cborMessageCount st' = int_incr (cborMessageCount st).
Proof.
  intros Hg Hstart Hconts whole Hne Hdec Hpend Hlen.
  pose proof Hstart as (header & HD & Hs)%frameIsStart_inv.
  pose proof (processFrame_start fl st start header (stripHeader start)
                HD Hs Hg) as Hstep.
  cbv zeta in Hstep. simpl in Hstep.
  assert (Hnc : List.filter isComplete
            (snd (absorbStart (Item:=Item) fl st start header
                    (stripHeader start))) = []).
  { simpl. unfold printAccountedHeader.
    by destruct (negb _ && negb _), (0 <? _). }
  destruct conts as [|c conts' _] using rev_ind.
  - (* the START frame alone carries the value *)
    subst whole. simpl in *. rewrite app_nil_r in Hne, Hdec |- *.
    rewrite tryDecode_all_consumed with (item := item) in Hstep by done.
    simpl in Hstep. rewrite Hstep.
    eexists _, _. split; [reflexivity|].
    rewrite app_nil_r, List.filter_app, Hnc. by simpl.
  - (* the last continuation frame completes it *)
    apply Forall_app in Hconts as [Hinit Hlast].
    apply Forall_inv in Hlast.
    rewrite tryDecode_not_decoded in Hstep.
    2:{ simpl. intros item' unread.
        specialize (Hpend 0%nat ltac:(rewrite length_app; simpl; lia)
                      item' unread).
        simpl in Hpend. by rewrite app_nil_r in Hpend. }
    simpl in Hstep.
    set (st1 := {| cborBuffer := stripHeader start; lastCanID := ID start;
                   frameCount := 1;
                   cborMessageCount := cborMessageCount st;
                   heartbeatCount := heartbeatCount st;
                   totalFramesProcessed :=
                     int_incr (totalFramesProcessed st) |}) in *.
    destruct (mainLoop_continuations_pending fl conts' Hg Hinit st1)
      as (st2 & out2 & Hloop & Hbuf & Hid & Hfc & Hmc & Hout).
    { simpl. intros k Hk item' unread.
      specialize (Hpend k ltac:(rewrite length_app; simpl; lia)
                    item' unread).
      simpl in Hpend. by rewrite take_app_le in Hpend by lia. }
    simpl in Hbuf, Hid, Hfc, Hmc.
    pose proof Hlast as (hc & HDc & Hsc & Hcc)%frameIsContinuation_inv.
    pose proof (processFrame_continuation fl st2 c hc (stripHeader c)
                  HDc Hcc Hg) as Hstepc.
    cbv zeta in Hstepc. simpl in Hstepc.
    assert (Hwhole : cborBuffer st2 ++ stripHeader c = whole).
    { subst whole. rewrite Hbuf. simpl.
      by rewrite fmap_app, concat_app, <- app_assoc; simpl;
         rewrite app_nil_r. }
    unfold len in Hlen. rewrite length_app in Hlen. simpl in Hlen.
    assert (Hcount : int_incr (frameCount st2)
                     = 1 + len (conts' ++ [c])).
    { rewrite Hfc, iter_int_incr by lia.
      rewrite int_incr_small by lia.
      unfold len. rewrite length_app. simpl. lia. }
    rewrite tryDecode_all_consumed with (item := item) in Hstepc
      by (simpl; by rewrite Hwhole).
    simpl in Hstepc. rewrite Hwhole, Hcount, Hid, Hmc in Hstepc.
    rewrite mainLoop_cons, mainLoop_app, (mainLoop_cons _ _ c []).
    rewrite Hstep. simpl fst. rewrite Hloop. simpl fst.
    rewrite Hstepc. simpl.
    eexists _, _. split; [reflexivity|].
    rewrite !app_nil_r, !List.filter_app, Hout.
    simpl in Hnc. rewrite !List.filter_app in Hnc. rewrite Hnc. simpl.
    repeat split; try done.
    unfold printAccountedHeader. by destruct (negb _ && negb _).
Qed.
(** *** Group-by-ID mode *)

Lemma tryDecode_fst (st : Reassembly) :
  fst (tryDecode decode st) = groupedDecode decode st true.
Proof.
  unfold tryDecode, groupedDecode. simpl.
  destruct (0 <? len (cborBuffer st)); [|done].
  by destruct (decode (cborBuffer st)).
Qed.

Lemma countHeartbeat_false (st : Reassembly) : countHeartbeat false st = st.
Proof. by destruct st. Qed.

(** On START and continuation frames group-by-ID mode leaves the state that
    the framing logic leaves, and prints nothing. *)
Lemma processFrame_grouped
    (fl fl' : Flags) (st : Reassembly) (frame : CANFrame) :
  frameIsStart frame = true \/ frameIsContinuation frame = true ->
  groupByID fl = true -> groupByID fl' = false ->
  processFrame decode fl st frame =
    (fst (processFrame decode fl' st frame), []).
Proof.
  intros Hkind Hg Hg'. unfold processFrame. rewrite Hg, Hg'.
  destruct Hkind as [Hk|Hk].
  - apply frameIsStart_inv in Hk as (header & HD & Hs). rewrite HD.
    unfold groupedStep, groupedAbsorb, framingStep. rewrite Hs. simpl.
    rewrite countHeartbeat_false.
    match goal with
    | |- context [tryDecode decode ?s] =>
        rewrite <- (tryDecode_fst s); by destruct (tryDecode decode s)
    end.
  - apply frameIsContinuation_inv in Hk as (header & HD & Hs & Hc).
    rewrite HD.
    unfold groupedStep, groupedAbsorb, framingStep. rewrite Hs, Hc. simpl.
    rewrite countHeartbeat_false.
    match goal with
    | |- context [tryDecode decode ?s] =>
        rewrite <- (tryDecode_fst s); by destruct (tryDecode decode s)
    end.
Qed.

Lemma mainLoop_grouped
    (fl fl' : Flags) (frames : list CANFrame) (st : Reassembly) :
  Forall (fun f => frameIsStart f = true \/ frameIsContinuation f = true)
    frames ->
  groupByID fl = true -> groupByID fl' = false ->
  mainLoop decode fl st frames = (fst (mainLoop decode fl' st frames), []).
Proof.
  intros Hframes Hg Hg'. revert st.
  induction Hframes as [|f frames Hf _ IH]; intros st; [done|].
  rewrite !mainLoop_cons, (processFrame_grouped fl fl') by done.
  simpl. by rewrite IH.
Qed.

(** C1, as the code has it.  From any state: for one START frame followed
    by continuation frames (fewer than 2^63) whose payloads without the
    header bytes concatenate to a non-empty buffer that the codec decodes
    consuming all bytes, and such that the buffer accumulated up to any
    earlier frame does not decode, the loop decodes exactly one message:
    it counts one message, the frame count is 1 plus the number of
    continuation frames and the buffer is empty afterwards; outside
    group-by-ID mode it prints exactly one decoded message, with the CAN
    identifier of the START frame, that frame count and all the bytes, and
    in group-by-ID mode it prints nothing. *)
Theorem single_message_reassembled
    (fl : Flags) (st : Reassembly) (start : CANFrame)
    (conts : list CANFrame) (item : Item) :
  frameIsStart start = true ->
  Forall (fun f => frameIsContinuation f = true) conts ->
  let whole := concat (stripHeader <$> start :: conts) in
  whole <> [] ->
  decode whole = Decoded item 0 ->
  (forall k, (k < length conts)%nat ->
     forall item' unread,
       decode (concat (stripHeader <$> start :: take k conts))
         <> Decoded item' unread) ->
  len conts < int_max ->
  exists st' out,
    mainLoop decode fl st (start :: conts) = (st', out) /\
    (if groupByID fl then out = []
     else List.filter isComplete out =
          [PrintComplete (ID start) (1 + len conts) (len whole) whole item]) /\
    cborBuffer st' = [] /\
    frameCount st' = 1 + len conts /\
    cborMessageCount st' = int_incr (cborMessageCount st).
Proof.
  intros Hstart Hconts whole Hne Hdec Hpend Hlen.
  destruct (groupByID fl) eqn:Hg.
  - destruct (single_message_framing defaultFlags st start conts item)
      as (st' & out & Hloop & _ & Hbuf & Hfc & Hmc); try done.
    exists st', []. split; [|done].
    rewrite (mainLoop_grouped fl defaultFlags); [by rewrite Hloop|..|done|done].
    constructor; [by left|].
    eapply Forall_impl; [exact Hconts|]. by right.
  - destruct (single_message_framing fl st start conts item)
      as (st' & out & Hloop & Hout & Hbuf & Hfc & Hmc); try done.
    by exists st', out.
Qed.
End MainLoopFacts.

(** A failed decode attempt makes the iteration independent of the codec. *)
Lemma processFrame_failed_any_codec {Item : Type}
    (decode decode' : list byte -> DecodeResult Item)
    (fl : Flags) (st : Reassembly) (frame : CANFrame) (err err' : DecodeError) :
  frameIsStart frame = true \/ frameIsContinuation frame = true ->
  decode (absorbedBuffer st frame) = DecodeFailed err ->
  decode' (absorbedBuffer st frame) = DecodeFailed err' ->
  processFrame decode fl st frame = processFrame decode' fl st frame.
Proof.
  intros Hkind Hfail Hfail'.
  unfold processFrame, absorbedBuffer in *.
  destruct Hkind as [Hk|Hk].
  - rewrite Hk in Hfail, Hfail'.
    apply frameIsStart_inv in Hk as (header & HD & Hs).
    rewrite HD. destruct (groupByID fl).
    + unfold groupedStep, groupedAbsorb. rewrite Hs. simpl.
      by rewrite !groupedDecode_failed by (right; eauto).
    + unfold framingStep. rewrite Hs. simpl.
      by rewrite !tryDecode_failed by (right; eauto).
  - rewrite (frameIsContinuation_not_start _ Hk) in Hfail, Hfail'.
    apply frameIsContinuation_inv in Hk as (header & HD & Hs & Hc).
    rewrite HD. destruct (groupByID fl).
    + unfold groupedStep, groupedAbsorb. rewrite Hs, Hc. simpl.
      by rewrite !groupedDecode_failed by (right; eauto).
    + unfold framingStep. rewrite Hs, Hc. simpl.
      by rewrite !tryDecode_failed by (right; eauto).
Qed.

(** C5, as the code has it.  When the codec reports a malformed buffer for a
    START or continuation frame, the iteration does exactly what it does
    when the codec asks for more bytes: the buffer that was handed to the
    codec is kept, nothing is printed beyond what absorbing the frame prints,
    and the next continuation frame has its payload appended to the kept
    bytes, which are handed to the codec again. *)
Theorem malformed_kept_like_incomplete {Item : Type}
    (decode decode' : list byte -> DecodeResult Item)
    (fl : Flags) (st : Reassembly) (frame : CANFrame) :
  frameIsStart frame = true \/ frameIsContinuation frame = true ->
  decode (absorbedBuffer st frame) = DecodeFailed Malformed ->
  decode' (absorbedBuffer st frame) = DecodeFailed NeedMoreBytes ->
  processFrame decode fl st frame = processFrame decode' fl st frame /\
  cborBuffer (fst (processFrame decode fl st frame)) = absorbedBuffer st frame /\
  snd (processFrame decode fl st frame) =
    (if groupByID fl then [] else absorbOutput fl st frame) /\
  (forall next, frameIsContinuation next = true ->
     absorbedBuffer (fst (processFrame decode fl st frame)) next =
       absorbedBuffer st frame ++ stripHeader next).
Proof.
  intros Hkind Hfail Hfail'.
  split; [by eapply processFrame_failed_any_codec|].
  destruct (processFrame_decode_failed decode fl st frame Malformed Hkind Hfail)
    as (st' & out & Hstep & Hbuf & _ & Hout & _).
  rewrite Hstep. simpl. repeat split; try done.
  intros next Hnext. unfold absorbedBuffer at 1.
  by rewrite (frameIsContinuation_not_start _ Hnext), Hbuf.
Qed.

(** ** The loop on sample captures *)

(** C1 fails as stated: a continuation frame that carries only its header
    byte, after a START frame whose payload is already a complete value.
    The single message is printed with a frame count of 1, not 2. *)
Lemma single_message_trailing_continuation :
  frameIsStart Sample.startUint1 = true /\
  frameIsContinuation Sample.contEmpty = true /\
  miniDecode (concat (stripHeader <$> [Sample.startUint1; Sample.contEmpty]))
    = Decoded (MUint 1) 0 /\
  mainLoop miniDecode defaultFlags initialState
    [Sample.startUint1; Sample.contEmpty] =
    ({| cborBuffer := []; lastCanID := "123"; frameCount := 2;
        cborMessageCount := 1; heartbeatCount := 0;
        totalFramesProcessed := 2 |},
     [PrintFrameHeader Sample.startUint1 xa0 "START";
      PrintNewMessage [x01];
      PrintComplete "123" 1 1 [x01] (MUint 1);
      PrintFrameHeader Sample.contEmpty x10 "CONT";
      PrintAppended 2 [] 0]).
Proof. repeat split. Qed.

Lemma single_message_reassembled_witness :
  exists st' out,
    mainLoop miniDecode defaultFlags initialState
      [Sample.startUint42; Sample.contUint42] = (st', out) /\
    List.filter isComplete out =
      [PrintComplete "123" 2 2 [x18; x2a] (MUint 42)] /\
    cborBuffer st' = [] /\
    frameCount st' = 2 /\
    cborMessageCount st' = 1.
Proof.
  apply (single_message_reassembled miniDecode defaultFlags initialState
           Sample.startUint42 [Sample.contUint42] (MUint 42)).
  - reflexivity.
  - by repeat constructor.
  - discriminate.
  - reflexivity.
  - intros [|k] Hk item unread; [discriminate | simpl in Hk; lia].
  - reflexivity.
Defined.

(** C2 fails as stated: in group-by-ID mode a START frame replaces a
    non-empty buffer and nothing is printed. *)
Lemma start_discard_silent_when_grouped :
  cborBuffer Sample.pending = [x18] /\
  frameIsStart Sample.startUint16 = true /\
  processFrame miniDecode groupedFlags Sample.pending Sample.startUint16 =
    ({| cborBuffer := [x19]; lastCanID := "456"; frameCount := 1;
        cborMessageCount := 0; heartbeatCount := 0;
        totalFramesProcessed := 2 |}, []).
Proof. repeat split. Qed.

Lemma start_discards_buffer_witness :
  exists st1,
    cborBuffer st1 = [x19] /\
    frameCount st1 = 1 /\
    lastCanID st1 = "456" /\
    processFrame miniDecode defaultFlags Sample.pending Sample.startUint16 =
      (fst (tryDecode miniDecode st1),
       (printAccountedHeader defaultFlags Sample.startUint16 xa1 "START"
        ++ [PrintDiscarding 1 [x18]; PrintNewMessage [x19]])
       ++ snd (tryDecode miniDecode st1)).
Proof.
  apply (start_discards_buffer miniDecode defaultFlags Sample.pending
           Sample.startUint16 xa1 [x19]).
  - reflexivity.
  - reflexivity.
  - discriminate.
Defined.

Lemma decode_failure_retains_buffer_witness :
  exists st' out,
    processFrame miniDecode defaultFlags Sample.pending Sample.startUint42
      = (st', out) /\
    cborBuffer st' = [x18] /\
    cborMessageCount st' = 0 /\
    out = absorbOutput defaultFlags Sample.pending Sample.startUint42 /\
    Forall (fun o => isComplete o = false) out /\
    mainLoop miniDecode defaultFlags Sample.pending [Sample.startUint42] =
      (fst (mainLoop miniDecode defaultFlags st' []),
       out ++ snd (mainLoop miniDecode defaultFlags st' [])).
Proof.
  apply (decode_failure_retains_buffer miniDecode defaultFlags Sample.pending
           Sample.startUint42 NeedMoreBytes []).
  - left. reflexivity.
  - reflexivity.
Defined.

(** C5 fails as stated: the codec reports the "break" byte as malformed;
    the byte stays in the buffer, nothing but the frame header and the "new
    message" line is printed, and the next continuation frame is appended
    to it. *)
Lemma malformed_buffer_not_dropped :
  miniDecode (absorbedBuffer initialState Sample.startBreak)
    = DecodeFailed Malformed /\
  processFrame miniDecode defaultFlags initialState Sample.startBreak =
    ({| cborBuffer := [xff]; lastCanID := "123"; frameCount := 1;
        cborMessageCount := 0; heartbeatCount := 0;
        totalFramesProcessed := 1 |},
     [PrintFrameHeader Sample.startBreak xa0 "START";
      PrintNewMessage [xff]]) /\
  cborBuffer
    (fst (mainLoop miniDecode defaultFlags initialState
            [Sample.startBreak; Sample.contUint42])) = [xff; x2a].
Proof. repeat split. Qed.

Lemma malformed_kept_like_incomplete_witness :
  processFrame miniDecode defaultFlags initialState Sample.startBreak =
    processFrame (fun _ => DecodeFailed NeedMoreBytes) defaultFlags
      initialState Sample.startBreak /\
  cborBuffer (fst (processFrame miniDecode defaultFlags initialState
                     Sample.startBreak)) = [xff] /\
  snd (processFrame miniDecode defaultFlags initialState Sample.startBreak) =
    absorbOutput defaultFlags initialState Sample.startBreak /\
  (forall next, frameIsContinuation next = true ->
     absorbedBuffer (fst (processFrame miniDecode defaultFlags initialState
                            Sample.startBreak)) next =
       [xff] ++ stripHeader next).
Proof.
  apply (malformed_kept_like_incomplete miniDecode
           (fun _ => DecodeFailed NeedMoreBytes) defaultFlags initialState
           Sample.startBreak).
  - left. reflexivity.
  - reflexivity.
  - reflexivity.
Defined.

(** C6 fails as stated: a continuation frame on the initial state, with no
    START before it.  The loop prints the frame header and the "frame
    appended" line of any continuation, and no warning. *)
Lemma orphan_continuation_not_reported :
  cborBuffer initialState = [] /\
  frameIsContinuation Sample.contPending = true /\
  processFrame miniDecode defaultFlags initialState Sample.contPending =
    ({| cborBuffer := [x18]; lastCanID := ""; frameCount := 1;
        cborMessageCount := 0; heartbeatCount := 0;
        totalFramesProcessed := 1 |},
     [PrintFrameHeader Sample.contPending x11 "CONT";
      PrintAppended 1 [x18] 1]) /\
  existsb isWarning
    (snd (processFrame miniDecode defaultFlags initialState
            Sample.contPending)) = false.
Proof. repeat split. Qed.

Lemma orphan_continuation_absorbed_witness :
  exists st1,
    cborBuffer st1 = [x18] /\
    frameCount st1 = int_incr 0 /\
    lastCanID st1 = "" /\
    processFrame miniDecode defaultFlags initialState Sample.contPending =
      (fst (tryDecode miniDecode st1),
       (printAccountedHeader defaultFlags Sample.contPending x11 "CONT"
        ++ [PrintAppended (int_incr 0) [x18] (len [x18])])
       ++ snd (tryDecode miniDecode st1)) /\
    Forall (fun o => isWarning o = false)
      (snd (processFrame miniDecode defaultFlags initialState
              Sample.contPending)).
Proof.
  apply (orphan_continuation_absorbed miniDecode defaultFlags initialState
           Sample.contPending x11 [x18]).
  - reflexivity.
  - reflexivity.
  - reflexivity.
Defined.

(** ** Sorting *)

Section SortFacts.
Context {A : Type}.
Variable less : A -> A -> bool.

Lemma insertLeft_perm (x : A) (left : list A) :
  insertLeft less x left ≡ₚ x :: left.
Proof.
  induction left as [|y left IH]; simpl; [done|].
  destruct (less x y); [|done].
  rewrite IH. apply perm_swap.
Qed.

Lemma sortSlice_perm (l : list A) : sortSlice less l ≡ₚ l.
Proof.
  unfold sortSlice.
  assert (forall left, fold_left (fun left x => insertLeft less x left) l left
                       ≡ₚ rev l ++ left) as H.
  { induction l as [|x l IH]; intros left; simpl; [done|].
    rewrite IH, insertLeft_perm. by rewrite <- app_assoc. }
  rewrite <- Permutation_rev, H, app_nil_r. by rewrite <- Permutation_rev.
Qed.

Lemma sortSlice_elem_of (l : list A) (x : A) : x ∈ sortSlice less l <-> x ∈ l.
Proof. by rewrite sortSlice_perm. Qed.

(** The domain on which [less] behaves as a strict weak order. *)
Variable P : A -> Prop.
Hypothesis less_asym :
  forall x y, P x -> P y -> less x y = true -> less y x = false.
Hypothesis less_negtrans :
  forall x y z, P x -> P y -> P z ->
    less x y = false -> less y z = false -> less x z = false.

Lemma insertLeft_sorted (x : A) (left : list A) :
  P x -> Forall P left ->
  StronglySorted (fun a b => less a b = false) left ->
  StronglySorted (fun a b => less a b = false) (insertLeft less x left).
Proof.
  intros Hx HP Hs. induction Hs as [|y left Hs IH Hy]; simpl.
  { repeat constructor. }
  apply Forall_cons in HP as [Py HP].
  destruct (less x y) eqn:Hxy.
  - constructor; [by apply IH|].
    rewrite insertLeft_perm. constructor; [by apply less_asym | done].
  - constructor; [by constructor|].
    constructor; [done|].
    rewrite Forall_forall in Hy, HP |- *.
    intros z Hz. apply (less_negtrans x y z); auto.
Qed.

Lemma StronglySorted_rev (R : relation A) (l : list A) :
  StronglySorted R l -> StronglySorted (flip R) (rev l).
Proof.
  induction 1 as [|x l Hs IH Hx]; simpl; [constructor|].
  apply StronglySorted_app_2; [|done|repeat constructor].
  intros a b Ha Hb. apply list_elem_of_singleton in Hb as ->.
  rewrite Forall_forall in Hx. apply Hx.
  apply list_elem_of_In. apply list_elem_of_In in Ha. by apply in_rev.
Qed.

(** The sorted slice is ascending: no element is less than an earlier
    one. *)
Lemma sortSlice_sorted (l : list A) :
  Forall P l -> StronglySorted (fun a b => less b a = false) (sortSlice less l).
Proof.
  intros HP. unfold sortSlice.
  apply (StronglySorted_rev (fun a b => less a b = false)).
  assert (forall left,
    Forall P left ->
    StronglySorted (fun a b => less a b = false) left ->
    Forall P (fold_left (fun left x => insertLeft less x left) l left) /\
    StronglySorted (fun a b => less a b = false)
      (fold_left (fun left x => insertLeft less x left) l left)) as H.
  { induction HP as [|x l Hx HP IH]; intros left Hleft Hs; simpl; [done|].
    apply IH.
    - rewrite insertLeft_perm. by constructor.
    - by apply insertLeft_sorted. }
  apply H; constructor.
Qed.

(** Sorting does not depend on the order of the input when the elements
    that [less] does not separate are equal. *)
Lemma sortSlice_unique (l1 l2 : list A) :
  l1 ≡ₚ l2 -> Forall P l1 ->
  (forall x y, x ∈ l1 -> y ∈ l1 ->
     less x y = false -> less y x = false -> x = y) ->
  sortSlice less l1 = sortSlice less l2.
Proof.
  intros Hperm HP Heq.
  apply (StronglySorted_unique_strong (fun a b => less b a = false)).
  - intros x y Hx Hy H1 H2.
    apply (proj1 (sortSlice_elem_of _ _)) in Hx.
    apply (proj1 (sortSlice_elem_of _ _)) in Hy.
    rewrite <- Hperm in Hy. by apply Heq.
  - by apply sortSlice_sorted.
  - apply sortSlice_sorted. by rewrite <- Hperm.
  - by rewrite !sortSlice_perm.
Qed.
End SortFacts.

(** *** The order on strings *)

Lemma ascii_compare_N (a b : ascii) :
  Ascii.compare a b = N.compare (N_of_ascii a) (N_of_ascii b).
Proof. reflexivity. Qed.

Lemma string_compare_refl (s : string) : String.compare s s = Eq.
Proof.
  induction s as [|a s IH]; simpl; [done|].
  by rewrite ascii_compare_N, N.compare_refl.
Qed.

Lemma string_compare_lt_trans (s1 s2 s3 : string) :
  String.compare s1 s2 = Lt -> String.compare s2 s3 = Lt ->
  String.compare s1 s3 = Lt.
Proof.
  revert s2 s3. induction s1 as [|a s1 IH]; intros [|b s2] [|c s3];
    simpl; try done.
  rewrite !ascii_compare_N.
  destruct (N.compare_spec (N_of_ascii a) (N_of_ascii b)) as [E1|L1|G1];
    destruct (N.compare_spec (N_of_ascii b) (N_of_ascii c)) as [E2|L2|G2];
    try done; intros H1 H2.
  - rewrite E1, E2, N.compare_refl. by eapply IH.
  - rewrite E1. by apply N.compare_lt_iff in L2 as ->.
  - rewrite <- E2. by apply N.compare_lt_iff in L1 as ->.
  - assert (N_of_ascii a < N_of_ascii c)%N as L by lia.
    by apply N.compare_lt_iff in L as ->.
Qed.

Lemma string_ltb_lt (s1 s2 : string) :
  String.ltb s1 s2 = true <-> String.compare s1 s2 = Lt.
Proof. unfold String.ltb. destruct (String.compare s1 s2); by split. Qed.

Lemma string_ltb_asym (s1 s2 : string) :
  String.ltb s1 s2 = true -> String.ltb s2 s1 = false.
Proof.
  unfold String.ltb. rewrite (String.compare_antisym s1 s2).
  by destruct (String.compare s2 s1).
Qed.

Lemma string_ltb_total (s1 s2 : string) :
  String.ltb s1 s2 = false -> String.ltb s2 s1 = false -> s1 = s2.
Proof.
  unfold String.ltb. rewrite (String.compare_antisym s1 s2).
  destruct (String.compare s2 s1) eqn:E; simpl; try done.
  intros _ _. symmetry. by apply String.compare_eq_iff.
Qed.

Lemma string_ltb_negtrans (s1 s2 s3 : string) :
  String.ltb s1 s2 = false -> String.ltb s2 s3 = false ->
  String.ltb s1 s3 = false.
Proof.
  intros H12 H23. destruct (String.ltb s1 s3) eqn:H13; [|done].
  destruct (String.ltb s2 s1) eqn:H21.
  - apply string_ltb_lt in H21, H13.
    pose proof (string_compare_lt_trans _ _ _ H21 H13) as H.
    apply string_ltb_lt in H. congruence.
  - pose proof (string_ltb_total _ _ H12 H21). subst. congruence.
Qed.

Lemma string_ltb_irrefl (s : string) : String.ltb s s = false.
Proof. unfold String.ltb. by rewrite string_compare_refl. Qed.

(** [sort.Strings] of the keys of a map does not depend on the order in
    which the keys were collected. *)
Lemma sortStrings_unique (l1 l2 : list string) :
  l1 ≡ₚ l2 -> sortStrings l1 = sortStrings l2.
Proof.
  intros Hperm. unfold sortStrings.
  apply (sortSlice_unique String.ltb (fun _ => True)); auto.
  - intros x y _ _. apply string_ltb_asym.
  - intros x y z _ _ _. apply string_ltb_negtrans.
  - by apply Forall_forall.
  - intros x y _ _. apply string_ltb_total.
Qed.

Lemma sortStrings_perm (l : list string) : sortStrings l ≡ₚ l.
Proof. apply sortSlice_perm. Qed.

(** ** Grouped display *)

(** *** The order on timestamps *)

Lemma pos_compare_cont_Eq (m1 m2 : positive) :
  Pos.compare_cont Eq m1 m2 = Pos.compare m1 m2.
Proof. reflexivity. Qed.

Lemma SFltb_key (t1 t2 : spec_float) :
  isNumber t1 -> isNumber t2 ->
  (SFltb t1 t2 = true <-> keyLt (floatKey t1) (floatKey t2)).
Proof.
  unfold SFltb, keyLt.
  destruct t1 as [s1|s1| |s1 m1 e1], t2 as [s2|s2| |s2 m2 e2];
    try done; intros _ _; simpl;
    try destruct s1; try destruct s2; simpl; try (split; [done|lia]);
    try (split; [lia|done]).
  - destruct (Z.compare_spec e1 e2); simpl; try (split; [done|lia]);
      try (split; [lia|done]).
    rewrite pos_compare_cont_Eq.
    destruct (Pos.compare_spec m1 m2); simpl; split; try done; lia.
  - destruct (Z.compare_spec e1 e2); simpl; try (split; [done|lia]);
      try (split; [lia|done]).
    rewrite pos_compare_cont_Eq.
    destruct (Pos.compare_spec m1 m2); simpl; split; try done; lia.
Qed.

Lemma SFeqb_key (t1 t2 : spec_float) :
  isNumber t1 -> isNumber t2 ->
  (SFeqb t1 t2 = true <-> floatKey t1 = floatKey t2).
Proof.
  unfold SFeqb.
  destruct t1 as [s1|s1| |s1 m1 e1], t2 as [s2|s2| |s2 m2 e2];
    try done; intros _ _; simpl;
    try destruct s1; try destruct s2; simpl; try (split; [done|congruence]);
    try (split; [congruence|done]).
  - destruct (Z.compare_spec e1 e2); simpl;
      try (split; [done|intros [=]; lia]).
    rewrite pos_compare_cont_Eq.
    destruct (Pos.compare_spec m1 m2); simpl; split; try done;
      try (intros [=]; lia). intros _. by subst.
  - destruct (Z.compare_spec e1 e2); simpl;
      try (split; [done|intros [=]; lia]).
    rewrite pos_compare_cont_Eq.
    destruct (Pos.compare_spec m1 m2); simpl; split; try done;
      try (intros [=]; lia). intros _. by subst.
Qed.

Lemma key_eq_iff (a b : Z * Z * Z) :
  a = b <-> a.1.1 = b.1.1 /\ a.1.2 = b.1.2 /\ a.2 = b.2.
Proof.
  destruct a as [[a1 a2] a3], b as [[b1 b2] b3]; simpl.
  split; [by intros [= -> -> ->] | by intros (-> & -> & ->)].
Qed.

Lemma frameLess_spec (a b : FrameInfo) :
  isNumber (TimestampFloat a) -> isNumber (TimestampFloat b) ->
  (frameLess a b = true <->
   keyLt (floatKey (TimestampFloat a)) (floatKey (TimestampFloat b)) \/
   (floatKey (TimestampFloat a) = floatKey (TimestampFloat b) /\
    SequenceNum a < SequenceNum b)).
Proof.
  intros Ha Hb. unfold frameLess.
  pose proof (SFeqb_key _ _ Ha Hb) as He.
  pose proof (SFltb_key _ _ Ha Hb) as Hl.
  destruct (SFeqb (TimestampFloat a) (TimestampFloat b)).
  - assert (floatKey (TimestampFloat a) = floatKey (TimestampFloat b)) as E
      by by apply He.
    rewrite Z.ltb_lt. split; [by right|].
    intros [Hlt|[_ ?]]; [|done].
    apply key_eq_iff in E. unfold keyLt in Hlt. lia.
  - rewrite Hl. split; [by left|].
    intros [?|[E _]]; [done|]. apply He in E. discriminate.
Qed.

Lemma frameLe_spec (a b : FrameInfo) :
  isNumber (TimestampFloat a) -> isNumber (TimestampFloat b) ->
  (frameLe a b <->
   keyLt (floatKey (TimestampFloat a)) (floatKey (TimestampFloat b)) \/
   (floatKey (TimestampFloat a) = floatKey (TimestampFloat b) /\
    SequenceNum a <= SequenceNum b)).
Proof.
  intros Ha Hb. unfold frameLe.
  by rewrite (SFeqb_key _ _ Ha Hb), (SFltb_key _ _ Ha Hb).
Qed.

Lemma frameLess_false_spec (a b : FrameInfo) :
  isNumber (TimestampFloat a) -> isNumber (TimestampFloat b) ->
  (frameLess a b = false <-> frameLe b a).
Proof.
  intros Ha Hb.
  rewrite (frameLe_spec _ _ Hb Ha), <- not_true_iff_false,
    (frameLess_spec _ _ Ha Hb), !key_eq_iff.
  unfold keyLt. lia.
Qed.

Lemma frameLess_asym (a b : FrameInfo) :
  isNumber (TimestampFloat a) -> isNumber (TimestampFloat b) ->
  frameLess a b = true -> frameLess b a = false.
Proof.
  intros Ha Hb.
  rewrite <- (not_true_iff_false (frameLess b a)),
    (frameLess_spec _ _ Ha Hb), (frameLess_spec _ _ Hb Ha), !key_eq_iff.
  unfold keyLt. lia.
Qed.

Lemma frameLess_negtrans (a b c : FrameInfo) :
  isNumber (TimestampFloat a) -> isNumber (TimestampFloat b) ->
  isNumber (TimestampFloat c) ->
  frameLess a b = false -> frameLess b c = false -> frameLess a c = false.
Proof.
  intros Ha Hb Hc.
  rewrite <- !not_true_iff_false,
    (frameLess_spec _ _ Ha Hb), (frameLess_spec _ _ Hb Hc),
    (frameLess_spec _ _ Ha Hc), !key_eq_iff.
  unfold keyLt. lia.
Qed.

(** *** Groups *)

Lemma groupFrames_fold_lookup (frames : list FrameInfo)
    (acc : gmap string (list FrameInfo)) (id : string) :
  fold_left
    (fun grouped f =>
       <[ID (Frame f) := default [] (grouped !! ID (Frame f)) ++ [f]]> grouped)
    frames acc !! id =
  match acc !! id, framesOfID id frames with
  | None, [] => None
  | o, l => Some (default [] o ++ l)
  end.
Proof.
  revert acc. induction frames as [|f frames IH]; intros acc; simpl.
  { unfold framesOfID. simpl. destruct (acc !! id); [|done].
    simpl. by rewrite app_nil_r. }
  rewrite IH. unfold framesOfID. rewrite filter_cons.
  destruct (decide (ID (Frame f) = id)) as [->|Hne].
  - rewrite lookup_insert_eq. simpl.
    destruct (acc !! id); simpl; by rewrite <- ?app_assoc.
  - by rewrite lookup_insert_ne.
Qed.

Lemma groupFrames_lookup (frames : list FrameInfo) (id : string) :
  groupFrames frames !! id =
    match framesOfID id frames with
    | [] => None
    | l => Some l
    end.
Proof.
  unfold groupFrames. rewrite groupFrames_fold_lookup, lookup_empty.
  by destruct (framesOfID id frames).
Qed.

Lemma groupFrames_default (frames : list FrameInfo) (id : string) :
  default [] (groupFrames frames !! id) = framesOfID id frames.
Proof. rewrite groupFrames_lookup. by destruct (framesOfID id frames). Qed.

Lemma StronglySorted_filter {A} (R : relation A) (Q : A -> Prop)
    `{forall x, Decision (Q x)} (l : list A) :
  StronglySorted R l -> StronglySorted R (filter Q l).
Proof.
  induction 1 as [|x l Hs IH Hx]; [constructor|].
  rewrite filter_cons. destruct (decide (Q x)); [|done].
  constructor; [done|].
  rewrite Forall_forall in Hx |- *.
  intros y [_ Hy]%list_elem_of_filter. by apply Hx.
Qed.

(** What one round of the display loop yields for a group. *)
Lemma displayGroup_spec (frames : list FrameInfo)
    (hideAccounted hideUnaccounted : bool) (id : string) :
  displayGroup (groupFrames frames) hideAccounted hideUnaccounted id =
    let shown := filter (shownFrame hideAccounted hideUnaccounted)
                   (sortSlice frameLess (framesOfID id frames)) in
    match shown with [] => None | _ => Some (id, shown) end.
Proof.
  unfold displayGroup. rewrite groupFrames_default.
  fold (shownFrame hideAccounted hideUnaccounted).
  destruct (filter (shownFrame hideAccounted hideUnaccounted) _) as [|f l];
    simpl; [done|].
  destruct (decide (len (f :: l) = 0)) as [E|_]; [|done].
  unfold len in E. simpl in E. lia.
Qed.

Lemma StronglySorted_impl_on {A} (R R' : relation A) (P : A -> Prop)
    (l : list A) :
  (forall a b, P a -> P b -> R a b -> R' a b) ->
  Forall P l -> StronglySorted R l -> StronglySorted R' l.
Proof.
  intros Himpl HP Hs. induction Hs as [|x l Hs IH Hx]; [constructor|].
  apply Forall_cons in HP as [Px HP].
  constructor; [by apply IH|].
  rewrite Forall_forall in Hx, HP |- *. intros y Hy. apply Himpl; auto.
Qed.

Lemma framesOfID_numbers (id : string) (frames : list FrameInfo) :
  Forall (fun f => isNumber (TimestampFloat f)) frames ->
  Forall (fun f => isNumber (TimestampFloat f)) (framesOfID id frames).
Proof.
  rewrite !Forall_forall. intros H f [_ Hf]%list_elem_of_filter. by apply H.
Qed.

(** The frames of a group in printing order, for timestamps that are
    numbers. *)
Lemma group_sorted (id : string) (frames : list FrameInfo) :
  Forall (fun f => isNumber (TimestampFloat f)) frames ->
  StronglySorted frameLe (sortSlice frameLess (framesOfID id frames)).
Proof.
  intros Hnum.
  pose proof (framesOfID_numbers id frames Hnum) as Hnum'.
  apply (StronglySorted_impl_on (fun a b => frameLess b a = false) frameLe
           (fun f => isNumber (TimestampFloat f))).
  - intros a b Ha Hb. by apply frameLess_false_spec.
  - by rewrite sortSlice_perm.
  - apply (sortSlice_sorted frameLess (fun f => isNumber (TimestampFloat f))).
    + apply frameLess_asym.
    + apply frameLess_negtrans.
    + done.
Qed.

Lemma displayed_ids (grouped : gmap string (list FrameInfo))
    (hideAccounted hideUnaccounted : bool) (ids : list string) :
  (omap (displayGroup grouped hideAccounted hideUnaccounted) ids).*1 =
  filter (fun id => is_Some (displayGroup grouped hideAccounted
                               hideUnaccounted id)) ids.
Proof.
  induction ids as [|id ids IH]; [done|].
  rewrite filter_cons. csimpl.
  destruct (displayGroup grouped hideAccounted hideUnaccounted id)
    as [[id' fs]|] eqn:E.
  - rewrite decide_True by eauto. csimpl. rewrite IH. f_equal.
    unfold displayGroup in E. by destruct (decide _); simplify_eq.
  - rewrite decide_False by (by intros [? ?]). done.
Qed.

(** C9, as the code has it.  For classified frames whose timestamps are
    numbers and either filter flag: every group that is printed is
    non-empty, consists of the frames of its identifier that pass the
    filter, and lists them by timestamp ascending, frames of equal timestamp
    by sequence number ascending (any two frames of the group, not only
    neighbours, stand in that order); an identifier has a group in the
    output exactly when one of its frames passes the filter, so a group
    whose frames are all filtered out is not printed; no identifier is
    printed twice. *)
Theorem grouped_display_sorted (rangeIDs : list string)
    (frames : list FrameInfo) (hideAccounted hideUnaccounted : bool) :
  Forall (fun f => isNumber (TimestampFloat f)) frames ->
  rangeIDs ≡ₚ (map_to_list (groupFrames frames)).*1 ->
  let shown :=
    displayGroupedFrames rangeIDs frames hideAccounted hideUnaccounted in
  (forall id fs, (id, fs) ∈ shown ->
     fs <> [] /\
     StronglySorted frameLe fs /\
     fs ≡ₚ filter (shownFrame hideAccounted hideUnaccounted)
             (framesOfID id frames)) /\
  (forall id, id ∈ shown.*1 <->
     exists f, f ∈ frames /\ ID (Frame f) = id /\
               shownFrame hideAccounted hideUnaccounted f) /\
  NoDup shown.*1.
Proof.
  intros Hnum Hrange shown. subst shown. unfold displayGroupedFrames.
  assert (Hids : forall id, id ∈ sortStrings rangeIDs <->
                            framesOfID id frames <> []).
  { intros id. rewrite sortStrings_perm, Hrange, list_elem_of_fmap.
    split.
    - intros ([id' l] & -> & Hl). apply elem_of_map_to_list in Hl.
      simpl. rewrite groupFrames_lookup in Hl.
      by destruct (framesOfID id' frames).
    - intros Hne. exists (id, framesOfID id frames). split; [done|].
      apply elem_of_map_to_list. rewrite groupFrames_lookup.
      by destruct (framesOfID id frames). }
  split; [|split].
  - intros id fs Hin. apply list_elem_of_omap in Hin as (id' & Hid' & Hg).
    rewrite displayGroup_spec in Hg. cbv zeta in Hg.
    destruct (filter _ _) as [|f l] eqn:E; [done|].
    injection Hg as <- <-. split; [done|]. rewrite <- E. split.
    + apply StronglySorted_filter. by apply group_sorted.
    + by rewrite sortSlice_perm.
  - intros id. rewrite displayed_ids, list_elem_of_filter, Hids.
    rewrite displayGroup_spec. cbv zeta. split.
    + intros [Hsome _].
      destruct (filter _ _) as [|f l] eqn:E; [by destruct Hsome|].
      assert (f ∈ filter (shownFrame hideAccounted hideUnaccounted)
                    (sortSlice frameLess (framesOfID id frames))) as Hf
        by (rewrite E; left).
      apply list_elem_of_filter in Hf as [Hshown Hf].
      rewrite sortSlice_perm in Hf.
      apply list_elem_of_filter in Hf as [Hid Hf]. by exists f.
    + intros (f & Hf & Hid & Hshown).
      assert (f ∈ framesOfID id frames) as Hf'
        by (by apply list_elem_of_filter).
      assert (f ∈ filter (shownFrame hideAccounted hideUnaccounted)
                    (sortSlice frameLess (framesOfID id frames))) as Hf''.
      { apply list_elem_of_filter. by rewrite sortSlice_perm. }
      split.
      * destruct (filter _ _); [by apply elem_of_nil in Hf''|eauto].
      * intros E. rewrite E in Hf'. by apply elem_of_nil in Hf'.
  - rewrite displayed_ids. apply NoDup_filter.
    rewrite sortStrings_perm, Hrange. apply NoDup_fst_map_to_list.
Qed.

(** C9 fails as stated: three frames of one identifier with the timestamps
    2.0, NaN and 1.0.  No comparison with NaN holds, so that the sort leaves
    the frames as they are: the frame of timestamp 1.0 is printed after the
    frame of timestamp 2.0. *)
Lemma grouped_display_nan_unsorted :
  (map_to_list (groupFrames
                  [SampleGroup.f1; SampleGroup.f2; SampleGroup.f3])).*1
    = ["123"] /\
  displayGroupedFrames ["123"]
    [SampleGroup.f1; SampleGroup.f2; SampleGroup.f3] false false =
    [("123", [SampleGroup.f1; SampleGroup.f2; SampleGroup.f3])] /\
  SFltb (TimestampFloat SampleGroup.f3) (TimestampFloat SampleGroup.f1)
    = true /\
  ~ frameLe SampleGroup.f1 SampleGroup.f3.
Proof.
  repeat split; try by vm_compute.
  intros [H|[H _]]; by vm_compute in H.
Qed.

Lemma grouped_display_sorted_witness :
  (forall id fs,
     (id, fs) ∈ displayGroupedFrames ["123"]
                  [SampleGroup.f1; SampleGroup.f3] true false ->
     fs <> [] /\
     StronglySorted frameLe fs /\
     fs ≡ₚ filter (shownFrame true false)
             (framesOfID id [SampleGroup.f1; SampleGroup.f3])) /\
  (forall id,
     id ∈ (displayGroupedFrames ["123"]
             [SampleGroup.f1; SampleGroup.f3] true false).*1 <->
     exists f, f ∈ [SampleGroup.f1; SampleGroup.f3] /\ ID (Frame f) = id /\
               shownFrame true false f) /\
  NoDup (displayGroupedFrames ["123"]
           [SampleGroup.f1; SampleGroup.f3] true false).*1.
Proof.
  apply (grouped_display_sorted ["123"] [SampleGroup.f1; SampleGroup.f3]
           true false).
  - by repeat constructor.
  - vm_compute. reflexivity.
Defined.


(** ** Comparison of unaccounted frames *)

(** *** Keys *)

Lemma occursIn_app (c : ascii) (s1 s2 : string) :
  occursIn c (s1 +:+ s2) = occursIn c s1 || occursIn c s2.
Proof.
  induction s1 as [|a s1 IH]; simpl; [done|].
  by destruct (decide (a = c)).
Qed.

Lemma string_app_cons (a : ascii) (s1 s2 : string) :
  String a s1 +:+ s2 = String a (s1 +:+ s2).
Proof. reflexivity. Qed.

Lemma string_app_assoc (s1 s2 s3 : string) :
  (s1 +:+ s2) +:+ s3 = s1 +:+ s2 +:+ s3.
Proof.
  induction s1 as [|a s1 IH]; [done|].
  by rewrite !string_app_cons, IH.
Qed.

(** A string splits in one way at the last occurrence of a character. *)
Lemma split_at_last (c : ascii) (s1 t1 s2 t2 : string) :
  s1 +:+ String c t1 = s2 +:+ String c t2 ->
  occursIn c t1 = false -> occursIn c t2 = false ->
  s1 = s2 /\ t1 = t2.
Proof.
  revert s2. induction s1 as [|a s1 IH]; intros [|b s2]; simpl;
    intros E H1 H2.
  - by injection E.
  - injection E as -> ->. rewrite occursIn_app in H1. simpl in H1.
    rewrite decide_True in H1 by done. by rewrite orb_true_r in H1.
  - injection E as -> <-. rewrite occursIn_app in H2. simpl in H2.
    rewrite decide_True in H2 by done. by rewrite orb_true_r in H2.
  - injection E as -> E. destruct (IH s2 E H1 H2) as [-> ->]. done.
Qed.

Lemma byteOfHex_hexByte (b : byte) : byteOfHex (hexByte b) = Some b.
Proof. destruct b; vm_compute; reflexivity. Qed.

Lemma hexByte_inj (a b : byte) : hexByte a = hexByte b -> a = b.
Proof.
  intros E. pose proof (byteOfHex_hexByte a) as Ha.
  rewrite E, byteOfHex_hexByte in Ha. by injection Ha.
Qed.

Lemma hexByte_no_colon (b : byte) : occursIn ":" (hexByte b) = false.
Proof. destruct b; vm_compute; reflexivity. Qed.

Lemma hexByte_shape (b : byte) :
  exists c1 c2, hexByte b = String c1 (String c2 "").
Proof. unfold hexByte. eauto. Qed.

Lemma sprintfX_cons (b : byte) (data : list byte) :
  sprintfX (b :: data) = hexByte b +:+ sprintfX data.
Proof. reflexivity. Qed.

Lemma sprintfX_no_colon (data : list byte) :
  occursIn ":" (sprintfX data) = false.
Proof.
  induction data as [|b data IH]; [done|].
  by rewrite sprintfX_cons, occursIn_app, hexByte_no_colon, IH.
Qed.

Lemma sprintfX_inj (d1 d2 : list byte) : sprintfX d1 = sprintfX d2 -> d1 = d2.
Proof.
  revert d2. induction d1 as [|a d1 IH]; intros [|b d2];
    rewrite ?sprintfX_cons; try done.
  intros E.
  destruct (hexByte_shape a) as (a1 & a2 & Ha).
  destruct (hexByte_shape b) as (b1 & b2 & Hb).
  rewrite Ha, Hb, !string_app_cons in E. injection E as -> -> E.
  f_equal; [|by apply IH].
  apply hexByte_inj. by rewrite Ha, Hb.
Qed.

(** The key determines identifier, header byte and payload hex. *)
Lemma patternKey_inj (id1 id2 : string) (h1 h2 : byte) (d1 d2 : string) :
  patternKey id1 h1 d1 = patternKey id2 h2 d2 ->
  occursIn ":" d1 = false -> occursIn ":" d2 = false ->
  id1 = id2 /\ h1 = h2 /\ d1 = d2.
Proof.
  unfold patternKey. intros E H1 H2.
  change (id1 +:+ ":" +:+ hexByte h1 +:+ ":" +:+ d1)
    with (id1 +:+ String ":" (hexByte h1 +:+ String ":" d1)) in E.
  change (id2 +:+ ":" +:+ hexByte h2 +:+ ":" +:+ d2)
    with (id2 +:+ String ":" (hexByte h2 +:+ String ":" d2)) in E.
  change (String ":" (hexByte h1 +:+ String ":" d1))
    with ((String ":" (hexByte h1)) +:+ String ":" d1) in E.
  change (String ":" (hexByte h2 +:+ String ":" d2))
    with ((String ":" (hexByte h2)) +:+ String ":" d2) in E.
  rewrite <- !string_app_assoc in E.
  apply split_at_last in E as [E ->]; [|done..].
  apply split_at_last in E as [-> E]; [|apply hexByte_no_colon..].
  by apply hexByte_inj in E as ->.
Qed.

Lemma frameKey_inj (f1 f2 : FrameInfo) :
  frameKey f1 = frameKey f2 ->
  freshPattern f1 = freshPattern f2 /\ frameShape f1 = frameShape f2.
Proof.
  unfold frameKey, freshPattern, frameShape.
  intros (E1 & E2 & E3)%patternKey_inj; [|apply sprintfX_no_colon..].
  rewrite E1, E2, E3. split; [done|].
  by apply sprintfX_inj in E3 as ->.
Qed.

(** *** The collecting loop *)

Lemma isUnaccounted_spec (f : FrameInfo) :
  isUnaccounted f = negb (IsCBOR f || IsHeartbeat f).
Proof. unfold isUnaccounted. by destruct (IsCBOR f), (IsHeartbeat f). Qed.

Lemma addPattern_skip (filename : string)
    (m : gmap string UnaccountedFrame) (f : FrameInfo) :
  isUnaccounted f = false -> addPattern filename m f = m.
Proof.
  rewrite isUnaccounted_spec. unfold addPattern.
  by destruct (IsCBOR f || IsHeartbeat f).
Qed.

(** The pattern map after one unaccounted frame. *)
Lemma addPattern_lookup (filename : string)
    (m : gmap string UnaccountedFrame) (f : FrameInfo) (k : string) :
  isUnaccounted f = true ->
  addPattern filename m f !! k =
    if decide (k = frameKey f)
    then Some (countOccurrence filename
                 (default (freshPattern f) (m !! frameKey f)))
    else m !! k.
Proof.
  rewrite isUnaccounted_spec. unfold addPattern. intros Hu.
  destruct (IsCBOR f || IsHeartbeat f); [done|].
  fold (frameKey f). fold (freshPattern f).
  destruct (decide (k = frameKey f)) as [->|Hne].
  - rewrite lookup_alter_eq.
    destruct (m !! frameKey f) as [p|] eqn:E; simpl.
    + by rewrite E.
    + by rewrite lookup_insert_eq.
  - rewrite lookup_alter_ne by done.
    destruct (m !! frameKey f); [done|]. by rewrite lookup_insert_ne.
Qed.

Lemma countOccurrence_comm (fn1 fn2 : string) (p : UnaccountedFrame) :
  countOccurrence fn1 (countOccurrence fn2 p) =
  countOccurrence fn2 (countOccurrence fn1 p).
Proof.
  destruct (decide (fn1 = fn2)) as [->|Hne]; [done|].
  unfold countOccurrence. simpl. f_equal.
  rewrite !lookup_insert_ne by done. by apply insert_insert_ne.
Qed.

(** Two frames may be collected in either order. *)
Lemma addPattern_comm (fn1 fn2 : string) (f1 f2 : FrameInfo)
    (m : gmap string UnaccountedFrame) :
  addPattern fn2 (addPattern fn1 m f1) f2 =
  addPattern fn1 (addPattern fn2 m f2) f1.
Proof.
  destruct (isUnaccounted f1) eqn:H1.
  2:{ by rewrite !(addPattern_skip fn1 _ f1). }
  destruct (isUnaccounted f2) eqn:H2.
  2:{ by rewrite !(addPattern_skip fn2 _ f2). }
  apply map_eq. intros k.
  rewrite !addPattern_lookup by done.
  destruct (decide (frameKey f1 = frameKey f2)) as [E|Hne].
  - destruct (frameKey_inj f1 f2 E) as [Efresh _].
    rewrite E, Efresh.
    destruct (decide (k = frameKey f2)) as [->|?]; [|done].
    rewrite decide_True by done. simpl.
    f_equal. apply countOccurrence_comm.
  - repeat case_decide; congruence.
Qed.

Lemma collect_file (filename : string) (frames : list FrameInfo)
    (m : gmap string UnaccountedFrame) :
  fold_left (addPattern filename) frames m =
  fold_left collectStep
    ((fun f => (filename, f)) <$> List.filter isUnaccounted frames) m.
Proof.
  revert m. induction frames as [|f frames IH]; intros m; simpl; [done|].
  destruct (isUnaccounted f) eqn:Hu; csimpl.
  - by rewrite IH.
  - by rewrite addPattern_skip.
Qed.

(** The collecting loops as one pass over the observations. *)
Lemma collectPatterns_observations
    (rangeFiles : list (string * list FrameInfo)) :
  collectPatterns rangeFiles = fold_left collectStep (observations rangeFiles) ∅.
Proof.
  unfold collectPatterns, observations.
  generalize (∅ : gmap string UnaccountedFrame).
  induction rangeFiles as [|[filename frames] rest IH]; intros m;
    [done|].
  rewrite bind_cons, fold_left_app. simpl.
  by rewrite IH, collect_file.
Qed.

Lemma collectStep_perm (obs1 obs2 : list (string * FrameInfo))
    (m : gmap string UnaccountedFrame) :
  obs1 ≡ₚ obs2 -> fold_left collectStep obs1 m = fold_left collectStep obs2 m.
Proof.
  intros Hperm. revert m.
  induction Hperm as [|o l1 l2 _ IH|o1 o2 l|l1 l2 l3 _ IH1 _ IH2];
    intros m; simpl.
  - done.
  - apply IH.
  - unfold collectStep at 2 3 5 6. by rewrite addPattern_comm.
  - by rewrite IH1.
Qed.

(** The pattern map does not depend on the order in which the files are
    visited. *)
Lemma collectPatterns_perm (files1 files2 : list (string * list FrameInfo)) :
  files1 ≡ₚ files2 -> collectPatterns files1 = collectPatterns files2.
Proof.
  intros Hperm. rewrite !collectPatterns_observations.
  apply collectStep_perm. unfold observations. by rewrite Hperm.
Qed.

Lemma observations_unaccounted (rangeFiles : list (string * list FrameInfo))
    (o : string * FrameInfo) :
  o ∈ observations rangeFiles -> isUnaccounted o.2 = true.
Proof.
  unfold observations.
  intros ([filename frames] & Ho & _)%list_elem_of_bind.
  apply list_elem_of_fmap in Ho as (f & -> & Hf).
  apply list_elem_of_In, filter_In in Hf. by destruct Hf.
Qed.

Lemma observations_filename (rangeFiles : list (string * list FrameInfo))
    (o : string * FrameInfo) :
  o ∈ observations rangeFiles -> o.1 ∈ rangeFiles.*1.
Proof.
  unfold observations.
  intros ([filename frames] & Ho & Hin)%list_elem_of_bind.
  apply list_elem_of_fmap in Ho as (f & -> & Hf). simpl.
  apply list_elem_of_fmap. by exists (filename, frames).
Qed.

(** A property of pattern maps that the loop body preserves holds of the
    collected map. *)
Lemma collect_invariant (Inv : gmap string UnaccountedFrame -> Prop)
    (obs : list (string * FrameInfo)) (m : gmap string UnaccountedFrame) :
  Inv m ->
  (forall m o, o ∈ obs -> Inv m -> Inv (collectStep m o)) ->
  Inv (fold_left collectStep obs m).
Proof.
  revert m. induction obs as [|o obs IH]; intros m Hm Hstep; simpl; [done|].
  apply IH.
  - apply Hstep; [left | done].
  - intros m' o' Ho'. apply Hstep. by right.
Qed.

(** What holds of every entry of the collected map: it is stored under the
    key of its own fields, its payload hex has no colon, it has been seen
    in some file, and only in files of the input. *)
Lemma collectPatterns_entry (rangeFiles : list (string * list FrameInfo))
    (k : string) (p : UnaccountedFrame) :
  collectPatterns rangeFiles !! k = Some p ->
  k = patternKeyOf p /\
  occursIn ":" (DataHex p) = false /\
  Occurrences p <> ∅ /\
  (forall fn, is_Some (Occurrences p !! fn) -> fn ∈ rangeFiles.*1).
Proof.
  rewrite collectPatterns_observations. revert k p.
  apply (collect_invariant
    (fun m => forall k p, m !! k = Some p ->
       k = patternKeyOf p /\ occursIn ":" (DataHex p) = false /\
       Occurrences p <> ∅ /\
       (forall fn, is_Some (Occurrences p !! fn) -> fn ∈ rangeFiles.*1))).
  { intros k p. by rewrite lookup_empty. }
  intros m [fn f] Ho Hm k p. unfold collectStep. simpl.
  pose proof (observations_unaccounted _ _ Ho) as Hu.
  pose proof (observations_filename _ _ Ho) as Hfn. simpl in Hu, Hfn.
  rewrite addPattern_lookup by done.
  destruct (decide (k = frameKey f)) as [->|Hne]; [|by apply Hm].
  intros [= <-].
  assert (Hold : frameKey f =
                   patternKeyOf (default (freshPattern f) (m !! frameKey f)) /\
                 occursIn ":"
                   (DataHex (default (freshPattern f) (m !! frameKey f)))
                   = false /\
                 (forall fn',
                    is_Some (Occurrences
                               (default (freshPattern f) (m !! frameKey f))
                             !! fn') -> fn' ∈ rangeFiles.*1)).
  { destruct (m !! frameKey f) as [p0|] eqn:E; simpl.
    - destruct (Hm _ _ E) as (H1 & H2 & _ & H4). done.
    - repeat split; [apply sprintfX_no_colon|].
      intros fn'. rewrite lookup_empty. by intros [? ?]. }
  destruct Hold as (H1 & H2 & H4).
  repeat split; try done.
  - simpl. intros E. apply (f_equal (fun o => o !! fn)) in E.
    by rewrite lookup_insert_eq, lookup_empty in E.
  - simpl. intros fn'. rewrite lookup_insert_is_Some.
    intros [<-|[_ H]]; [done | by apply H4].
Qed.

Lemma collectStep_dom (obs : list (string * FrameInfo))
    (m : gmap string UnaccountedFrame) :
  (forall o, o ∈ obs -> isUnaccounted o.2 = true) ->
  dom (fold_left collectStep obs m) =
    dom m ∪ list_to_set (frameKey <$> obs.*2).
Proof.
  revert m. induction obs as [|[fn f] obs IH]; intros m Hu; simpl.
  { by rewrite (right_id_L ∅ (∪)). }
  rewrite IH by (intros o Ho; apply Hu; by right).
  assert (dom (collectStep m (fn, f)) = {[frameKey f]} ∪ dom m) as ->.
  { apply set_eq. intros k. rewrite elem_of_union, elem_of_singleton.
    rewrite !elem_of_dom. unfold collectStep. simpl.
    rewrite addPattern_lookup by (apply (Hu (fn, f)); left).
    destruct (decide (k = frameKey f)); [|tauto].
    split; [by left | by eauto]. }
  csimpl. apply set_eq. intros k.
  rewrite !elem_of_union, elem_of_singleton. tauto.
Qed.

Lemma remove_dups_length_same_kernel {A B C} `{EqDecision B, EqDecision C}
    (g : A -> B) (h : A -> C) (l : list A) :
  (forall x y, g x = g y <-> h x = h y) ->
  length (remove_dups (g <$> l)) = length (remove_dups (h <$> l)).
Proof.
  intros Hker. induction l as [|x l IH]; [done|]. csimpl.
  assert (g x ∈ g <$> l <-> h x ∈ h <$> l) as Hin.
  { rewrite !list_elem_of_fmap. split; intros (y & E & Hy); exists y;
      (split; [by apply Hker|done]). }
  destruct (decide_rel elem_of (g x) (g <$> l)) as [H1|H1],
    (decide_rel elem_of (h x) (h <$> l)) as [H2|H2]; simpl; try tauto.
  by rewrite IH.
Qed.

Lemma frameKey_shape (f1 f2 : FrameInfo) :
  frameKey f1 = frameKey f2 <-> frameShape f1 = frameShape f2.
Proof.
  split; [by intros [_ ?]%frameKey_inj|].
  unfold frameShape, frameKey. by intros [= -> -> ->].
Qed.

(** The number of collected patterns is the number of distinct shapes. *)
Lemma collectPatterns_size (fileFrames : gmap string (list FrameInfo)) :
  size (collectPatterns (map_to_list fileFrames)) =
  length (distinctShapes fileFrames).
Proof.
  unfold distinctShapes.
  rewrite <- (remove_dups_length_same_kernel frameKey frameShape)
    by apply frameKey_shape.
  rewrite <- (size_dom (D := gset string)), collectPatterns_observations.
  rewrite collectStep_dom by apply observations_unaccounted.
  rewrite dom_empty_L, (left_id_L ∅ (∪)).
  rewrite <- (size_list_to_set (C := gset string) (remove_dups _))
    by apply NoDup_remove_dups.
  f_equal. apply set_eq. intros k.
  by rewrite !elem_of_list_to_set, elem_of_remove_dups.
Qed.

(** *** The categorizing loop *)

Lemma map_size_1_singleton {V} (m : gmap string V) :
  size m = 1%nat -> exists k v, m = {[k := v]}.
Proof.
  intros Hsize. rewrite <- length_map_to_list in Hsize.
  destruct (map_to_list m) as [|[k v] [|? ?]] eqn:E; try done.
  exists k, v. rewrite <- (list_to_map_to_list m), E. done.
Qed.

Lemma categorize_common (n : nat) (cats : Categories) (p : UnaccountedFrame) :
  isCommon n p ->
  categorize n cats p =
    {| commonToAll := commonToAll cats ++ [p];
       uniqueFrames := uniqueFrames cats;
       partialFrames := partialFrames cats |}.
Proof. unfold categorize, isCommon. intros H. by rewrite decide_True. Qed.

Lemma categorize_partial (n : nat) (cats : Categories) (p : UnaccountedFrame) :
  isPartial n p ->
  categorize n cats p =
    {| commonToAll := commonToAll cats;
       uniqueFrames := uniqueFrames cats;
       partialFrames := partialFrames cats ++ [p] |}.
Proof.
  unfold categorize, isPartial. intros [H1 H2].
  by rewrite !decide_False.
Qed.

Lemma categorize_unique (n : nat) (cats : Categories) (p : UnaccountedFrame) :
  isUnique n p ->
  exists fn c,
    Occurrences p = {[fn := c]} /\
    categorize n cats p =
      {| commonToAll := commonToAll cats;
         uniqueFrames :=
           <[fn := default [] (uniqueFrames cats !! fn) ++ [p]]>
             (uniqueFrames cats);
         partialFrames := partialFrames cats |}.
Proof.
  unfold categorize, isUnique. intros [H1 H2].
  destruct (map_size_1_singleton _ H2) as (fn & c & E).
  exists fn, c. split; [done|].
  rewrite decide_False, decide_True by done.
  by rewrite E, map_to_list_singleton.
Qed.

Lemma category_cases (n : nat) (p : UnaccountedFrame) :
  (isCommon n p /\ ~ isUnique n p /\ ~ isPartial n p) \/
  (~ isCommon n p /\ isUnique n p /\ ~ isPartial n p) \/
  (~ isCommon n p /\ ~ isUnique n p /\ isPartial n p).
Proof.
  unfold isCommon, isUnique, isPartial.
  destruct (decide (size (Occurrences p) = n)),
    (decide (size (Occurrences p) = 1%nat)); tauto.
Qed.

(** The categories after the loop, for an arbitrary start. *)
Lemma categorize_fold (n : nat) (ps : list UnaccountedFrame)
    (cats : Categories) :
  let cats' := fold_left (categorize n) ps cats in
  commonToAll cats' = commonToAll cats ++ filter (isCommon n) ps /\
  partialFrames cats' = partialFrames cats ++ filter (isPartial n) ps /\
  (forall fn,
     uniqueFrames cats' !! fn =
       match uniqueFrames cats !! fn, filter (isUniqueTo n fn) ps with
       | None, [] => None
       | o, l => Some (default [] o ++ l)
       end).
Proof.
  revert cats. induction ps as [|p ps IH]; intros cats; simpl.
  { rewrite !app_nil_r. repeat split.
    intros fn. destruct (uniqueFrames cats !! fn); simpl; [|done].
    by rewrite app_nil_r. }
  destruct (IH (categorize n cats p)) as (IH1 & IH2 & IH3).
  rewrite IH1, IH2. rewrite !filter_cons.
  destruct (category_cases n p) as [(Hc & Hu & Hp)|[(Hc & Hu & Hp)|(Hc & Hu & Hp)]].
  - rewrite (categorize_common n cats p Hc) in *. simpl.
    rewrite decide_True, decide_False by done.
    rewrite <- !app_assoc. repeat split. intros fn. rewrite IH3. simpl.
    rewrite filter_cons, decide_False; [done|]. by intros [? _].
  - destruct (categorize_unique n cats p Hu) as (fn0 & c & Hocc & E).
    rewrite E in *. simpl.
    rewrite !decide_False by done. repeat split.
    intros fn. rewrite IH3. simpl. rewrite filter_cons.
    destruct (decide (fn = fn0)) as [->|Hne].
    + rewrite lookup_insert_eq.
      rewrite decide_True.
      2:{ split; [done|]. rewrite Hocc, lookup_singleton_eq. eauto. }
      destruct (uniqueFrames cats !! fn0); simpl;
        by rewrite <- ?app_assoc.
    + rewrite lookup_insert_ne by done.
      rewrite decide_False; [done|].
      intros [_ Hs]. rewrite Hocc, lookup_singleton_ne in Hs by done.
      by destruct Hs.
  - rewrite (categorize_partial n cats p Hp) in *. simpl.
    rewrite decide_False, decide_True by done.
    rewrite <- !app_assoc. repeat split. intros fn. rewrite IH3. simpl.
    rewrite filter_cons, decide_False; [done|]. by intros [? _].
Qed.

(** The categories after the loop. *)
Lemma categorizeAll_spec (n : nat) (ps : list UnaccountedFrame) :
  commonToAll (categorizeAll n ps) = filter (isCommon n) ps /\
  partialFrames (categorizeAll n ps) = filter (isPartial n) ps /\
  (forall fn,
     default [] (uniqueFrames (categorizeAll n ps) !! fn) =
       filter (isUniqueTo n fn) ps).
Proof.
  unfold categorizeAll.
  destruct (categorize_fold n ps
              {| commonToAll := []; uniqueFrames := ∅; partialFrames := [] |})
    as (H1 & H2 & H3).
  cbv zeta in *. simpl in *. repeat split; try done.
  intros fn. rewrite H3, lookup_empty.
  by destruct (filter (isUniqueTo n fn) ps).
Qed.

Lemma countUniqueFrames_insert
    (m : gmap string (list UnaccountedFrame)) (fn : string)
    (p : UnaccountedFrame) :
  countUniqueFrames (<[fn := default [] (m !! fn) ++ [p]]> m) =
  countUniqueFrames m + 1.
Proof.
  unfold countUniqueFrames.
  assert (Hcomm : forall (z1 z2 : list UnaccountedFrame) y,
            y + len z2 + len z1 = y + len z1 + len z2) by (intros; lia).
  destruct (m !! fn) as [l|] eqn:E; simpl.
  - rewrite (map_fold_delete_L _ _ fn l m); [|intros; apply Hcomm|done].
    rewrite <- insert_delete_eq.
    rewrite map_fold_insert_L; [|intros; apply Hcomm|apply lookup_delete_eq].
    unfold len. rewrite length_app. simpl. lia.
  - rewrite map_fold_insert_L; [|intros; apply Hcomm|done].
    unfold len. simpl. lia.
Qed.

Lemma countUniqueFrames_fold (n : nat) (ps : list UnaccountedFrame)
    (cats : Categories) :
  countUniqueFrames (uniqueFrames (fold_left (categorize n) ps cats)) =
  countUniqueFrames (uniqueFrames cats) + len (filter (isUnique n) ps).
Proof.
  revert cats. induction ps as [|p ps IH]; intros cats; simpl.
  { unfold len. simpl. lia. }
  rewrite IH, filter_cons.
  destruct (category_cases n p) as [(Hc & Hu & Hp)|[(Hc & Hu & Hp)|(Hc & Hu & Hp)]].
  - rewrite (categorize_common n cats p Hc). simpl.
    by rewrite decide_False.
  - destruct (categorize_unique n cats p Hu) as (fn0 & c & Hocc & E).
    rewrite E. simpl. rewrite countUniqueFrames_insert, decide_True by done.
    unfold len. simpl. lia.
  - rewrite (categorize_partial n cats p Hp). simpl.
    by rewrite decide_False.
Qed.

Lemma countUniqueFrames_spec (n : nat) (ps : list UnaccountedFrame) :
  countUniqueFrames (uniqueFrames (categorizeAll n ps)) =
  len (filter (isUnique n) ps).
Proof.
  unfold categorizeAll. rewrite countUniqueFrames_fold. simpl.
  unfold countUniqueFrames. by rewrite map_fold_empty.
Qed.

(** The three classes split any list of patterns. *)
Lemma categories_length (n : nat) (ps : list UnaccountedFrame) :
  (length (filter (isCommon n) ps) + length (filter (isUnique n) ps)
   + length (filter (isPartial n) ps) = length ps)%nat.
Proof.
  induction ps as [|p ps IH]; [done|]. rewrite !filter_cons.
  destruct (category_cases n p) as [(Hc & Hu & Hp)|[(Hc & Hu & Hp)|(Hc & Hu & Hp)]];
    repeat case_decide; try tauto; simpl; lia.
Qed.

(** *** The order of the report *)

Lemma lexLess_strict_total {X Y} `{EqDecision X}
    (lx : X -> X -> bool) (ly : Y -> Y -> bool) :
  StrictTotal lx -> StrictTotal ly -> StrictTotal (lexLess lx ly).
Proof.
  intros [ax nx tx] [ay ny ty]. split; unfold lexLess.
  - intros [x1 y1] [x2 y2]; simpl.
    repeat case_decide; try congruence; auto.
  - intros [x1 y1] [x2 y2] [x3 y3]; simpl.
    repeat case_decide; subst; try congruence; eauto;
      intros H12 H23; exfalso; eauto.
  - intros [x1 y1] [x2 y2]; simpl.
    repeat case_decide; subst; try congruence;
      intros H12 H21; [f_equal; auto | exfalso; eauto].
Qed.

Lemma string_ltb_strict_total : StrictTotal String.ltb.
Proof.
  split.
  - apply string_ltb_asym.
  - apply string_ltb_negtrans.
  - apply string_ltb_total.
Qed.

Lemma byte_to_N_inj (a b : byte) : Byte.to_N a = Byte.to_N b -> a = b.
Proof.
  intros E. pose proof (Byte.of_to_N a) as Ha.
  rewrite E, Byte.of_to_N in Ha. by injection Ha.
Qed.

Lemma byteLess_strict_total : StrictTotal byteLess.
Proof.
  unfold byteLess. split.
  - intros x y. rewrite N.ltb_lt, N.ltb_ge. lia.
  - intros x y z. rewrite !N.ltb_ge. lia.
  - intros x y. rewrite !N.ltb_ge. intros. apply byte_to_N_inj. lia.
Qed.

Lemma patternLess_lex (a b : UnaccountedFrame) :
  patternLess a b =
  lexLess String.ltb (lexLess byteLess String.ltb)
    (patternFields a) (patternFields b).
Proof. reflexivity. Qed.

Lemma patternLess_strict_total :
  StrictTotal (lexLess String.ltb (lexLess byteLess String.ltb)).
Proof.
  apply lexLess_strict_total; [apply string_ltb_strict_total|].
  apply lexLess_strict_total;
    [apply byteLess_strict_total | apply string_ltb_strict_total].
Qed.

Lemma patternLess_asym (a b : UnaccountedFrame) :
  patternLess a b = true -> patternLess b a = false.
Proof. rewrite !patternLess_lex. apply patternLess_strict_total. Qed.

Lemma patternLess_negtrans (a b c : UnaccountedFrame) :
  patternLess a b = false -> patternLess b c = false ->
  patternLess a c = false.
Proof. rewrite !patternLess_lex. apply patternLess_strict_total. Qed.

Lemma patternLess_total (a b : UnaccountedFrame) :
  patternLess a b = false -> patternLess b a = false ->
  patternKeyOf a = patternKeyOf b.
Proof.
  rewrite !patternLess_lex. intros H1 H2.
  pose proof (st_total _ patternLess_strict_total _ _ H1 H2) as E.
  unfold patternFields in E. injection E as E1 E2 E3.
  unfold patternKeyOf. by rewrite E1, E2, E3.
Qed.

Lemma patternLess_spec (a b : UnaccountedFrame) :
  patternLess a b = true <-> patternLt a b.
Proof.
  unfold patternLess, patternLt.
  destruct (decide (PatID a = PatID b)) as [E|Hne].
  - rewrite E, string_ltb_irrefl.
    destruct (decide (PatHeader a = PatHeader b)) as [E'|Hne'].
    + rewrite E'. split; [by auto 6|].
      intros [?|[_ [?|[_ ?]]]]; [done| |done]. lia.
    + rewrite N.ltb_lt. split; [by auto|].
      intros [?|[_ [?|[? _]]]]; done.
  - split; [by left|]. by intros [?|[? _]].
Qed.

(** *** The patterns of the collected map *)

Lemma collected_values_key (rangeFiles : list (string * list FrameInfo))
    (x y : UnaccountedFrame) :
  x ∈ (map_to_list (collectPatterns rangeFiles)).*2 ->
  y ∈ (map_to_list (collectPatterns rangeFiles)).*2 ->
  patternKeyOf x = patternKeyOf y -> x = y.
Proof.
  intros ([kx px] & -> & Hx)%list_elem_of_fmap
         ([ky py] & -> & Hy)%list_elem_of_fmap. simpl.
  apply elem_of_map_to_list in Hx, Hy.
  destruct (collectPatterns_entry _ _ _ Hx) as (Ex & _).
  destruct (collectPatterns_entry _ _ _ Hy) as (Ey & _).
  intros E. rewrite <- Ex, <- Ey in E. subst ky. congruence.
Qed.

Lemma collected_values_NoDup (rangeFiles : list (string * list FrameInfo)) :
  NoDup (map_to_list (collectPatterns rangeFiles)).*2.
Proof.
  apply NoDup_fmap_2_strong; [|apply NoDup_map_to_list].
  intros [kx px] [ky py] Hx Hy. simpl. intros <-.
  apply elem_of_map_to_list in Hx, Hy.
  destruct (collectPatterns_entry _ _ _ Hx) as (Ex & _).
  destruct (collectPatterns_entry _ _ _ Hy) as (Ey & _).
  congruence.
Qed.

(** Sorting a class of collected patterns does not depend on the order in
    which the categorizing loop met them. *)
Lemma sortFramesByID_unique (rangeFiles : list (string * list FrameInfo))
    (l1 l2 : list UnaccountedFrame) :
  l1 ≡ₚ l2 ->
  (forall x, x ∈ l1 -> x ∈ (map_to_list (collectPatterns rangeFiles)).*2) ->
  sortFramesByID l1 = sortFramesByID l2.
Proof.
  intros Hperm Hsub. unfold sortFramesByID.
  apply (sortSlice_unique patternLess (fun _ => True)); auto.
  - intros x y _ _. apply patternLess_asym.
  - intros x y z _ _ _. apply patternLess_negtrans.
  - by apply Forall_forall.
  - intros x y Hx Hy H1 H2.
    apply (collected_values_key rangeFiles); auto.
    by apply patternLess_total.
Qed.

Lemma sorted_strict {A} (less : A -> A -> bool) (l : list A) :
  StronglySorted (fun a b => less b a = false) l ->
  NoDup l ->
  (forall x y, x ∈ l -> y ∈ l ->
     less x y = false -> less y x = false -> x = y) ->
  StronglySorted (fun a b => less a b = true) l.
Proof.
  induction 1 as [|x l Hs IH Hx]; intros Hnd Htot; [constructor|].
  apply NoDup_cons in Hnd as [Hnotin Hnd].
  constructor.
  - apply IH; [done|]. intros a b Ha Hb. apply Htot; by right.
  - rewrite Forall_forall in Hx |- *. intros y Hy.
    destruct (less x y) eqn:E; [done|]. exfalso.
    assert (x = y) as -> by (apply Htot; [left|by right|done|by apply Hx]).
    done.
Qed.

(** A sorted class of collected patterns is strictly ascending. *)
Lemma sortFramesByID_sorted (rangeFiles : list (string * list FrameInfo))
    (l : list UnaccountedFrame) :
  NoDup l ->
  (forall x, x ∈ l -> x ∈ (map_to_list (collectPatterns rangeFiles)).*2) ->
  StronglySorted patternLt (sortFramesByID l).
Proof.
  intros Hnd Hsub. unfold sortFramesByID.
  apply (StronglySorted_impl_on (fun a b => patternLess a b = true) patternLt
           (fun _ => True)).
  - intros a b _ _. apply patternLess_spec.
  - by apply Forall_forall.
  - apply sorted_strict.
    + apply (sortSlice_sorted patternLess (fun _ => True)).
      * intros x y _ _. apply patternLess_asym.
      * intros x y z _ _ _. apply patternLess_negtrans.
      * by apply Forall_forall.
    + by rewrite sortSlice_perm.
    + intros x y Hx Hy H1 H2.
      apply (proj1 (sortSlice_elem_of _ _ _)) in Hx.
      apply (proj1 (sortSlice_elem_of _ _ _)) in Hy.
      apply (collected_values_key rangeFiles); auto.
      by apply patternLess_total.
Qed.

(** *** The report *)

Lemma uniqueBlocks_spec (n : nat) (ps : list UnaccountedFrame)
    (filenames : list string) :
  uniqueBlocks (uniqueFrames (categorizeAll n ps)) filenames =
  omap (fun fn =>
          match filter (isUniqueTo n fn) ps with
          | [] => None
          | l => Some (fn, sortFramesByID l)
          end) filenames.
Proof.
  unfold uniqueBlocks. destruct (categorizeAll_spec n ps) as (_ & _ & Hu).
  induction filenames as [|fn filenames IH]; [done|]. csimpl.
  rewrite IH, Hu.
  destruct (filter (isUniqueTo n fn) ps) as [|p l]; [done|].
  rewrite decide_True; [done|]. unfold len. simpl. lia.
Qed.

(** The printed categories and counts for two visiting orders of the same
    collected patterns. *)
Lemma report_of_patterns_perm (rangeFiles : list (string * list FrameInfo))
    (n : nat) (filenames : list string) (ps1 ps2 : list UnaccountedFrame) :
  ps1 ≡ₚ ps2 ->
  ps1 ≡ₚ (map_to_list (collectPatterns rangeFiles)).*2 ->
  sortFramesByID (commonToAll (categorizeAll n ps1)) =
    sortFramesByID (commonToAll (categorizeAll n ps2)) /\
  uniqueBlocks (uniqueFrames (categorizeAll n ps1)) filenames =
    uniqueBlocks (uniqueFrames (categorizeAll n ps2)) filenames /\
  sortFramesByID (partialFrames (categorizeAll n ps1)) =
    sortFramesByID (partialFrames (categorizeAll n ps2)) /\
  len (commonToAll (categorizeAll n ps1)) =
    len (commonToAll (categorizeAll n ps2)) /\
  countUniqueFrames (uniqueFrames (categorizeAll n ps1)) =
    countUniqueFrames (uniqueFrames (categorizeAll n ps2)) /\
  len (partialFrames (categorizeAll n ps1)) =
    len (partialFrames (categorizeAll n ps2)).
Proof.
  intros Hperm Hvals.
  destruct (categorizeAll_spec n ps1) as (Hc1 & Hp1 & _).
  destruct (categorizeAll_spec n ps2) as (Hc2 & Hp2 & _).
  rewrite Hc1, Hc2, Hp1, Hp2, !countUniqueFrames_spec, !uniqueBlocks_spec.
  assert (Hsort : forall (Q : UnaccountedFrame -> Prop)
                    `{forall x, Decision (Q x)},
            sortFramesByID (filter Q ps1) = sortFramesByID (filter Q ps2)).
  { intros Q HQ. apply (sortFramesByID_unique rangeFiles).
    - by rewrite Hperm.
    - intros x [_ Hx]%list_elem_of_filter. by rewrite <- Hvals. }
  repeat split.
  - apply Hsort.
  - induction filenames as [|fn filenames IH]; [done|]. csimpl.
    rewrite IH.
    assert (filter (isUniqueTo n fn) ps1 ≡ₚ filter (isUniqueTo n fn) ps2)
      as Hf by (by rewrite Hperm).
    pose proof (Hsort (isUniqueTo n fn) _) as Hs.
    destruct (filter (isUniqueTo n fn) ps1) as [|p1 l1],
      (filter (isUniqueTo n fn) ps2) as [|p2 l2]; try done.
    + by apply Permutation_nil_cons in Hf.
    + symmetry in Hf. by apply Permutation_nil_cons in Hf.
    + by rewrite Hs.
  - apply Hsort.
  - unfold len. by rewrite Hperm.
  - unfold len. by rewrite Hperm.
  - unfold len. by rewrite Hperm.
Qed.

(** Every run prints the report of the run that visits the maps in the
    order of [map_to_list]. *)
Lemma CompareRun_canonical (fileFrames : gmap string (list FrameInfo))
    (r : Report) :
  CompareRun fileFrames r -> r = compareReport fileFrames.
Proof.
  intros (rf1 & rf2 & rp & H1 & H2 & Hp & ->).
  unfold compareReport, CompareUnaccountedFrames.
  rewrite (collectPatterns_perm _ _ H1) in Hp |- *.
  assert (sortStrings rf2.*1 = sortStrings (map_to_list fileFrames).*1) as ->.
  { apply sortStrings_unique. by rewrite H2. }
  set (files := map_to_list fileFrames) in *.
  set (n := length (sortStrings files.*1)).
  destruct (report_of_patterns_perm files n (sortStrings files.*1)
              rp.*2 (map_to_list (collectPatterns files)).*2)
    as (E1 & E2 & E3 & E4 & E5 & E6); [by rewrite Hp..|].
  by rewrite E1, E2, E3, E4, E5, E6.
Qed.

Lemma compareReport_run (fileFrames : gmap string (list FrameInfo)) :
  CompareRun fileFrames (compareReport fileFrames).
Proof.
  exists (map_to_list fileFrames), (map_to_list fileFrames),
    (map_to_list (collectPatterns (map_to_list fileFrames))).
  by repeat split.
Qed.

Lemma filenames_length (fileFrames : gmap string (list FrameInfo)) :
  length (sortStrings (map_to_list fileFrames).*1) = size fileFrames.
Proof.
  by rewrite sortStrings_perm, length_fmap, length_map_to_list.
Qed.

(** C8.  Any two runs of the comparison on the same sources print the same
    report, whatever the order in which the sources are folded into the
    pattern map and the patterns are categorized; and in the report the
    common patterns, each block of patterns unique to a file, and the
    partial patterns are strictly ascending by CAN ID as text, then header
    byte as a number, then payload hex as text. *)
Theorem compare_report_deterministic
    (fileFrames : gmap string (list FrameInfo)) (r1 r2 : Report) :
  CompareRun fileFrames r1 ->
  CompareRun fileFrames r2 ->
  r1 = r2 /\
  StronglySorted patternLt (reportCommon r1) /\
  Forall (fun block => StronglySorted patternLt block.2) (reportUnique r1) /\
  StronglySorted patternLt (reportPartial r1).
Proof.
  intros Hr1 Hr2.
  rewrite (CompareRun_canonical _ _ Hr1), (CompareRun_canonical _ _ Hr2).
  split; [done|].
  unfold compareReport, CompareUnaccountedFrames. simpl.
  set (files := map_to_list fileFrames).
  set (n := length (sortStrings files.*1)).
  set (ps := (map_to_list (collectPatterns files)).*2).
  destruct (categorizeAll_spec n ps) as (Hc & Hp & _).
  rewrite Hc, Hp, uniqueBlocks_spec.
  assert (Hsorted : forall (Q : UnaccountedFrame -> Prop)
                      `{forall x, Decision (Q x)},
            StronglySorted patternLt (sortFramesByID (filter Q ps))).
  { intros Q HQ. apply (sortFramesByID_sorted files).
    - apply NoDup_filter, collected_values_NoDup.
    - by intros x [_ Hx]%list_elem_of_filter. }
  repeat split; [apply Hsorted| |apply Hsorted].
  apply Forall_forall. intros [fn l] (fn' & _ & Hl)%list_elem_of_omap.
  pose proof (Hsorted (isUniqueTo n fn') _) as Hs.
  destruct (filter (isUniqueTo n fn') ps); [done|].
  injection Hl as <- <-. done.
Qed.

Lemma compare_report_deterministic_witness :
  compareReport SampleCompare.fileFrames = SampleCompare.reversedRun /\
  StronglySorted patternLt
    (reportCommon (compareReport SampleCompare.fileFrames)) /\
  Forall (fun block => StronglySorted patternLt block.2)
    (reportUnique (compareReport SampleCompare.fileFrames)) /\
  StronglySorted patternLt
    (reportPartial (compareReport SampleCompare.fileFrames)).
Proof.
  apply (compare_report_deterministic SampleCompare.fileFrames).
  - apply compareReport_run.
  - exists (reverse (map_to_list SampleCompare.fileFrames)),
      (map_to_list SampleCompare.fileFrames),
      (reverse (map_to_list
                  (collectPatterns
                     (reverse (map_to_list SampleCompare.fileFrames))))).
    repeat split; try done; apply reverse_Permutation.
Defined.

(** *** The categories as a partition *)

Lemma bind_cond {A B} (Q : A -> Prop) `{forall x, Decision (Q x)}
    (g : A -> list B) (b : B) (l : list A) :
  l ≫= (fun x => if decide (Q x) then b :: g x else g x)
  ≡ₚ (filter Q l ≫= fun _ => [b]) ++ (l ≫= g).
Proof.
  induction l as [|x l IH]; [done|].
  rewrite !bind_cons, filter_cons, IH.
  destruct (decide (Q x)).
  - rewrite bind_cons. simpl. f_equiv.
    by rewrite !app_assoc, (Permutation_app_comm (g x)).
  - by rewrite !app_assoc, (Permutation_app_comm (g x)).
Qed.

Lemma filter_only {A} `{EqDecision A} (Q : A -> Prop)
    `{forall x, Decision (Q x)} (l : list A) (x0 : A) :
  NoDup l -> x0 ∈ l -> (forall x, Q x <-> x = x0) -> filter Q l = [x0].
Proof.
  intros Hnd Hin HQ. induction Hnd as [|x l Hx Hnd IH]; [by inversion Hin|].
  rewrite filter_cons. destruct (decide (Q x)) as [Hq|Hq].
  - apply HQ in Hq as ->. f_equal.
    apply elem_of_nil_inv. intros y [Hy Hyl]%list_elem_of_filter.
    apply HQ in Hy as ->. done.
  - apply IH. apply elem_of_cons in Hin as [->|?]; [|done].
    destruct Hq. by apply HQ.
Qed.

Lemma filter_none {A} (Q : A -> Prop) `{forall x, Decision (Q x)}
    (l : list A) :
  (forall x, ~ Q x) -> filter Q l = [].
Proof.
  intros HQ. apply elem_of_nil_inv.
  intros x [Hx _]%list_elem_of_filter. by apply (HQ x).
Qed.

(** The patterns unique to the files, file by file, are the patterns seen
    in exactly one file. *)
Lemma unique_by_file (n : nat) (filenames : list string)
    (ps : list UnaccountedFrame) :
  NoDup filenames ->
  (forall p fn, p ∈ ps -> is_Some (Occurrences p !! fn) -> fn ∈ filenames) ->
  filenames ≫= (fun fn => filter (isUniqueTo n fn) ps)
  ≡ₚ filter (isUnique n) ps.
Proof.
  intros Hnd Hfiles. induction ps as [|p ps IH].
  { clear. induction filenames as [|fn l IH]; [done|].
    by rewrite bind_cons, IH. }
  assert (Hps : forall p fn,
            p ∈ ps -> is_Some (Occurrences p !! fn) -> fn ∈ filenames).
  { intros q fn Hq. apply Hfiles. by right. }
  specialize (IH Hps).
  change (filenames ≫= (fun fn => filter (isUniqueTo n fn) (p :: ps)))
    with (filenames ≫= (fun fn => if decide (isUniqueTo n fn p)
                                  then p :: filter (isUniqueTo n fn) ps
                                  else filter (isUniqueTo n fn) ps)).
  rewrite (bind_cond (fun fn => isUniqueTo n fn p)), IH, filter_cons.
  destruct (decide (isUnique n p)) as [Hu|Hu].
  - destruct Hu as [Hn H1].
    destruct (map_size_1_singleton _ H1) as (fn0 & c & Hocc).
    rewrite (filter_only _ _ fn0); [done|done| |].
    + apply (Hfiles p); [left|]. rewrite Hocc, lookup_singleton_eq. eauto.
    + intros fn. unfold isUniqueTo, isUnique. rewrite Hocc. split.
      * intros [_ [v Hv]]. apply lookup_singleton_Some in Hv. by destruct Hv.
      * intros ->. rewrite lookup_singleton_eq. rewrite <- Hocc. eauto.
  - rewrite filter_none; [done|]. intros fn [? _]. done.
Qed.

Lemma unique_blocks_concat (n : nat) (filenames : list string)
    (ps : list UnaccountedFrame) :
  concat (omap (fun fn =>
                  match filter (isUniqueTo n fn) ps with
                  | [] => None
                  | l => Some (fn, sortFramesByID l)
                  end) filenames).*2
  ≡ₚ filenames ≫= (fun fn => filter (isUniqueTo n fn) ps).
Proof.
  induction filenames as [|fn filenames IH]; [done|].
  rewrite bind_cons. csimpl.
  destruct (filter (isUniqueTo n fn) ps) as [|p l] eqn:E.
  - apply IH.
  - rewrite fmap_cons. simpl. rewrite IH.
    by apply (Permutation_app (sortSlice_perm patternLess (p :: l))).
Qed.

Lemma elem_of_concat {A} (x : A) (ls : list (list A)) :
  x ∈ concat ls <-> exists l, x ∈ l /\ l ∈ ls.
Proof.
  rewrite list_elem_of_In, in_concat. split.
  - intros (l & Hl & Hx). exists l. by rewrite !list_elem_of_In.
  - intros (l & Hx & Hl). exists l. by rewrite <- !list_elem_of_In.
Qed.

(** The three classes split the patterns. *)
Lemma categories_split (n : nat) (ps : list UnaccountedFrame) :
  filter (isCommon n) ps ++ filter (isUnique n) ps ++ filter (isPartial n) ps
  ≡ₚ ps.
Proof.
  induction ps as [|p ps IH]; [done|]. rewrite !filter_cons.
  destruct (category_cases n p)
    as [(Hc & Hu & Hp)|[(Hc & Hu & Hp)|(Hc & Hu & Hp)]];
    repeat case_decide; try tauto; simpl.
  - by rewrite IH.
  - rewrite <- Permutation_middle. by rewrite IH.
  - rewrite app_assoc, <- Permutation_middle, <- app_assoc. by rewrite IH.
Qed.

(** C7.  For at least two sources and any run of the comparison: a
    collected pattern is printed as common iff its occurrence map has as
    many keys as there are sources, in a block of unique patterns iff it
    has exactly one key (and then in the block of that file), as partial
    otherwise; the three printed categories together are a rearrangement of
    the collected patterns, each printed once; and the counts of the
    summary add up to the number of patterns, which is the number of
    distinct (ID, header, payload) shapes among the unaccounted frames of
    all sources. *)
Theorem categories_partition
    (fileFrames : gmap string (list FrameInfo)) (r : Report) :
  (2 <= size fileFrames)%nat ->
  CompareRun fileFrames r ->
  let patterns :=
    (map_to_list (collectPatterns (map_to_list fileFrames))).*2 in
  (forall p, p ∈ reportCommon r <->
     p ∈ patterns /\ size (Occurrences p) = size fileFrames) /\
  (forall p, (exists block, block ∈ reportUnique r /\ p ∈ block.2) <->
     p ∈ patterns /\ size (Occurrences p) = 1%nat) /\
  (forall block p, block ∈ reportUnique r -> p ∈ block.2 ->
     exists c, Occurrences p = {[block.1 := c]}) /\
  (forall p, p ∈ reportPartial r <->
     p ∈ patterns /\ size (Occurrences p) <> size fileFrames /\
     size (Occurrences p) <> 1%nat) /\
  reportCommon r ++ concat (reportUnique r).*2 ++ reportPartial r
    ≡ₚ patterns /\
  commonCount r = len (reportCommon r) /\
  uniqueCount r = len (concat (reportUnique r).*2) /\
  partialCount r = len (reportPartial r) /\
  commonCount r + uniqueCount r + partialCount r = totalPatterns r /\
  totalPatterns r = len (distinctShapes fileFrames).
Proof.
  intros Hsize Hrun patterns.
  rewrite (CompareRun_canonical _ _ Hrun).
  unfold compareReport, CompareUnaccountedFrames. simpl.
  rewrite filenames_length. fold patterns.
  set (n := size fileFrames) in *.
  set (filenames := sortStrings (map_to_list fileFrames).*1).
  destruct (categorizeAll_spec n patterns) as (Hc & Hp & _).
  rewrite Hc, Hp, uniqueBlocks_spec, countUniqueFrames_spec.
  assert (Hnd : NoDup filenames).
  { unfold filenames. rewrite sortStrings_perm. apply NoDup_fst_map_to_list. }
  assert (Hfiles : forall p fn, p ∈ patterns ->
            is_Some (Occurrences p !! fn) -> fn ∈ filenames).
  { intros p fn ([k p'] & -> & Hin)%list_elem_of_fmap Hsome.
    apply elem_of_map_to_list in Hin.
    destruct (collectPatterns_entry _ _ _ Hin) as (_ & _ & _ & Hf).
    unfold filenames. rewrite sortStrings_perm. by apply Hf. }
  assert (Hblocks :
    concat (omap (fun fn =>
                    match filter (isUniqueTo n fn) patterns with
                    | [] => None
                    | l => Some (fn, sortFramesByID l)
                    end) filenames).*2
    ≡ₚ filter (isUnique n) patterns).
  { by rewrite unique_blocks_concat, unique_by_file. }
  assert (Huniq : forall p, isUnique n p <-> size (Occurrences p) = 1%nat).
  { intros p. unfold isUnique. split; [by intros [_ ?]|]. intros H1.
    split; [|done]. rewrite H1. lia. }
  assert (Hmem : forall (Q : UnaccountedFrame -> Prop)
                   `{forall x, Decision (Q x)} p,
            p ∈ sortFramesByID (filter Q patterns) <-> p ∈ patterns /\ Q p).
  { intros Q HQ p. unfold sortFramesByID.
    rewrite sortSlice_elem_of, list_elem_of_filter. tauto. }
  split; [|split; [|split; [|split; [|split; [|split; [|split;
    [|split; [|split]]]]]]]].
  - intros p. rewrite Hmem. done.
  - intros p. rewrite <- Huniq. split.
    + intros (block & Hb & Hin).
      assert (p ∈ filter (isUnique n) patterns) as Hp'.
      { rewrite <- Hblocks. apply elem_of_concat.
        exists block.2. split; [done|].
        apply list_elem_of_fmap. by exists block. }
      apply list_elem_of_filter in Hp'. tauto.
    + intros [Hin Hu].
      assert (p ∈ concat (omap (fun fn =>
                    match filter (isUniqueTo n fn) patterns with
                    | [] => None
                    | l => Some (fn, sortFramesByID l)
                    end) filenames).*2) as Hp'.
      { rewrite Hblocks. by apply list_elem_of_filter. }
      apply elem_of_concat in Hp' as (l & Hl & Hb).
      apply list_elem_of_fmap in Hb as (block & -> & Hb). eauto.
  - intros [fn l] p (fn' & _ & Hb)%list_elem_of_omap Hin. simpl in *.
    destruct (filter (isUniqueTo n fn') patterns) as [|q qs] eqn:E; [done|].
    injection Hb as <- <-. rewrite <- E in Hin.
    unfold sortFramesByID in Hin.
    apply (proj1 (sortSlice_elem_of _ _ _)) in Hin.
    apply list_elem_of_filter in Hin as [[[_ H1] [v Hv]] _].
    destruct (map_size_1_singleton _ H1) as (fn0 & c & Hocc).
    rewrite Hocc in Hv. apply lookup_singleton_Some in Hv as [<- _].
    by exists c.
  - intros p. rewrite Hmem. unfold isPartial. tauto.
  - rewrite Hblocks. unfold sortFramesByID. rewrite !sortSlice_perm.
    apply categories_split.
  - unfold len, sortFramesByID. by rewrite sortSlice_perm.
  - unfold len. by rewrite Hblocks.
  - unfold len, sortFramesByID. by rewrite sortSlice_perm.
  - pose proof (categories_length n patterns) as Hlen.
    unfold len, patterns in *.
    rewrite length_fmap, length_map_to_list in Hlen. lia.
  - unfold len. f_equal. apply collectPatterns_size.
Qed.

Lemma categories_partition_witness :
  commonCount (compareReport SampleCompare.fileFrames)
  + uniqueCount (compareReport SampleCompare.fileFrames)
  + partialCount (compareReport SampleCompare.fileFrames)
  = totalPatterns (compareReport SampleCompare.fileFrames) /\
  totalPatterns (compareReport SampleCompare.fileFrames)
  = len (distinctShapes SampleCompare.fileFrames).
Proof.
  destruct (categories_partition SampleCompare.fileFrames
              (compareReport SampleCompare.fileFrames))
    as (_ & _ & _ & _ & _ & _ & _ & _ & Hsum & Htotal).
  - vm_compute. lia.
  - apply compareReport_run.
  - by split.
Defined.

(** The report for the sample captures: the shape seen in the first two
    files is partial, with one occurrence in each. *)
Example sample_report :
  let r := compareReport SampleCompare.fileFrames in
  reportCommon r =
    [{| PatID := "200"; PatHeader := x60; DataHex := "60";
        Occurrences := {["a.log" := 1; "b.log" := 2; "c.log" := 1]} |}] /\
  reportUnique r =
    [("c.log",
      [{| PatID := "300"; PatHeader := x70; DataHex := "70";
          Occurrences := {["c.log" := 1]} |}])] /\
  reportPartial r =
    [{| PatID := "100"; PatHeader := x50; DataHex := "5001";
        Occurrences := {["a.log" := 1; "b.log" := 1]} |}] /\
  (totalPatterns r, commonCount r, uniqueCount r, partialCount r)
    = (3, 1, 1, 1).
Proof. by vm_compute. Qed.

(** ** The loop as a whole *)

Section LoopFacts.
Context {Item : Type}.
Variable decode : list byte -> DecodeResult Item.

Lemma rawFrame_state (fl : Flags) (st : Reassembly) (frame : CANFrame)
    (header : byte) :
  fst (rawFrame (Item:=Item) fl st frame header) =
    countHeartbeat (checkIfHeartbeat frame) st.
Proof.
  unfold rawFrame, analyzeRawFrame, checkIfHeartbeat.
  destruct (decide (ID frame = "14609460")) as [Hid|Hid].
  - rewrite Hid. simpl.
    destruct (Data frame) as [|b0 [|b1 [|b2 [|b3 ?]]]]; reflexivity.
  - destruct (String.prefix "01111" (ID frame)); simpl.
    + destruct (allZero (Data frame)); reflexivity.
    + destruct (decide (ID frame = "18209820")); [|reflexivity].
      destruct (Data frame); reflexivity.
Qed.

Lemma framingStep_state (fl : Flags) (st : Reassembly) (frame : CANFrame)
    (header : byte) (payload : list byte) :
  fst (framingStep decode fl st frame header payload) =
  fst (groupedStep decode st frame header payload).
Proof.
  unfold framingStep, groupedStep, groupedAbsorb.
  destruct (isStartHeader header) eqn:Hs.
  - simpl. rewrite countHeartbeat_false.
    destruct (tryDecode decode _) as [st2 out2] eqn:Ht. simpl.
    change st2 with (fst (st2, out2)). rewrite <- Ht.
    apply tryDecode_fst.
  - destruct (isContinuationHeader header) eqn:Hc.
    + simpl. rewrite countHeartbeat_false.
      destruct (tryDecode decode _) as [st2 out2] eqn:Ht. simpl.
      change st2 with (fst (st2, out2)). rewrite <- Ht.
      apply tryDecode_fst.
    + simpl. rewrite rawFrame_state. reflexivity.
Qed.

Lemma processFrame_state (fl fl' : Flags) (st : Reassembly) (frame : CANFrame) :
  fst (processFrame decode fl st frame) = fst (processFrame decode fl' st frame).
Proof.
  unfold processFrame. destruct (Data frame) as [|header payload]; [done|].
  destruct (groupByID fl), (groupByID fl');
    rewrite ?framingStep_state; reflexivity.
Qed.

Lemma mainLoop_state (fl fl' : Flags) (frames : list CANFrame)
    (st : Reassembly) :
  fst (mainLoop decode fl st frames) = fst (mainLoop decode fl' st frames).
Proof.
  revert st. induction frames as [|f rest IH]; intros st; [done|].
  rewrite !mainLoop_cons. simpl.
  rewrite (processFrame_state fl fl'). apply IH.
Qed.

Lemma processFrame_grouped_silent (fl : Flags) (st : Reassembly)
    (frame : CANFrame) :
  groupByID fl = true -> snd (processFrame decode fl st frame) = [].
Proof.
  intros Hg. unfold processFrame. rewrite Hg.
  destruct (Data frame); reflexivity.
Qed.

Lemma mainLoop_grouped_silent (fl : Flags) (frames : list CANFrame)
    (st : Reassembly) :
  groupByID fl = true -> snd (mainLoop decode fl st frames) = [].
Proof.
  intros Hg. revert st. induction frames as [|f rest IH]; intros st; [done|].
  rewrite mainLoop_cons. simpl.
  rewrite processFrame_grouped_silent by done. apply IH.
Qed.

Lemma processFrame_no_data (fl : Flags) (st : Reassembly) (frame : CANFrame) :
  hasData frame = false -> processFrame decode fl st frame = (st, []).
Proof.
  unfold hasData, processFrame. destruct (Data frame); [done|discriminate].
Qed.

Lemma tryDecode_complete_le (st : Reassembly) :
  (length (List.filter isComplete (snd (tryDecode decode st))) <= 1)%nat.
Proof.
  unfold tryDecode. destruct (0 <? len (cborBuffer st)); [|simpl; lia].
  destruct (decode (cborBuffer st)); simpl; lia.
Qed.

Lemma printAccountedHeader_no_complete (fl : Flags) (frame : CANFrame)
    (header : byte) (frameType : string) :
  List.filter isComplete
    (printAccountedHeader (Item:=Item) fl frame header frameType) = [].
Proof.
  unfold printAccountedHeader.
  destruct (negb (unaccountedOnly fl) && negb (hideAccounted fl)); reflexivity.
Qed.

Lemma rawFrame_no_complete (fl : Flags) (st : Reassembly) (frame : CANFrame)
    (header : byte) :
  List.filter isComplete (snd (rawFrame (Item:=Item) fl st frame header)) = [].
Proof.
  unfold rawFrame, analyzeRawFrame.
  repeat match goal with
         | |- context [decide ?P] => destruct (decide P)
         | |- context [String.prefix ?a ?b] => destruct (String.prefix a b)
         | |- context [allZero ?d] => destruct (allZero d)
         | |- context [match Data frame with _ => _ end] =>
             destruct (Data frame) as [|? [|? [|? [|? ?]]]]
         | |- context [if ?b then _ else _] => destruct b
         end; reflexivity.
Qed.

Lemma processFrame_complete_le (fl : Flags) (st : Reassembly)
    (frame : CANFrame) :
  (length (List.filter isComplete (snd (processFrame decode fl st frame)))
   <= if isFraming frame then 1 else 0)%nat.
Proof.
  destruct (groupByID fl) eqn:Hg.
  { rewrite processFrame_grouped_silent by done. simpl.
    destruct (isFraming frame); lia. }
  unfold processFrame, isFraming, frameIsStart, frameIsContinuation.
  destruct (Data frame) as [|header payload]; [simpl; lia|].
  rewrite Hg. unfold framingStep.
  destruct (isStartHeader header) eqn:Hs; simpl.
  - destruct (tryDecode decode _) as [st2 out2] eqn:Ht. simpl.
    rewrite !List.filter_app, printAccountedHeader_no_complete.
    pose proof (tryDecode_complete_le
        (fst (absorbStart (Item:=Item) fl (countFrame st) frame header payload)))
        as Hle; simpl in Hle; rewrite Ht in Hle; simpl in Hle.
    destruct (0 <? len (cborBuffer st)); simpl; exact Hle.
  - destruct (isContinuationHeader header) eqn:Hc; simpl.
    + destruct (tryDecode decode _) as [st2 out2] eqn:Ht. simpl.
      rewrite !List.filter_app, printAccountedHeader_no_complete. simpl.
      pose proof (tryDecode_complete_le
        (fst (absorbContinuation (Item:=Item) fl (countFrame st) frame header
                payload))) as Hle.
      simpl in Hle; rewrite Ht in Hle; simpl in Hle; exact Hle.
    + rewrite rawFrame_no_complete. simpl. lia.
Qed.

End LoopFacts.

(** X1.  The display flags, group-by-ID among them, change what the loop
    prints and never what it computes: for every sequence of frames the
    buffer, the identifier, the frame count and the three counters after the
    loop are the same under any two settings of the flags. *)
Theorem flags_do_not_change_state {Item : Type}
    (decode : list byte -> DecodeResult Item) (fl fl' : Flags)
    (st : Reassembly) (frames : list CANFrame) :
  fst (mainLoop decode fl st frames) = fst (mainLoop decode fl' st frames).
Proof. apply mainLoop_state. Qed.

(** X2.  In group-by-ID mode the loop itself prints nothing, whatever the
    frames and the other flags are: no frame header, no progress line, no
    decoded message and no warning. *)
Theorem grouped_mode_prints_nothing {Item : Type}
    (decode : list byte -> DecodeResult Item)
    (unaccountedOnly hideUnaccounted hideAccounted : bool)
    (st : Reassembly) (frames : list CANFrame) :
  snd (mainLoop decode
         (mkFlags unaccountedOnly hideUnaccounted hideAccounted true)
         st frames) = [].
Proof. by apply mainLoop_grouped_silent. Qed.

(** X3.  Frames without data bytes are skipped before anything is counted:
    the loop returns the same state and prints the same records as on the
    sequence from which they have been removed. *)
Theorem frames_without_data_ignored {Item : Type}
    (decode : list byte -> DecodeResult Item) (fl : Flags)
    (st : Reassembly) (frames : list CANFrame) :
  mainLoop decode fl st frames =
  mainLoop decode fl st (List.filter hasData frames).
Proof.
  revert st. induction frames as [|f rest IH]; intros st; [done|].
  simpl List.filter. destruct (hasData f) eqn:Hd.
  - rewrite !mainLoop_cons, IH. reflexivity.
  - rewrite mainLoop_cons, processFrame_no_data by done. simpl.
    rewrite IH. by destruct (mainLoop decode fl st (List.filter hasData rest)).
Qed.

(** X4.  One frame yields at most one decoded message: after a successful
    decode the rest of the buffer is not tried again before the next START
    or continuation frame.  So the loop reports at most as many messages as
    it has seen START and continuation frames. *)
Theorem at_most_one_message_per_frame {Item : Type}
    (decode : list byte -> DecodeResult Item) (fl : Flags)
    (st : Reassembly) (frames : list CANFrame) :
  (length (List.filter isComplete (snd (mainLoop decode fl st frames)))
   <= length (List.filter isFraming frames))%nat.
Proof.
  revert st. induction frames as [|f rest IH]; intros st; [simpl; lia|].
  rewrite mainLoop_cons. simpl snd. rewrite List.filter_app, length_app.
  pose proof (processFrame_complete_le decode fl st f) as Hf.
  specialize (IH (fst (processFrame decode fl st f))).
  simpl List.filter. destruct (isFraming f); simpl length; lia.
Qed.

Section CounterFacts.
Context {Item : Type}.
Variable decode : list byte -> DecodeResult Item.

Lemma hasData_cons (frame : CANFrame) (header : byte) (payload : list byte) :
  Data frame = header :: payload -> hasData frame = true.
Proof. unfold hasData. by intros ->. Qed.

Lemma isFraming_cons (frame : CANFrame) (header : byte) (payload : list byte) :
  Data frame = header :: payload ->
  isFraming frame = isStartHeader header || isContinuationHeader header.
Proof.
  unfold isFraming, frameIsStart, frameIsContinuation. intros ->.
  by destruct (isStartHeader header), (isContinuationHeader header).
Qed.

Lemma isHeartbeatFrame_cons (frame : CANFrame) (header : byte)
    (payload : list byte) :
  Data frame = header :: payload ->
  isHeartbeatFrame frame =
    negb (isStartHeader header || isContinuationHeader header)
    && checkIfHeartbeat frame.
Proof.
  intros Hd. unfold isHeartbeatFrame.
  rewrite (classify_unfold frame header payload Hd).
  destruct (isStartHeader header), (isContinuationHeader header),
    (checkIfHeartbeat frame); reflexivity.
Qed.

Lemma isHeartbeatFrame_no_data (frame : CANFrame) :
  hasData frame = false -> isHeartbeatFrame frame = false.
Proof.
  unfold hasData, isHeartbeatFrame, classify, classifyFrame.
  destruct (Data frame); [done|discriminate].
Qed.

Lemma isFraming_no_data (frame : CANFrame) :
  hasData frame = false -> isFraming frame = false.
Proof.
  unfold hasData, isFraming, frameIsStart, frameIsContinuation.
  destruct (Data frame); [done|discriminate].
Qed.

Lemma groupedDecode_counts (st : Reassembly) (isCBOR : bool) :
  let st' := groupedDecode decode st isCBOR in
  heartbeatCount st' = heartbeatCount st /\
  totalFramesProcessed st' = totalFramesProcessed st /\
  (cborMessageCount st' = cborMessageCount st \/
   isCBOR = true /\ cborMessageCount st' = int_incr (cborMessageCount st)).
Proof.
  unfold groupedDecode. destruct isCBOR; simpl; [|tauto].
  destruct (0 <? len (cborBuffer st)); [|tauto].
  destruct (decode (cborBuffer st)); simpl; tauto.
Qed.

Lemma groupedAbsorb_counts (st : Reassembly) (frame : CANFrame)
    (header : byte) (payload : list byte) :
  let st' := groupedAbsorb st frame header payload in
  heartbeatCount st' = heartbeatCount st /\
  totalFramesProcessed st' = totalFramesProcessed st /\
  cborMessageCount st' = cborMessageCount st.
Proof.
  unfold groupedAbsorb.
  destruct (isStartHeader header); [done|].
  by destruct (isContinuationHeader header).
Qed.

(** The counters after one iteration. *)
Lemma processFrame_counts (fl : Flags) (st : Reassembly) (frame : CANFrame) :
  let st' := fst (processFrame decode fl st frame) in
  totalFramesProcessed st' =
    (if hasData frame then int_incr (totalFramesProcessed st)
     else totalFramesProcessed st) /\
  heartbeatCount st' =
    (if isHeartbeatFrame frame then int_incr (heartbeatCount st)
     else heartbeatCount st) /\
  (cborMessageCount st' = cborMessageCount st \/
   isFraming frame = true /\
   cborMessageCount st' = int_incr (cborMessageCount st)).
Proof.
  destruct (hasData frame) eqn:Hd; cycle 1.
  { rewrite processFrame_no_data by done.
    rewrite isHeartbeatFrame_no_data by done. simpl. tauto. }
  cbv zeta. rewrite (processFrame_state decode fl groupedFlags).
  unfold processFrame. unfold hasData in Hd.
  destruct (Data frame) as [|header payload] eqn:HD; [done|].
  rewrite (isHeartbeatFrame_cons frame header payload HD).
  rewrite (isFraming_cons frame header payload HD).
  simpl. unfold groupedStep. simpl.
  set (isCBOR := isStartHeader header || isContinuationHeader header).
  pose proof (groupedAbsorb_counts (countFrame st) frame header payload)
    as (Ha1 & Ha2 & Ha3).
  pose proof (groupedDecode_counts
                (groupedAbsorb (countFrame st) frame header payload) isCBOR)
    as (Hd1 & Hd2 & Hd3).
  cbv zeta in *. simpl in Ha1, Ha2, Ha3.
  rewrite Hd2, Ha2, Hd1, Ha1. rewrite Ha3 in Hd3.
  split; [done|]. split; [done|]. exact Hd3.
Qed.

Lemma int_incr_bounds (z : Z) : 0 <= z < int_max -> 0 <= int_incr z <= z + 1.
Proof. intros H. rewrite int_incr_small by done. lia. Qed.

Lemma mainLoop_counts (fl : Flags) (frames : list CANFrame) (st : Reassembly) :
  0 <= totalFramesProcessed st -> 0 <= heartbeatCount st ->
  0 <= cborMessageCount st ->
  totalFramesProcessed st + len frames <= int_max ->
  heartbeatCount st + len frames <= int_max ->
  cborMessageCount st + len frames <= int_max ->
  let st' := fst (mainLoop decode fl st frames) in
  totalFramesProcessed st' =
    totalFramesProcessed st + len (List.filter hasData frames) /\
  heartbeatCount st' =
    heartbeatCount st + len (List.filter isHeartbeatFrame frames) /\
  cborMessageCount st <= cborMessageCount st'
    <= cborMessageCount st + len (List.filter isFraming frames).
Proof.
  revert st. induction frames as [|f rest IH]; intros st Ht Hh Hm Bt Bh Bm.
  { simpl. unfold len. simpl. lia. }
  cbv zeta. rewrite mainLoop_cons. simpl fst.
  pose proof (processFrame_counts fl st f) as (Pt & Ph & Pm). cbv zeta in *.
  set (st1 := fst (processFrame decode fl st f)) in *.
  assert (Hlen : len (f :: rest) = 1 + len rest).
  { unfold len. simpl length. lia. }
  assert (Hrest : 0 <= len rest) by (unfold len; lia).
  rewrite Hlen in Bt, Bh, Bm.
  assert (Ht1 : totalFramesProcessed st <= totalFramesProcessed st1
                <= totalFramesProcessed st + 1).
  { rewrite Pt. destruct (hasData f); [|lia].
    rewrite int_incr_small by lia. lia. }
  assert (Hh1 : heartbeatCount st <= heartbeatCount st1
                <= heartbeatCount st + 1).
  { rewrite Ph. destruct (isHeartbeatFrame f); [|lia].
    rewrite int_incr_small by lia. lia. }
  assert (Hm1 : cborMessageCount st <= cborMessageCount st1
                <= cborMessageCount st + (if isFraming f then 1 else 0)).
  { destruct Pm as [->|[-> ->]]; [destruct (isFraming f); lia|].
    rewrite int_incr_small by lia. lia. }
  assert (Hm1' : cborMessageCount st1 <= cborMessageCount st + 1)
    by (destruct (isFraming f); lia).
  destruct (IH st1) as (It & Ih & Im); try lia.
  rewrite It, Ih. simpl List.filter.
  split; [|split].
  - rewrite Pt. destruct (hasData f).
    + rewrite int_incr_small by lia. unfold len. simpl length. lia.
    + lia.
  - rewrite Ph. destruct (isHeartbeatFrame f).
    + rewrite int_incr_small by lia. unfold len. simpl length. lia.
    + lia.
  - destruct (isFraming f); unfold len in *; simpl length; lia.
Qed.

(** The messages counted are the messages printed. *)
Lemma tryDecode_count_printed (st : Reassembly) :
  cborMessageCount (fst (tryDecode decode st)) =
    (if decide (List.filter isComplete (snd (tryDecode decode st)) = [])
     then cborMessageCount st else int_incr (cborMessageCount st)).
Proof.
  unfold tryDecode. destruct (0 <? len (cborBuffer st)); [|done].
  by destruct (decode (cborBuffer st)).
Qed.

Lemma processFrame_count_printed (fl : Flags) (st : Reassembly)
    (frame : CANFrame) :
  groupByID fl = false ->
  cborMessageCount (fst (processFrame decode fl st frame)) =
    (if decide (List.filter isComplete (snd (processFrame decode fl st frame))
                = [])
     then cborMessageCount st else int_incr (cborMessageCount st)).
Proof.
  intros Hg. unfold processFrame.
  destruct (Data frame) as [|header payload]; [done|].
  rewrite Hg. unfold framingStep.
  destruct (isStartHeader header) eqn:Hs.
  - pose proof (tryDecode_count_printed
      (fst (absorbStart (Item:=Item) fl (countFrame st) frame header payload)))
      as Hc.
    simpl in *. destruct (tryDecode decode _) as [st2 out2]. simpl in *.
    rewrite !List.filter_app, printAccountedHeader_no_complete.
    destruct (0 <? len (cborBuffer st)); simpl; exact Hc.
  - destruct (isContinuationHeader header) eqn:Hc'.
    + pose proof (tryDecode_count_printed
        (fst (absorbContinuation (Item:=Item) fl (countFrame st) frame header
                payload))) as Hc.
      simpl in *. destruct (tryDecode decode _) as [st2 out2]. simpl in *.
      rewrite !List.filter_app, printAccountedHeader_no_complete. simpl.
      exact Hc.
    + rewrite rawFrame_no_complete, rawFrame_state. simpl.
      by destruct (checkIfHeartbeat frame).
Qed.

Lemma mainLoop_count_printed (fl : Flags) (frames : list CANFrame)
    (st : Reassembly) :
  groupByID fl = false ->
  0 <= cborMessageCount st ->
  cborMessageCount st + len frames <= int_max ->
  cborMessageCount (fst (mainLoop decode fl st frames)) =
    cborMessageCount st
    + len (List.filter isComplete (snd (mainLoop decode fl st frames))).
Proof.
  intros Hg. revert st.
  induction frames as [|f rest IH]; intros st Hm Bm.
  { simpl. unfold len. simpl. lia. }
  rewrite mainLoop_cons. simpl fst. simpl snd.
  assert (Hlen : len (f :: rest) = 1 + len rest).
  { unfold len. simpl length. lia. }
  assert (Hrest : 0 <= len rest) by (unfold len; lia).
  rewrite Hlen in Bm.
  pose proof (processFrame_count_printed fl st f Hg) as Hp.
  pose proof (processFrame_complete_le decode fl st f) as Hle.
  set (st1 := fst (processFrame decode fl st f)) in *.
  set (out1 := snd (processFrame decode fl st f)) in *.
  assert (H1 : cborMessageCount st1
               = cborMessageCount st + len (List.filter isComplete out1)).
  { rewrite Hp. destruct (decide _) as [->|Hne]; [unfold len; simpl; lia|].
    rewrite int_incr_small by lia.
    destruct (List.filter isComplete out1) as [|o [|o' l]]; [done| |].
    - unfold len. simpl. lia.
    - simpl in Hle. destruct (isFraming f); lia. }
  assert (H2 : len (List.filter isComplete out1) <= 1).
  { unfold len. destruct (isFraming f); lia. }
  assert (H3 : 0 <= len (List.filter isComplete out1)) by (unfold len; lia).
  rewrite IH by lia. rewrite H1, List.filter_app.
  unfold len. rewrite length_app. lia.
Qed.

End CounterFacts.

(** X5.  Run from the initial state on fewer than 2^63 frames, the counters
    of the summary are: the total, the number of frames that carry data;
    the heartbeat count, the number of frames classified HEARTBEAT; the
    message count, at most the number of START and continuation frames
    and, outside group-by-ID mode, the number of decoded messages
    printed. *)
Theorem counters_count_frames {Item : Type}
    (decode : list byte -> DecodeResult Item) (fl : Flags)
    (frames : list CANFrame) :
  len frames <= int_max ->
  let st := fst (mainLoop decode fl initialState frames) in
  let out := snd (mainLoop decode fl initialState frames) in
  totalFramesProcessed st = len (List.filter hasData frames) /\
  heartbeatCount st = len (List.filter isHeartbeatFrame frames) /\
  0 <= cborMessageCount st <= len (List.filter isFraming frames) /\
  (groupByID fl = false ->
   cborMessageCount st = len (List.filter isComplete out)).
Proof.
  intros Hlen. cbv zeta.
  assert (H0 : 0 <= len frames) by (unfold len; lia).
  destruct (mainLoop_counts decode fl frames initialState)
    as (Ht & Hh & Hm); try (simpl; lia).
  change (totalFramesProcessed initialState) with 0 in Ht.
  change (heartbeatCount initialState) with 0 in Hh.
  change (cborMessageCount initialState) with 0 in Hm.
  repeat split; try lia.
  intros Hg. rewrite mainLoop_count_printed; try done; simpl; lia.
Qed.

Lemma counters_count_frames_witness :
  let frames :=
    [Sample.startUint42; candumpFrame "123" []; Sample.contUint42;
     candumpFrame "0111100000" [x00; x00]; candumpFrame "222" [x80]] in
  let st := fst (mainLoop miniDecode defaultFlags initialState frames) in
  let out := snd (mainLoop miniDecode defaultFlags initialState frames) in
  totalFramesProcessed st = 4 /\
  heartbeatCount st = 1 /\
  0 <= cborMessageCount st <= 2 /\
  (groupByID defaultFlags = false ->
   cborMessageCount st = len (List.filter isComplete out)).
Proof.
  apply (counters_count_frames miniDecode defaultFlags
           [Sample.startUint42; candumpFrame "123" []; Sample.contUint42;
            candumpFrame "0111100000" [x00; x00]; candumpFrame "222" [x80]]).
  vm_compute. discriminate.
Defined.

(** X6.  When the decode attempt of a START or continuation frame succeeds
    with a reader that holds [unread] of the accumulated bytes, the bytes
    reported as the raw message followed by the buffer that is kept are the
    accumulated buffer: nothing is lost or repeated, [unread] bytes stay for
    the next attempt, and one message is counted.  Outside group-by-ID mode
    the message is printed once, under the identifier of the last START
    frame and with the number of frames absorbed since. *)
Theorem decoded_bytes_leave_buffer {Item : Type}
    (decode : list byte -> DecodeResult Item) (fl : Flags) (st : Reassembly)
    (frame : CANFrame) (item : Item) (unread : Z) :
  isFraming frame = true ->
  absorbedBuffer st frame <> [] ->
  decode (absorbedBuffer st frame) = Decoded item unread ->
  0 <= unread <= len (absorbedBuffer st frame) ->
  let st' := fst (processFrame decode fl st frame) in
  let out := snd (processFrame decode fl st frame) in
  exists raw,
    raw ++ cborBuffer st' = absorbedBuffer st frame /\
    len (cborBuffer st') = unread /\
    cborMessageCount st' = int_incr (cborMessageCount st) /\
    lastCanID st' = (if frameIsStart frame then ID frame else lastCanID st) /\
    frameCount st' =
      (if frameIsStart frame then 1 else int_incr (frameCount st)) /\
    (groupByID fl = false ->
     List.filter isComplete out =
       [PrintComplete (lastCanID st') (frameCount st') (len raw) raw item]).
Proof.
  intros Hfr Hne Hdec Hun. cbv zeta.
  set (buf := absorbedBuffer st frame) in *.
  exists (take (Z.to_nat (len buf - unread)) buf).
  assert (Hpos : (0 <? len buf) = true) by by apply len_pos_iff.
  assert (Hraw : len (take (Z.to_nat (len buf - unread)) buf)
                 = len buf - unread).
  { unfold len in *. rewrite length_take. lia. }
  assert (Hkeep : len (drop (Z.to_nat (len buf - unread)) buf) = unread).
  { unfold len in *. rewrite length_drop. lia. }
  unfold isFraming in Hfr.
  destruct (frameIsStart frame) eqn:Hs.
  - destruct (frameIsStart_inv frame Hs) as (header & HD & Hh).
    assert (Hbuf : buf = stripHeader frame).
    { unfold buf, absorbedBuffer. by rewrite Hs. }
    destruct (groupByID fl) eqn:Hg.
    + unfold processFrame. rewrite HD, Hg. unfold groupedStep, groupedAbsorb.
      rewrite Hh. simpl. unfold groupedDecode. simpl.
      rewrite <- Hbuf, Hpos, Hdec. simpl.
      rewrite take_drop. repeat split; try done.
    + rewrite (processFrame_start decode fl st frame header (stripHeader frame)
                 HD Hh Hg).
      simpl. unfold tryDecode. simpl. rewrite <- Hbuf, Hpos, Hdec. simpl.
      rewrite take_drop. repeat split; try done.
      intros _. rewrite !List.filter_app, printAccountedHeader_no_complete.
      rewrite Hraw.
      destruct (0 <? len (cborBuffer st)); reflexivity.
  - simpl in Hfr.
    destruct (frameIsContinuation_inv frame Hfr) as (header & HD & Hh & Hc).
    assert (Hbuf : buf = cborBuffer st ++ stripHeader frame).
    { unfold buf, absorbedBuffer. by rewrite Hs. }
    destruct (groupByID fl) eqn:Hg.
    + unfold processFrame. rewrite HD, Hg. unfold groupedStep, groupedAbsorb.
      rewrite Hh, Hc. simpl. unfold groupedDecode. simpl.
      rewrite <- Hbuf, Hpos, Hdec. simpl.
      rewrite take_drop. repeat split; try done.
    + rewrite (processFrame_continuation decode fl st frame header
                 (stripHeader frame) HD Hc Hg).
      simpl. unfold tryDecode. simpl. rewrite <- Hbuf, Hpos, Hdec. simpl.
      rewrite take_drop. repeat split; try done.
      intros _. rewrite !List.filter_app, printAccountedHeader_no_complete.
      rewrite Hraw. reflexivity.
Qed.

Lemma decoded_bytes_leave_buffer_witness :
  let frame := candumpFrame "123" [x11; x2a; x01] in
  let st' := fst (processFrame miniDecode defaultFlags Sample.pending frame) in
  let out := snd (processFrame miniDecode defaultFlags Sample.pending frame) in
  exists raw,
    raw ++ cborBuffer st' = [x18; x2a; x01] /\
    len (cborBuffer st') = 1 /\
    cborMessageCount st' = int_incr 0 /\
    lastCanID st' = "123" /\
    frameCount st' = int_incr 1 /\
    (groupByID defaultFlags = false ->
     List.filter isComplete out =
       [PrintComplete (lastCanID st') (frameCount st') (len raw) raw
          (MUint 42)]).
Proof.
  apply (decoded_bytes_leave_buffer miniDecode defaultFlags Sample.pending
           (candumpFrame "123" [x11; x2a; x01]) (MUint 42) 1).
  - reflexivity.
  - discriminate.
  - reflexivity.
  - vm_compute. split; discriminate.
Defined.

(** X7.  A frame that is neither START nor continuation never touches the
    message being assembled: buffer, identifier, frame count and message
    count stay as they are; the frame is counted, and counted as a heartbeat
    iff [checkIfHeartbeat] holds of it.  Outside group-by-ID mode its
    header line is printed only under -unaccounted-only or -hide-accounted
    and only if it is no heartbeat, tagged UNACCOUNTED; the notes of
    [analyzeRawFrame] are printed only when none of the three flags is
    set. *)
Theorem raw_frame_leaves_message_state {Item : Type}
    (decode : list byte -> DecodeResult Item) (fl : Flags) (st : Reassembly)
    (frame : CANFrame) (header : byte) (payload : list byte) :
  Data frame = header :: payload ->
  isStartHeader header = false ->
  isContinuationHeader header = false ->
  let st' := fst (processFrame decode fl st frame) in
  let out := snd (processFrame decode fl st frame) in
  st' = countHeartbeat (checkIfHeartbeat frame) (countFrame st) /\
  cborBuffer st' = cborBuffer st /\
  lastCanID st' = lastCanID st /\
  frameCount st' = frameCount st /\
  cborMessageCount st' = cborMessageCount st /\
  (groupByID fl = false ->
   out =
     (if unaccountedOnly fl || hideAccounted fl then
        if checkIfHeartbeat frame then []
        else [PrintFrameHeader frame header "UNACCOUNTED"]
      else if hideUnaccounted fl then []
      else snd (analyzeRawFrame frame true))).
Proof.
  intros HD Hs Hc. cbv zeta.
  assert (Hst : fst (processFrame decode fl st frame)
                = countHeartbeat (checkIfHeartbeat frame) (countFrame st)).
  { rewrite (processFrame_state decode fl defaultFlags).
    unfold processFrame. rewrite HD. simpl. unfold framingStep.
    rewrite Hs, Hc. apply rawFrame_state. }
  rewrite Hst. repeat split; try done.
  intros Hg. unfold processFrame. rewrite HD, Hg. unfold framingStep.
  rewrite Hs, Hc. unfold rawFrame.
  pose proof (rawFrame_state (Item:=Item) fl (countFrame st) frame header)
    as Hraw.
  unfold rawFrame in Hraw.
  destruct (analyzeRawFrame frame _) as [hb out1] eqn:Ha.
  simpl in Hraw. simpl.
  assert (Hhb : hb = checkIfHeartbeat frame).
  { change hb with (fst (hb, out1)). rewrite <- Ha.
    unfold analyzeRawFrame, checkIfHeartbeat.
    destruct (decide (ID frame = "14609460")) as [Hid|Hid].
    - rewrite Hid. simpl.
      destruct (Data frame) as [|b0 [|b1 [|b2 [|b3 ?]]]]; reflexivity.
    - destruct (String.prefix "01111" (ID frame)); simpl.
      + destruct (allZero (Data frame)); reflexivity.
      + destruct (decide (ID frame = "18209820")); [|reflexivity].
        destruct (Data frame); reflexivity. }
  subst hb.
  assert (Hout : out1 = snd (analyzeRawFrame (Item:=Item) frame
                   (negb (unaccountedOnly fl) && negb (hideUnaccounted fl)
                    && negb (hideAccounted fl)))) by by rewrite Ha.
  assert (Hquiet : snd (analyzeRawFrame (Item:=Item) frame false) = []).
  { unfold analyzeRawFrame.
    repeat match goal with
           | |- context [decide ?P] => destruct (decide P)
           | |- context [String.prefix ?a ?b] => destruct (String.prefix a b)
           | |- context [allZero ?d] => destruct (allZero d)
           | |- context [match Data frame with _ => _ end] =>
               destruct (Data frame) as [|? [|? [|? [|? ?]]]]
           end; reflexivity. }
  rewrite Hout.
  destruct (unaccountedOnly fl), (hideUnaccounted fl), (hideAccounted fl);
    simpl; rewrite ?Hquiet, ?app_nil_r;
    destruct (checkIfHeartbeat frame); simpl; rewrite ?app_nil_r;
    reflexivity.
Qed.

Lemma raw_frame_leaves_message_state_witness :
  let frame := candumpFrame "222" [x80; x01] in
  let fl := mkFlags true false false false in
  let st' := fst (processFrame miniDecode fl Sample.pending frame) in
  let out := snd (processFrame miniDecode fl Sample.pending frame) in
  st' = countHeartbeat (checkIfHeartbeat frame) (countFrame Sample.pending) /\
  cborBuffer st' = [x18] /\
  lastCanID st' = "123" /\
  frameCount st' = 1 /\
  cborMessageCount st' = 0 /\
  (groupByID fl = false ->
   out = [PrintFrameHeader frame x80 "UNACCOUNTED"]).
Proof.
  apply (raw_frame_leaves_message_state miniDecode
           (mkFlags true false false false) Sample.pending
           (candumpFrame "222" [x80; x01]) x80 [x01]); reflexivity.
Defined.

(** ** The grouped display as a whole *)

(** The identifiers that the display ranges over are those of the frames. *)
Lemma grouped_ids (rangeIDs : list string) (frames : list FrameInfo)
    (id : string) :
  rangeIDs ≡ₚ (map_to_list (groupFrames frames)).*1 ->
  id ∈ sortStrings rangeIDs <-> framesOfID id frames <> [].
Proof.
  intros Hrange. rewrite sortStrings_perm, Hrange, list_elem_of_fmap.
  split.
  - intros ([id' l] & -> & Hl). apply elem_of_map_to_list in Hl.
    simpl. rewrite groupFrames_lookup in Hl.
    by destruct (framesOfID id' frames).
  - intros Hne. exists (id, framesOfID id frames). split; [done|].
    apply elem_of_map_to_list. rewrite groupFrames_lookup.
    by destruct (framesOfID id frames).
Qed.

Lemma sortStrings_ascending (l : list string) :
  NoDup l ->
  StronglySorted (fun a b => String.ltb a b = true) (sortStrings l).
Proof.
  intros Hnd. apply sorted_strict.
  - apply (sortSlice_sorted String.ltb (fun _ => True)).
    + intros x y _ _. apply string_ltb_asym.
    + intros x y z _ _ _. apply string_ltb_negtrans.
    + by apply Forall_forall.
  - by rewrite sortStrings_perm.
  - intros x y _ _. apply string_ltb_total.
Qed.

(** Splitting a list by a key and joining the parts gives the list back, up
    to the order. *)
Lemma bind_framesOfID (ids : list string) (l : list FrameInfo) :
  NoDup ids ->
  (forall f, f ∈ l -> ID (Frame f) ∈ ids) ->
  ids ≫= (fun id => framesOfID id l) ≡ₚ l.
Proof.
  intros Hnd. induction l as [|f l IH]; intros Hcov.
  { clear. induction ids as [|id ids IHids]; [done|].
    rewrite bind_cons. exact IHids. }
  assert (Heq : ids ≫= (fun id => framesOfID id (f :: l)) =
                ids ≫= (fun id => if decide (ID (Frame f) = id)
                                  then f :: framesOfID id l
                                  else framesOfID id l)).
  { clear. induction ids as [|id ids IHids]; [done|].
    rewrite !bind_cons, IHids. f_equal. }
  rewrite Heq.
  rewrite (bind_cond (fun id => ID (Frame f) = id)
             (fun id => framesOfID id l) f ids).
  rewrite (filter_only (fun id => ID (Frame f) = id) ids (ID (Frame f)));
    [|done|apply Hcov; left|intros x; split; congruence].
  rewrite bind_cons. simpl. constructor.
  apply IH. intros g Hg. apply Hcov. by right.
Qed.

Lemma framesOfID_filter (Q : FrameInfo -> Prop) `{forall f, Decision (Q f)}
    (id : string) (l : list FrameInfo) :
  filter Q (framesOfID id l) = framesOfID id (filter Q l).
Proof.
  unfold framesOfID. induction l as [|f l IH]; [done|].
  rewrite !filter_cons.
  destruct (decide (ID (Frame f) = id)), (decide (Q f));
    rewrite ?filter_cons; repeat case_decide; try done; by rewrite IH.
Qed.

Lemma displayed_frames (frames : list FrameInfo)
    (hideAccounted hideUnaccounted : bool) (ids : list string) :
  concat (omap (displayGroup (groupFrames frames) hideAccounted
                  hideUnaccounted) ids).*2
  ≡ₚ ids ≫= (fun id =>
               framesOfID id
                 (filter (shownFrame hideAccounted hideUnaccounted) frames)).
Proof.
  induction ids as [|id ids IH]; [done|].
  rewrite bind_cons. csimpl. rewrite displayGroup_spec. cbv zeta.
  rewrite <- framesOfID_filter.
  assert (Hp : filter (shownFrame hideAccounted hideUnaccounted)
                 (sortSlice frameLess (framesOfID id frames))
               ≡ₚ filter (shownFrame hideAccounted hideUnaccounted)
                    (framesOfID id frames))
    by by rewrite sortSlice_perm.
  destruct (filter (shownFrame hideAccounted hideUnaccounted)
              (sortSlice frameLess (framesOfID id frames))) as [|f l] eqn:E.
  - rewrite <- Hp. simpl. exact IH.
  - csimpl. rewrite IH, <- Hp. done.
Qed.

Lemma hiddenFrame_both (f : FrameInfo) : hiddenFrame true true f = true.
Proof. unfold hiddenFrame. by destruct (IsCBOR f), (IsHeartbeat f). Qed.

Lemma StronglySorted_related {A} (R : relation A) (l : list A) (x y : A) :
  StronglySorted R l -> x ∈ l -> y ∈ l -> x = y \/ R x y \/ R y x.
Proof.
  induction 1 as [|a l Hs IH Ha]; intros Hx Hy.
  { by apply elem_of_nil in Hx. }
  rewrite Forall_forall in Ha.
  apply elem_of_cons in Hx as [->|Hx]; apply elem_of_cons in Hy as [->|Hy];
    auto.
Qed.

(** X8.  For any frames, whatever their timestamps are: the groups are
    printed in strictly ascending order of the identifier as text, and the
    frames printed in all groups together are the frames that pass the
    filter, each as often as it was captured. *)
Theorem grouped_display_complete (rangeIDs : list string)
    (frames : list FrameInfo) (hideAccounted hideUnaccounted : bool) :
  rangeIDs ≡ₚ (map_to_list (groupFrames frames)).*1 ->
  let shown :=
    displayGroupedFrames rangeIDs frames hideAccounted hideUnaccounted in
  StronglySorted (fun a b => String.ltb a b = true) shown.*1 /\
  concat shown.*2 ≡ₚ filter (shownFrame hideAccounted hideUnaccounted) frames.
Proof.
  intros Hrange shown. subst shown. unfold displayGroupedFrames.
  assert (Hnd : NoDup rangeIDs).
  { rewrite Hrange. apply NoDup_fst_map_to_list. }
  split.
  - rewrite displayed_ids. apply StronglySorted_filter.
    by apply sortStrings_ascending.
  - rewrite displayed_frames. apply bind_framesOfID.
    + by rewrite sortStrings_perm.
    + intros f Hf. apply list_elem_of_filter in Hf as [_ Hf].
      apply (grouped_ids rangeIDs frames); [done|].
      intros E.
      assert (f ∈ framesOfID (ID (Frame f)) frames) as Hin
        by (by apply list_elem_of_filter).
      rewrite E in Hin. by apply elem_of_nil in Hin.
Qed.

Lemma grouped_display_complete_witness :
  let shown :=
    displayGroupedFrames ["123"]
      [SampleGroup.f1; SampleGroup.f2; SampleGroup.f3] false true in
  StronglySorted (fun a b => String.ltb a b = true) shown.*1 /\
  concat shown.*2 ≡ₚ
    filter (shownFrame false true)
      [SampleGroup.f1; SampleGroup.f2; SampleGroup.f3].
Proof.
  apply (grouped_display_complete ["123"]
           [SampleGroup.f1; SampleGroup.f2; SampleGroup.f3] false true).
  vm_compute. reflexivity.
Defined.

(** X9.  With -hide-accounted and -hide-unaccounted both set, every frame is
    filtered out and no group is printed. *)
Theorem both_hide_flags_show_nothing (rangeIDs : list string)
    (frames : list FrameInfo) :
  displayGroupedFrames rangeIDs frames true true = [].
Proof.
  unfold displayGroupedFrames.
  assert (Hnone : forall id,
            displayGroup (groupFrames frames) true true id = None).
  { intros id. rewrite displayGroup_spec. cbv zeta.
    rewrite filter_none; [done|].
    intros f. unfold shownFrame. by rewrite hiddenFrame_both. }
  induction (sortStrings rangeIDs) as [|id ids IH]; [done|].
  csimpl. by rewrite Hnone.
Qed.

(** X10.  When the frames are captured in strictly ascending order of
    (timestamp, sequence number), with numbers as timestamps, every group is
    printed in capture order: it is the subsequence of the capture formed by
    the frames of its identifier that pass the filter. *)
Theorem sorted_capture_keeps_order (rangeIDs : list string)
    (frames : list FrameInfo) (hideAccounted hideUnaccounted : bool) :
  Forall (fun f => isNumber (TimestampFloat f)) frames ->
  StronglySorted (fun a b => frameLess a b = true) frames ->
  Forall (fun group =>
            group.2 = filter (shownFrame hideAccounted hideUnaccounted)
                        (framesOfID group.1 frames))
    (displayGroupedFrames rangeIDs frames hideAccounted hideUnaccounted).
Proof.
  intros Hnum Hsorted. apply Forall_forall. intros [id fs] Hin. simpl.
  unfold displayGroupedFrames in Hin.
  apply list_elem_of_omap in Hin as (id' & _ & Hg).
  rewrite displayGroup_spec in Hg. cbv zeta in Hg.
  destruct (filter _ _) as [|f l] eqn:E; [done|].
  injection Hg as <- <-. rewrite <- E. f_equal.
  assert (Hnum' : Forall (fun f => isNumber (TimestampFloat f))
                    (framesOfID id' frames))
    by by apply framesOfID_numbers.
  assert (Hs' : StronglySorted (fun a b => frameLess a b = true)
                  (framesOfID id' frames))
    by by apply StronglySorted_filter.
  apply (StronglySorted_unique_strong (fun a b => frameLess b a = false)).
  - intros x y Hx Hy H1 H2.
    apply (proj1 (sortSlice_elem_of _ _ _)) in Hx.
    destruct (StronglySorted_related _ _ x y Hs' Hx Hy) as [?|[H|H]];
      [done|congruence|congruence].
  - apply (sortSlice_sorted frameLess (fun f => isNumber (TimestampFloat f))).
    + apply frameLess_asym.
    + apply frameLess_negtrans.
    + done.
  - apply (StronglySorted_impl_on (fun a b => frameLess a b = true)
             (fun a b => frameLess b a = false)
             (fun f => isNumber (TimestampFloat f))); [|done|done].
    intros a b Ha Hb. by apply frameLess_asym.
  - apply sortSlice_perm.
Qed.

Lemma sorted_capture_keeps_order_witness :
  Forall (fun group =>
            group.2 = filter (shownFrame false false)
                        (framesOfID group.1 [SampleGroup.f3; SampleGroup.f1]))
    (displayGroupedFrames ["123"] [SampleGroup.f3; SampleGroup.f1]
       false false).
Proof.
  apply (sorted_capture_keeps_order ["123"]
           [SampleGroup.f3; SampleGroup.f1] false false).
  - repeat constructor.
  - repeat constructor.
Defined.

(** ** The occurrence counts *)

Lemma collectStep_occurrence (m : gmap string UnaccountedFrame)
    (o : string * FrameInfo) (k fn : string) :
  isUnaccounted o.2 = true ->
  occurrenceIn (collectStep m o) k fn =
    if decide (countsFor k fn o)
    then Some (int_incr (default 0 (occurrenceIn m k fn)))
    else occurrenceIn m k fn.
Proof.
  destruct o as [fn' f]. simpl. intros Hu.
  unfold occurrenceIn, collectStep, countsFor. simpl.
  rewrite addPattern_lookup by done.
  destruct (decide (k = frameKey f)) as [->|Hne].
  - simpl. destruct (decide (fn' = fn)) as [->|Hfn].
    + rewrite decide_True by done. rewrite lookup_insert_eq.
      by destruct (m !! frameKey f).
    + rewrite decide_False by (intros [_ ?]; done).
      rewrite lookup_insert_ne by done.
      by destruct (m !! frameKey f).
  - rewrite decide_False by (intros [? _]; done). done.
Qed.

Lemma collect_occurrence (obs : list (string * FrameInfo)) (k fn : string) :
  (forall o, o ∈ obs -> isUnaccounted o.2 = true) ->
  forall m : gmap string UnaccountedFrame,
  occurrenceIn (fold_left collectStep obs m) k fn =
    match length (filter (countsFor k fn) obs) with
    | O => occurrenceIn m k fn
    | n => Some (Nat.iter n int_incr (default 0 (occurrenceIn m k fn)))
    end.
Proof.
  induction obs as [|o obs IH]; intros Hu m; [done|].
  simpl fold_left. rewrite IH by (intros o' Ho'; apply Hu; by right).
  rewrite collectStep_occurrence by (apply Hu; left).
  rewrite filter_cons.
  destruct (decide (countsFor k fn o)) as [Hc|Hc].
  - simpl length.
    destruct (length (filter (countsFor k fn) obs)) as [|n]; [done|].
    simpl default. by rewrite <- !Nat.iter_succ_r.
  - done.
Qed.

Lemma counted_in_file (k fn fn' : string) (frames : list FrameInfo) :
  length (filter (countsFor k fn)
            ((fun f => (fn', f)) <$> List.filter isUnaccounted frames)) =
  if decide (fn' = fn) then Z.to_nat (occurrencesOf k frames) else 0%nat.
Proof.
  unfold occurrencesOf, len. rewrite Nat2Z.id.
  induction frames as [|f frames IH].
  { by destruct (decide (fn' = fn)). }
  rewrite (filter_cons (fun f => isUnaccounted f = true /\ frameKey f = k)).
  simpl List.filter.
  destruct (isUnaccounted f) eqn:Hu.
  - rewrite fmap_cons, filter_cons.
    destruct (decide (countsFor k fn (fn', f))) as [[Hk Hfn]|Hc];
      simpl in *.
    + subst fn'. rewrite decide_True in IH |- * by done.
      rewrite decide_True by done. simpl. by rewrite IH.
    + rewrite IH. destruct (decide (fn' = fn)); [|done].
      rewrite decide_False; [done|]. intros [_ Hk]. by apply Hc.
  - rewrite IH. destruct (decide (fn' = fn)); [|done].
    rewrite decide_False; [done|]. intros [? _]; congruence.
Qed.

Lemma counted_absent (k fn : string) (files : list (string * list FrameInfo)) :
  fn ∉ files.*1 ->
  length (filter (countsFor k fn) (observations files)) = 0%nat.
Proof.
  unfold observations. induction files as [|[fn' frames] files IH]; [done|].
  intros Hnotin. rewrite fmap_cons, not_elem_of_cons in Hnotin.
  destruct Hnotin as [Hne Hnotin]. simpl in Hne.
  rewrite bind_cons, filter_app, length_app, counted_in_file, IH by done.
  by rewrite decide_False by done.
Qed.

Lemma counted_present (k fn : string) (frames : list FrameInfo)
    (files : list (string * list FrameInfo)) :
  NoDup files.*1 -> (fn, frames) ∈ files ->
  length (filter (countsFor k fn) (observations files)) =
  Z.to_nat (occurrencesOf k frames).
Proof.
  unfold observations. induction files as [|[fn' frames'] files IH].
  { intros _ H. by apply elem_of_nil in H. }
  rewrite fmap_cons, NoDup_cons. intros [Hnotin Hnd] Hin. simpl in Hnotin.
  rewrite bind_cons, filter_app, length_app, counted_in_file.
  apply elem_of_cons in Hin as [[= <- <-]|Hin].
  - rewrite decide_True by done.
    pose proof (counted_absent k fn files Hnotin) as H0.
    unfold observations in H0. rewrite H0. lia.
  - rewrite IH by done.
    assert (fn' <> fn).
    { intros ->. apply Hnotin. apply list_elem_of_fmap.
      by exists (fn, frames). }
    by rewrite decide_False by done.
Qed.

Lemma counted_in_map (fileFrames : gmap string (list FrameInfo))
    (k fn : string) :
  length (filter (countsFor k fn) (observations (map_to_list fileFrames))) =
  Z.to_nat (occurrencesOf k (default [] (fileFrames !! fn))).
Proof.
  destruct (fileFrames !! fn) as [frames|] eqn:E; simpl.
  - apply counted_present.
    + apply NoDup_fst_map_to_list.
    + by apply elem_of_map_to_list.
  - rewrite counted_absent; [done|].
    intros Hin. apply list_elem_of_fmap in Hin as ([fn' fr] & -> & Hin).
    apply elem_of_map_to_list in Hin. simpl in E. congruence.
Qed.

Lemma occurrencesOf_bounds (k : string) (frames : list FrameInfo) :
  0 <= occurrencesOf k frames <= len frames.
Proof.
  unfold occurrencesOf, len. pose proof (length_filter
    (fun f => isUnaccounted f = true /\ frameKey f = k) frames). lia.
Qed.

Lemma occurrencesOf_pos (k : string) (frames : list FrameInfo) :
  occurrencesOf k frames <> 0 <->
  exists f, f ∈ frames /\ isUnaccounted f = true /\ frameKey f = k.
Proof.
  unfold occurrencesOf, len. split.
  - intros Hne.
    destruct (filter _ frames) as [|f l] eqn:E; [done|].
    assert (f ∈ filter (fun f => isUnaccounted f = true /\ frameKey f = k)
                  frames) as Hf by (rewrite E; left).
    apply list_elem_of_filter in Hf as [[? ?] ?]. by exists f.
  - intros (f & Hf & Hu & Hk).
    assert (f ∈ filter (fun f => isUnaccounted f = true /\ frameKey f = k)
                  frames) as Hin by (by apply list_elem_of_filter).
    destruct (filter _ frames); [by apply elem_of_nil in Hin|].
    simpl. lia.
Qed.

(** The count held for [k] and [fn] after collecting. *)
Lemma collected_occurrence (fileFrames : gmap string (list FrameInfo))
    (k fn : string) :
  occurrenceIn (collectPatterns (map_to_list fileFrames)) k fn =
    match Z.to_nat (occurrencesOf k (default [] (fileFrames !! fn))) with
    | O => None
    | n => Some (Nat.iter n int_incr 0)
    end.
Proof.
  rewrite collectPatterns_observations.
  rewrite collect_occurrence by apply observations_unaccounted.
  rewrite counted_in_map. unfold occurrenceIn. by rewrite lookup_empty.
Qed.

(** X11.  The occurrence counts are exact: for every pattern of the table
    and every name, the count stored for the name is the number of
    unaccounted frames of that file whose identifier, header byte and data
    bytes give the key of the pattern; a file without such a frame, and a
    name that is no source, has no entry (rather than a zero). *)
Theorem occurrence_counts_exact (fileFrames : gmap string (list FrameInfo))
    (k fn : string) (p : UnaccountedFrame) :
  collectPatterns (map_to_list fileFrames) !! k = Some p ->
  len (default [] (fileFrames !! fn)) <= int_max ->
  Occurrences p !! fn =
    (if decide (occurrencesOf k (default [] (fileFrames !! fn)) = 0) then None
     else Some (occurrencesOf k (default [] (fileFrames !! fn)))).
Proof.
  intros Hp Hlen.
  pose proof (collected_occurrence fileFrames k fn) as Hocc.
  unfold occurrenceIn in Hocc. rewrite Hp in Hocc. simpl in Hocc.
  rewrite Hocc.
  pose proof (occurrencesOf_bounds k (default [] (fileFrames !! fn))) as Hb.
  set (n := occurrencesOf k (default [] (fileFrames !! fn))) in *.
  destruct (decide (n = 0)) as [->|Hne]; [done|].
  destruct (Z.to_nat n) as [|n'] eqn:E; [lia|].
  change (int_incr (Nat.iter n' int_incr 0))
    with (Nat.iter (S n') int_incr 0).
  rewrite iter_int_incr by lia. f_equal. lia.
Qed.

Lemma occurrence_counts_exact_witness :
  Occurrences
    {| PatID := "200"; PatHeader := x60; DataHex := "60";
       Occurrences := {["a.log" := 1; "b.log" := 2; "c.log" := 1]} |}
    !! "b.log" =
  (if decide (occurrencesOf "200:60:60"
                (default [] (SampleCompare.fileFrames !! "b.log")) = 0)
   then None
   else Some (occurrencesOf "200:60:60"
                (default [] (SampleCompare.fileFrames !! "b.log")))).
Proof.
  apply (occurrence_counts_exact SampleCompare.fileFrames "200:60:60" "b.log").
  - vm_compute. reflexivity.
  - vm_compute. discriminate.
Defined.

(** X12.  The pattern table holds the shapes of the unaccounted frames and
    nothing else: every unaccounted frame of a source has a pattern under
    its key, which carries the identifier, the header byte and the
    hexadecimal data of the frame and an entry for that source; every
    pattern of the table is the pattern of such a frame; and a pattern has
    an entry for a name exactly when that source holds an unaccounted
    frame of its shape, so that the number of its entries, by which the
    patterns are categorized, is the number of sources that show it. *)
Theorem patterns_are_observed_shapes
    (fileFrames : gmap string (list FrameInfo)) :
  let patterns := collectPatterns (map_to_list fileFrames) in
  (forall fn frames f,
     fileFrames !! fn = Some frames -> f ∈ frames ->
     isUnaccounted f = true ->
     exists p, patterns !! frameKey f = Some p /\
               PatID p = ID (Frame f) /\ PatHeader p = Header f /\
               DataHex p = sprintfX (Data (Frame f)) /\
               is_Some (Occurrences p !! fn)) /\
  (forall k p,
     patterns !! k = Some p ->
     exists fn frames f,
       fileFrames !! fn = Some frames /\ f ∈ frames /\
       isUnaccounted f = true /\ frameKey f = k /\
       PatID p = ID (Frame f) /\ PatHeader p = Header f /\
       DataHex p = sprintfX (Data (Frame f))) /\
  (forall k p fn,
     patterns !! k = Some p ->
     (is_Some (Occurrences p !! fn) <->
      exists frames f,
        fileFrames !! fn = Some frames /\ f ∈ frames /\
        isUnaccounted f = true /\ frameKey f = k)).
Proof.
  cbv zeta.
  assert (Hfields : forall k p f,
            collectPatterns (map_to_list fileFrames) !! k = Some p ->
            frameKey f = k ->
            PatID p = ID (Frame f) /\ PatHeader p = Header f /\
            DataHex p = sprintfX (Data (Frame f))).
  { intros k p f Hp Hk.
    destruct (collectPatterns_entry _ _ _ Hp) as (Hkey & Hcolon & _).
    rewrite Hkey in Hk. unfold frameKey, patternKeyOf in Hk.
    apply patternKey_inj in Hk as (? & ? & ?);
      [done|apply sprintfX_no_colon|done]. }
  split; [|split].
  - intros fn frames f Hfn Hf Hu.
    pose proof (collected_occurrence fileFrames (frameKey f) fn) as Hocc.
    rewrite Hfn in Hocc. simpl in Hocc.
    assert (Hne : occurrencesOf (frameKey f) frames <> 0)
      by (apply occurrencesOf_pos; by exists f).
    pose proof (occurrencesOf_bounds (frameKey f) frames) as Hb.
    destruct (Z.to_nat (occurrencesOf (frameKey f) frames)) eqn:E; [lia|].
    unfold occurrenceIn in Hocc.
    destruct (collectPatterns (map_to_list fileFrames) !! frameKey f)
      as [p|] eqn:Hp; [|done].
    simpl in Hocc. exists p. split; [done|].
    destruct (Hfields _ p f Hp eq_refl) as (? & ? & ?).
    repeat split; try done; rewrite Hocc; eauto.
  - intros k p Hp.
    destruct (collectPatterns_entry _ _ _ Hp) as (_ & _ & Hne & _).
    assert (exists fn, is_Some (Occurrences p !! fn)) as [fn Hfn].
    { destruct (map_choose (Occurrences p) Hne) as (fn & c & Hc). eauto. }
    pose proof (collected_occurrence fileFrames k fn) as Hocc.
    unfold occurrenceIn in Hocc. rewrite Hp in Hocc. simpl in Hocc.
    destruct (fileFrames !! fn) as [frames|] eqn:E; simpl in Hocc; cycle 1.
    { rewrite Hocc in Hfn. by destruct Hfn. }
    assert (Hpos : occurrencesOf k frames <> 0).
    { intros H0. rewrite H0 in Hocc. simpl in Hocc.
      rewrite Hocc in Hfn. by destruct Hfn. }
    apply occurrencesOf_pos in Hpos as (f & Hf & Hu & Hk).
    exists fn, frames, f.
    destruct (Hfields _ p f Hp Hk) as (? & ? & ?). done.
  - intros k p fn Hp.
    pose proof (collected_occurrence fileFrames k fn) as Hocc.
    unfold occurrenceIn in Hocc. rewrite Hp in Hocc.
    change (Some p ≫= (fun p => Occurrences p !! fn))
      with (Occurrences p !! fn) in Hocc.
    rewrite Hocc.
    pose proof (occurrencesOf_bounds k (default [] (fileFrames !! fn))) as Hb.
    pose proof (occurrencesOf_pos k (default [] (fileFrames !! fn))) as Hpos.
    split.
    + intros Hsome.
      assert (Hne : occurrencesOf k (default [] (fileFrames !! fn)) <> 0).
      { intros H0. rewrite H0 in Hsome. by destruct Hsome. }
      apply Hpos in Hne as (f & Hf & Hu & Hk).
      destruct (fileFrames !! fn) as [frames|];
        [|by apply elem_of_nil in Hf].
      by exists frames, f.
    + intros (frames & f & Hfn & Hf & Hu & Hk).
      rewrite Hfn in Hpos, Hb |- *. simpl in *.
      assert (Hne : occurrencesOf k frames <> 0)
        by (apply Hpos; by exists f).
      destruct (Z.to_nat (occurrencesOf k frames)) eqn:E; [lia|eauto].
Qed.

(** ** Sorting any list of patterns *)

(** X13.  [sortFramesByID] neither loses nor repeats a pattern, and leaves
    the slice in ascending order of (identifier as text, header byte as a
    number, data as text): no pattern stands before one that is less, for
    neighbours and for any two positions alike.  This holds for every slice,
    also with patterns that agree on all three fields. *)
Theorem sortFramesByID_sorts (frames : list UnaccountedFrame) :
  sortFramesByID frames ≡ₚ frames /\
  StronglySorted (fun a b => ~ patternLt b a) (sortFramesByID frames).
Proof.
  split; [apply sortSlice_perm|].
  apply (StronglySorted_impl_on (fun a b => patternLess b a = false) _
           (fun _ => True)).
  - intros a b _ _ Hab Hlt. apply patternLess_spec in Hlt. congruence.
  - by apply Forall_forall.
  - apply (sortSlice_sorted patternLess (fun _ => True)).
    + intros x y _ _. apply patternLess_asym.
    + intros x y z _ _ _. apply patternLess_negtrans.
    + by apply Forall_forall.
Qed.

(** ** The keys of the pattern table *)


(** ** One source *)

Lemma filter_none_on {A} (Q : A -> Prop) `{forall x, Decision (Q x)}
    (l : list A) :
  (forall x, x ∈ l -> ~ Q x) -> filter Q l = [].
Proof.
  induction l as [|x l IH]; intros Hq; [done|].
  rewrite filter_cons, decide_False by (apply Hq; left).
  apply IH. intros y Hy. apply Hq. by right.
Qed.

Lemma filter_all_on {A} (Q : A -> Prop) `{forall x, Decision (Q x)}
    (l : list A) :
  (forall x, x ∈ l -> Q x) -> filter Q l = l.
Proof.
  induction l as [|x l IH]; intros Hq; [done|].
  rewrite filter_cons, decide_True by (apply Hq; left).
  f_equal. apply IH. intros y Hy. apply Hq. by right.
Qed.

Lemma single_source_report
    (fileFrames : gmap string (list FrameInfo)) (r : Report) :
  size fileFrames = 1%nat ->
  CompareRun fileFrames r ->
  reportCommon r ≡ₚ (map_to_list (collectPatterns (map_to_list fileFrames))).*2
  /\ reportUnique r = [] /\ reportPartial r = [] /\
  commonCount r = totalPatterns r /\ uniqueCount r = 0 /\ partialCount r = 0.
Proof.
  intros Hsize Hrun. apply CompareRun_canonical in Hrun as ->.
  unfold compareReport, CompareUnaccountedFrames. simpl.
  rewrite filenames_length, Hsize.
  set (ps := (map_to_list (collectPatterns (map_to_list fileFrames))).*2).
  destruct (categorizeAll_spec 1 ps) as (Hc & Hp & Hu).
  assert (Hall : forall p, p ∈ ps -> isCommon 1 p).
  { intros p Hp'. unfold ps in Hp'.
    apply list_elem_of_fmap in Hp' as ([k p'] & -> & Hin).
    apply elem_of_map_to_list in Hin. simpl.
    destruct (collectPatterns_entry _ _ _ Hin) as (_ & _ & Hne & Hdom).
    unfold isCommon.
    assert (Hsub : dom (Occurrences p') ⊆ dom fileFrames).
    { intros fn Hfn. apply elem_of_dom in Hfn. apply Hdom in Hfn.
      apply list_elem_of_fmap in Hfn as ([fn' fr] & -> & Hfn).
      apply elem_of_map_to_list in Hfn. apply elem_of_dom. eauto. }
    apply subseteq_size in Hsub. rewrite !size_dom in Hsub.
    assert (size (Occurrences p') <> 0%nat)
      by (intros H0; by apply map_size_empty_iff in H0).
    lia. }
  assert (Hcommon : filter (isCommon 1) ps = ps)
    by by apply filter_all_on.
  assert (Hpartial : filter (isPartial 1) ps = []).
  { apply filter_none_on. intros p Hin [Hne _]. by apply Hne, Hall. }
  assert (Hunique : filter (isUnique 1) ps = []).
  { apply filter_none_on. intros p Hin [Hne _]. by apply Hne, Hall. }
  rewrite Hc, Hp, Hcommon, Hpartial.
  rewrite countUniqueFrames_spec, Hunique.
  repeat split.
  - unfold sortFramesByID. apply sortSlice_perm.
  - rewrite uniqueBlocks_spec.
    induction (sortStrings (map_to_list fileFrames).*1) as [|fn fns IH];
      [done|].
    csimpl. rewrite IH.
    rewrite filter_none_on; [done|].
    intros p Hin [[Hne _] _]. by apply Hne, Hall.
  - unfold ps, len. by rewrite length_fmap, length_map_to_list.
Qed.

(** X15.  With a single source every pattern is common to all files: the
    report has no block of unique patterns and no partial pattern, and the
    number of common patterns is the number of patterns. *)
Theorem single_source_all_common
    (fileFrames : gmap string (list FrameInfo)) (r : Report) :
  size fileFrames = 1%nat ->
  CompareRun fileFrames r ->
  reportCommon r ≡ₚ (map_to_list (collectPatterns (map_to_list fileFrames))).*2
  /\ reportUnique r = [] /\ reportPartial r = [] /\
  commonCount r = totalPatterns r /\ uniqueCount r = 0 /\ partialCount r = 0.
Proof. apply single_source_report. Qed.

Lemma single_source_all_common_witness :
  let fileFrames : gmap string (list FrameInfo) :=
    {[ "a.log" := SampleCompare.fileA ]} in
  let r := compareReport fileFrames in
  reportCommon r ≡ₚ (map_to_list (collectPatterns (map_to_list fileFrames))).*2
  /\ reportUnique r = [] /\ reportPartial r = [] /\
  commonCount r = totalPatterns r /\ uniqueCount r = 0 /\ partialCount r = 0.
Proof.
  apply (single_source_all_common {[ "a.log" := SampleCompare.fileA ]}).
  - vm_compute. reflexivity.
  - apply compareReport_run.
Defined.

(** ** Reading a capture *)

(** *** Strings *)

Lemma string_app_nil_r (s : string) : s +:+ "" = s.
Proof. induction s as [|a s IH]; [done|]. by rewrite string_app_cons, IH. Qed.

Lemma strLen_cons (a : ascii) (s : string) : strLen (String a s) = 1 + strLen s.
Proof. unfold strLen. simpl String.length. lia. Qed.

Lemma strLen_nonneg (s : string) : 0 <= strLen s.
Proof. unfold strLen. lia. Qed.

Lemma stringsIndex_spec (s : string) (c : ascii) :
  if occursIn c s
  then 0 <= stringsIndex s c < strLen s /\
       stringTake (Z.to_nat (stringsIndex s c)) s = beforeFirst c s /\
       stringDrop (Z.to_nat (stringsIndex s c + 1)) s = afterFirst c s
  else stringsIndex s c = -1.
Proof.
  induction s as [|a s IH]; [done|].
  simpl occursIn. simpl stringsIndex. simpl beforeFirst. simpl afterFirst.
  rewrite strLen_cons. pose proof (strLen_nonneg s).
  destruct (decide (a = c)) as [->|Hne].
  { repeat split; try lia; reflexivity. }
  destruct (occursIn c s).
  - destruct IH as (Hi & Ht & Hd).
    destruct (stringsIndex s c =? -1) eqn:E; [lia|].
    repeat split; try lia.
    + replace (Z.to_nat (stringsIndex s c + 1))
        with (S (Z.to_nat (stringsIndex s c))) by lia.
      simpl. by rewrite Ht.
    + replace (Z.to_nat (stringsIndex s c + 1 + 1))
        with (S (Z.to_nat (stringsIndex s c + 1))) by lia.
      simpl. exact Hd.
  - by rewrite IH.
Qed.

Lemma afterLast_none (c : ascii) (s : string) :
  occursIn c s = false -> afterLast c s = s.
Proof.
  destruct s as [|a s]; [done|]. simpl.
  destruct (decide (a = c)); [done|]. by intros ->.
Qed.

Lemma stringsLastIndex_spec (s : string) (c : ascii) :
  if occursIn c s
  then 0 <= stringsLastIndex s c < strLen s /\
       stringDrop (Z.to_nat (stringsLastIndex s c + 1)) s = afterLast c s
  else stringsLastIndex s c = -1.
Proof.
  induction s as [|a s IH]; [done|].
  simpl occursIn. simpl stringsLastIndex. simpl afterLast.
  rewrite strLen_cons. pose proof (strLen_nonneg s).
  destruct (occursIn c s).
  - destruct IH as (Hi & Hd).
    destruct (stringsLastIndex s c =? -1) eqn:E; [lia|].
    assert (Hgoal : 0 <= stringsLastIndex s c + 1 < 1 + strLen s /\
                    stringDrop (Z.to_nat (stringsLastIndex s c + 1 + 1))
                      (String a s) = afterLast c s).
    { split; [lia|].
      replace (Z.to_nat (stringsLastIndex s c + 1 + 1))
        with (S (Z.to_nat (stringsLastIndex s c + 1))) by lia.
      simpl. exact Hd. }
    by destruct (decide (a = c)).
  - rewrite IH. simpl.
    destruct (decide (a = c)); [|done].
    split; [lia|reflexivity].
Qed.

Lemma cutAfterLast_spec (s : string) (c : ascii) :
  cutAfterLast s c = Returned (afterLast c s).
Proof.
  unfold cutAfterLast, sliceFrom.
  pose proof (stringsLastIndex_spec s c) as H.
  destruct (occursIn c s) eqn:E.
  - destruct H as (Hi & Hd).
    destruct (stringsLastIndex s c =? -1) eqn:E1; [lia|].
    destruct (_ || _) eqn:E2; [|by rewrite Hd].
    apply orb_true_iff in E2 as [E2|E2]; lia.
  - rewrite H. simpl. by rewrite afterLast_none.
Qed.

(** [parseCandumpLine] without the index arithmetic. *)
Lemma parseCandumpLine_unfold (TrimSpace : string -> string) (line : string) :
  parseCandumpLine TrimSpace line =
    if occursIn "#" line then
      match hexDecodeString (stringsRemove (afterFirst "#" line) " ") with
      | None => Failed
      | Some payload =>
          Returned (candumpFrame
                      (canIDOf TrimSpace (beforeFirst "#" line)) payload)
      end
    else Failed.
Proof.
  unfold parseCandumpLine, canIDOf, sliceTo, sliceFrom.
  pose proof (stringsIndex_spec line "#") as H.
  destruct (occursIn "#" line).
  - destruct H as (Hi & Ht & Hd).
    destruct (stringsIndex line "#" =? -1) eqn:E; [lia|].
    assert (E1 : (stringsIndex line "#" <? 0)
                 || (strLen line <? stringsIndex line "#") = false).
    { apply orb_false_iff. split; apply Z.ltb_ge; lia. }
    assert (E2 : (stringsIndex line "#" + 1 <? 0)
                 || (strLen line <? stringsIndex line "#" + 1) = false).
    { apply orb_false_iff. split; apply Z.ltb_ge; lia. }
    rewrite E1, E2, Ht, Hd. unfold mbind, Result_bind.
    by rewrite !cutAfterLast_spec.
  - by rewrite H.
Qed.

(** *** Hexadecimal text *)

Lemma hexDecodeString_hexByte (b : byte) (rest : string) :
  hexDecodeString (hexByte b +:+ rest) = cons b <$> hexDecodeString rest.
Proof. destruct b; reflexivity. Qed.

Lemma hexDecodeString_sprintfX (data : list byte) :
  hexDecodeString (sprintfX data) = Some data.
Proof.
  induction data as [|b data IH]; [done|].
  by rewrite sprintfX_cons, hexDecodeString_hexByte, IH.
Qed.

Lemma parseUint16_8_hexByte (b : byte) : parseUint16_8 (hexByte b) = Some b.
Proof. destruct b; reflexivity. Qed.

(** [hex.DecodeString] succeeds on the strings of even length that consist
    of hexadecimal digits. *)
Lemma hexDecodeString_is_Some (s : string) :
  is_Some (hexDecodeString s) <->
  allHex s = true /\ Nat.even (String.length s) = true.
Proof.
  assert (H : forall s,
    (is_Some (hexDecodeString s) <->
     allHex s = true /\ Nat.even (String.length s) = true) /\
    (forall c, is_Some (hexDecodeString (String c s)) <->
               allHex (String c s) = true /\
               Nat.even (String.length (String c s)) = true)).
  { clear s. induction s as [|a s [IH1 IH2]].
    - split; [split; eauto|].
      intros c. simpl. split; [by intros [? ?]|].
      intros [_ ?]. done.
    - split; [apply IH2|].
      intros c. simpl hexDecodeString. simpl allHex.
      change (String.length (String c (String a s)))
        with (S (S (String.length s))).
      change (Nat.even (S (S (String.length s))))
        with (Nat.even (String.length s)).
      destruct (fromHexChar c); [|split; [by intros [? ?]|by intros [? _]]].
      destruct (fromHexChar a); [|split; [by intros [? ?]|by intros [? _]]].
      rewrite <- IH1.
      destruct (hexDecodeString s); split; eauto; by intros [? ?]. }
  apply H.
Qed.

(** *** What [strings.TrimSpace] leaves *)

Lemma allGraphic_app (s1 s2 : string) :
  allGraphic (s1 +:+ s2) = allGraphic s1 && allGraphic s2.
Proof.
  induction s1 as [|a s1 IH]; [done|].
  rewrite string_app_cons. simpl. rewrite IH. by rewrite andb_assoc.
Qed.

Lemma noGraphic_app (s1 s2 : string) :
  noGraphic (s1 +:+ s2) = noGraphic s1 && noGraphic s2.
Proof.
  induction s1 as [|a s1 IH]; [done|].
  rewrite string_app_cons. simpl. rewrite IH. by rewrite andb_assoc.
Qed.

Lemma graphic_noGraphic (s : string) :
  allGraphic s = true -> noGraphic s = true -> s = "".
Proof.
  destruct s as [|a s]; [done|]. simpl.
  destruct (isGraphic a); simpl; discriminate.
Qed.

Lemma string_app_eq_app (a b c d : string) :
  a +:+ b = c +:+ d ->
  exists l, (a = c +:+ l /\ d = l +:+ b) \/ (c = a +:+ l /\ b = l +:+ d).
Proof.
  revert c. induction a as [|x a IH]; intros c E.
  { exists c. right. done. }
  destruct c as [|y c].
  { exists (String x a). left. done. }
  rewrite !string_app_cons in E. injection E as -> E.
  destruct (IH c E) as (l & [[-> ->]|[-> ->]]); exists l; [left|right]; done.
Qed.

Section TrimFacts.
Variable TrimSpace : string -> string.
Hypothesis Htrim : TrimsSpace TrimSpace.

Lemma TrimSpace_occursIn (c : ascii) (s : string) :
  occursIn c s = false -> occursIn c (TrimSpace s) = false.
Proof.
  destruct (Htrim s) as (pre & post & Hs & _ & _).
  intros H. rewrite Hs, !occursIn_app in H.
  by destruct (occursIn c pre), (occursIn c (TrimSpace s)).
Qed.

(** In front of graphic text, [TrimSpace] removes a part of what stands
    before it. *)
Lemma TrimSpace_before_graphic (p id : string) :
  allGraphic id = true -> id <> "" ->
  exists q p', p = q +:+ p' /\ TrimSpace (p +:+ id) = p' +:+ id.
Proof.
  intros Hg Hne.
  destruct (Htrim (p +:+ id)) as (pre & post & Hs & Hpre & Hpost).
  assert (post = "") as ->.
  { rewrite <- string_app_assoc in Hs.
    destruct (string_app_eq_app _ _ _ _ Hs) as (l & [[_ ->]|[_ Hid]]).
    - rewrite noGraphic_app in Hpost. apply andb_true_iff in Hpost as [_ H].
      exfalso. apply Hne. by apply graphic_noGraphic.
    - rewrite Hid, allGraphic_app in Hg. apply andb_true_iff in Hg as [_ H].
      by apply graphic_noGraphic. }
  rewrite string_app_nil_r in Hs.
  destruct (string_app_eq_app _ _ _ _ Hs) as (l & [[-> Ht]|[Hpre' Hid]]).
  - exists pre, l. by rewrite Ht.
  - assert (l = "") as ->.
    { rewrite Hpre', noGraphic_app in Hpre.
      apply andb_true_iff in Hpre as [_ H].
      rewrite Hid, allGraphic_app in Hg. apply andb_true_iff in Hg as [H' _].
      by apply graphic_noGraphic. }
    rewrite string_app_nil_r in Hpre'. subst pre.
    exists p, "". rewrite string_app_nil_r. split; [done|].
    change (id = TrimSpace (p +:+ id)) in Hid. rewrite <- Hid. reflexivity.
Qed.

Lemma TrimSpace_graphic (s : string) : allGraphic s = true -> TrimSpace s = s.
Proof.
  intros Hg. destruct s as [|a s]; cycle 1.
  - destruct (TrimSpace_before_graphic "" (String a s) Hg ltac:(done))
      as (q & p' & Hq & Ht).
    destruct q; [|done]. change ("" = p') in Hq. subst p'. exact Ht.
  - destruct (Htrim "") as (pre & post & Hs & _ & _).
    destruct pre; [|done]. change ("" = TrimSpace "" +:+ post) in Hs.
    by destruct (TrimSpace "").
Qed.

End TrimFacts.

Lemma afterLast_app (c : ascii) (a b : string) :
  occursIn c b = false -> afterLast c (a +:+ b) = afterLast c a +:+ b.
Proof.
  intros Hb. induction a as [|x a IH].
  { simpl. by apply afterLast_none. }
  rewrite string_app_cons. simpl. rewrite occursIn_app, Hb, orb_false_r.
  destruct (occursIn c a); [done|].
  by destruct (decide (x = c)).
Qed.

Lemma afterLast_suffix (c : ascii) (s : string) :
  exists q, s = q +:+ afterLast c s.
Proof.
  induction s as [|a s [q IH]]; [by exists ""|].
  simpl. destruct (occursIn c s).
  - exists (String a q). by rewrite string_app_cons, <- IH.
  - destruct (decide (a = c)); [by exists (String a "")|by exists ""].
Qed.

Lemma afterLast_free (c : ascii) (s : string) :
  occursIn c (afterLast c s) = false.
Proof.
  induction s as [|a s IH]; [done|].
  simpl. destruct (occursIn c s) eqn:E; [done|].
  destruct (decide (a = c)) as [|Hne]; [done|].
  simpl. by rewrite decide_False.
Qed.

Lemma occursIn_suffix (c : ascii) (q s : string) :
  occursIn c (q +:+ s) = false -> occursIn c s = false.
Proof. rewrite occursIn_app. by destruct (occursIn c q). Qed.

Lemma endsField_suffix (q s : string) :
  endsField (q +:+ s) = true -> endsField s = true.
Proof.
  induction q as [|a q IH]; [done|].
  rewrite string_app_cons. simpl.
  destruct (q +:+ s) as [|b r] eqn:E; [|exact IH].
  destruct q; [|done]. change (s = "") in E. by subst s.
Qed.

Lemma endsField_space (s : string) :
  endsField s = true -> occursIn ")" s = false ->
  afterLast " " s = "" /\ (s <> "" -> occursIn " " s = true).
Proof.
  induction s as [|a s IH]; [done|].
  intros He Hp. simpl in Hp.
  destruct (decide (a = ")"%char)) as [|Hne]; [done|].
  destruct s as [|b r].
  - simpl in He. rewrite (bool_decide_eq_false_2 _ Hne) in He.
    rewrite orb_false_r in He. apply bool_decide_eq_true in He as ->.
    done.
  - change (endsField (String a (String b r)))
      with (endsField (String b r)) in He.
    destruct (IH He Hp) as [Hl Ho]. specialize (Ho ltac:(done)).
    split; [|intros _; simpl occursIn at 1;
             by destruct (decide (a = " "%char))].
    change (afterLast " " (String a (String b r)))
      with (if occursIn " " (String b r) then afterLast " " (String b r)
            else if decide (a = " "%char) then String b r
                 else String a (String b r)).
    by rewrite Ho.
Qed.

Lemma graphic_no_space (s : string) :
  allGraphic s = true -> occursIn " " s = false.
Proof.
  induction s as [|a s IH]; [done|]. simpl.
  intros H. apply andb_true_iff in H as [Ha Hs].
  destruct (decide (a = " "%char)) as [->|]; [done|]. by apply IH.
Qed.

(** The identifier of a candump line that has the usual form. *)
Lemma canIDOf_field (TrimSpace : string -> string) (p id : string) :
  TrimsSpace TrimSpace ->
  endsField p = true ->
  id <> "" -> allGraphic id = true -> occursIn ")" id = false ->
  canIDOf TrimSpace (p +:+ id) = id.
Proof.
  intros Htrim Hp Hne Hg Hparen. unfold canIDOf.
  destruct (TrimSpace_before_graphic TrimSpace Htrim p id Hg Hne)
    as (q1 & p1 & Hq1 & ->).
  rewrite afterLast_app by done.
  destruct (TrimSpace_before_graphic TrimSpace Htrim (afterLast ")" p1) id
              Hg Hne) as (q2 & p2 & Hq2 & ->).
  rewrite afterLast_app by by apply graphic_no_space.
  assert (Hp1 : endsField p1 = true).
  { rewrite Hq1 in Hp. by apply endsField_suffix in Hp. }
  assert (Hp2 : endsField p2 = true /\ occursIn ")" p2 = false).
  { destruct (afterLast_suffix ")" p1) as [q Hq].
    rewrite Hq in Hp1. apply endsField_suffix in Hp1.
    pose proof (afterLast_free ")" p1) as Hfree.
    rewrite Hq2 in Hp1, Hfree. split.
    - by apply endsField_suffix in Hp1.
    - by apply occursIn_suffix in Hfree. }
  destruct Hp2 as [He2 Hf2].
  destruct (endsField_space p2 He2 Hf2) as [-> _].
  by apply TrimSpace_graphic.
Qed.

Lemma parseCandumpLine_no_panic (TrimSpace : string -> string)
    (line : string) :
  parseCandumpLine TrimSpace line <> Panicked.
Proof.
  rewrite parseCandumpLine_unfold.
  destruct (occursIn "#" line); [|done]. by destruct (hexDecodeString _).
Qed.

(** X16.  [parseCandumpLine] never slices out of range.  It returns an
    error exactly when the line has no '#' or when what follows the first
    '#', spaces removed, is not an even number of hexadecimal digits.
    Otherwise the frame holds the bytes that these digits write, its
    length field is the number of these bytes, the frame is marked
    extended iff the identifier is longer than three bytes, and time stamp,
    direction and bus are left empty: the "(timestamp)" of a candump line
    is never read. *)
Theorem parseCandumpLine_outcome (TrimSpace : string -> string)
    (line : string) :
  let payloadHex := stringsRemove (afterFirst "#" line) " " in
  parseCandumpLine TrimSpace line <> Panicked /\
  (parseCandumpLine TrimSpace line = Failed <->
   occursIn "#" line = false \/ allHex payloadHex = false \/
   Nat.even (String.length payloadHex) = false) /\
  (forall frame,
     parseCandumpLine TrimSpace line = Returned frame ->
     hexDecodeString payloadHex = Some (Data frame) /\
     Length frame = len (Data frame) /\
     ID frame = canIDOf TrimSpace (beforeFirst "#" line) /\
     IsExtended frame = (3 <? strLen (ID frame)) /\
     Timestamp frame = "" /\ Direction frame = "" /\ Bus frame = 0).
Proof.
  cbv zeta. split; [apply parseCandumpLine_no_panic|].
  rewrite parseCandumpLine_unfold.
  pose proof (hexDecodeString_is_Some
                (stringsRemove (afterFirst "#" line) " ")) as Hhex.
  destruct (occursIn "#" line); [|split; [split; auto|done]].
  destruct (hexDecodeString _) as [payload|].
  - assert (Hsome : is_Some (Some payload)) by eauto.
    apply Hhex in Hsome as [H1 H2]. rewrite H1, H2. split.
    + split; [done|]. by intros [?|[?|?]].
    + intros frame [= <-]. simpl. repeat split; try done.
      unfold strLen.
      destruct (3 <? String.length _)%nat eqn:E.
      * apply Nat.ltb_lt in E. symmetry. apply Z.ltb_lt. lia.
      * apply Nat.ltb_ge in E. symmetry. apply Z.ltb_ge. lia.
  - split; [|done]. split; [|done]. intros _. right.
    destruct (allHex _) eqn:E1; [|by left].
    destruct (Nat.even _) eqn:E2; [|by right].
    assert (is_Some (@None (list byte))) as [? ?] by (by apply Hhex).
    done.
Qed.

(** X17.  A candump line of the usual form reads back: for an identifier
    of graphic ASCII characters without '#' and ')', standing at the start
    of the line or after a space or a closing parenthesis, with no '#'
    before it, and for data bytes written as upper-case hexadecimal pairs
    with any spaces between them, the frame returned carries that
    identifier and those bytes. *)
Theorem parseCandumpLine_reads_back (TrimSpace : string -> string)
    (before id payloadHex : string) (data : list byte) :
  TrimsSpace TrimSpace ->
  occursIn "#" before = false -> endsField before = true ->
  id <> "" -> allGraphic id = true ->
  occursIn "#" id = false -> occursIn ")" id = false ->
  stringsRemove payloadHex " " = sprintfX data ->
  parseCandumpLine TrimSpace (before +:+ id +:+ "#" +:+ payloadHex) =
    Returned (candumpFrame id data).
Proof.
  intros Htrim Hb He Hne Hg Hh Hp Hhex.
  rewrite parseCandumpLine_unfold.
  assert (Hline : before +:+ id +:+ "#" +:+ payloadHex
                  = (before +:+ id) +:+ String "#" payloadHex).
  { by rewrite string_app_assoc. }
  rewrite Hline.
  assert (Hfree : occursIn "#" (before +:+ id) = false).
  { by rewrite occursIn_app, Hb, Hh. }
  assert (Hsplit : forall s t,
            occursIn "#" s = false ->
            occursIn "#" (s +:+ String "#" t) = true /\
            beforeFirst "#" (s +:+ String "#" t) = s /\
            afterFirst "#" (s +:+ String "#" t) = t).
  { clear. induction s as [|a s IH]; intros t Hs.
    - simpl. done.
    - simpl in Hs. destruct (decide (a = "#"%char)) as [|Hne]; [done|].
      destruct (IH t Hs) as (H1 & H2 & H3).
      rewrite string_app_cons. simpl. rewrite !decide_False by done.
      by rewrite H1, H2, H3. }
  destruct (Hsplit _ payloadHex Hfree) as (-> & -> & ->).
  rewrite Hhex, hexDecodeString_sprintfX.
  by rewrite canIDOf_field.
Qed.

Lemma AsciiText_trimLeft (s : string) :
  exists pre, s = pre +:+ AsciiText.trimLeft s /\ noGraphic pre = true.
Proof.
  induction s as [|a s (pre & Hs & Hpre)]; [by exists ""|].
  simpl. destruct (AsciiText.isSpace a) eqn:E.
  - exists (String a pre). rewrite string_app_cons, <- Hs.
    split; [done|]. simpl. rewrite Hpre, andb_true_r.
    unfold AsciiText.isSpace, isGraphic in *.
    destruct a as [[] [] [] [] [] [] [] []]; try done.
  - by exists "".
Qed.

Lemma AsciiText_trimRight (s : string) :
  exists post, s = AsciiText.trimRight s +:+ post /\ noGraphic post = true.
Proof.
  induction s as [|a s (post & Hs & Hpost)]; [by exists ""|].
  simpl. destruct (AsciiText.trimRight s) as [|b kept] eqn:Ek.
  - destruct (AsciiText.isSpace a) eqn:E.
    + exists (String a s). split; [done|]. change (s = post) in Hs.
      subst post. simpl. rewrite Hpost, andb_true_r.
      unfold AsciiText.isSpace, isGraphic in *.
      destruct a as [[] [] [] [] [] [] [] []]; try done.
    + exists post. change (s = post) in Hs. by subst post.
  - exists post. rewrite string_app_cons, <- Hs. done.
Qed.

Lemma AsciiText_trims : TrimsSpace AsciiText.TrimSpace.
Proof.
  intros s. unfold AsciiText.TrimSpace.
  destruct (AsciiText_trimLeft s) as (pre & Hs & Hpre).
  destruct (AsciiText_trimRight (AsciiText.trimLeft s)) as (post & Ht & Hpost).
  exists pre, post. by rewrite <- Ht.
Qed.

Lemma parseCandumpLine_reads_back_witness :
  parseCandumpLine AsciiText.TrimSpace "(1700000000.123456) can0 123#A0 18" =
    Returned (candumpFrame "123" [xa0; x18]).
Proof.
  apply (parseCandumpLine_reads_back AsciiText.TrimSpace
           "(1700000000.123456) can0 " "123" "A0 18" [xa0; x18]);
    [apply AsciiText_trims|reflexivity|reflexivity|discriminate
    |reflexivity|reflexivity|reflexivity|reflexivity].
Defined.

(** X18.  The identifier that [parseCandumpLine] returns holds no '#', no
    closing parenthesis and no space, whatever the line is. *)
Theorem candump_id_has_no_separator (TrimSpace : string -> string)
    (line : string) (frame : CANFrame) :
  TrimsSpace TrimSpace ->
  parseCandumpLine TrimSpace line = Returned frame ->
  occursIn "#" (ID frame) = false /\
  occursIn ")" (ID frame) = false /\
  occursIn " " (ID frame) = false.
Proof.
  intros Htrim. rewrite parseCandumpLine_unfold.
  destruct (occursIn "#" line); [|done].
  destruct (hexDecodeString _); [|done].
  intros [= <-]. simpl. unfold canIDOf.
  set (t1 := TrimSpace (beforeFirst "#" line)).
  set (t2 := TrimSpace (afterLast ")" t1)).
  assert (Hkeep : forall c s, occursIn c s = false ->
                              occursIn c (afterLast " " s) = false).
  { intros c s Hs. destruct (afterLast_suffix " " s) as [q Hq].
    rewrite Hq in Hs. by apply occursIn_suffix in Hs. }
  assert (Hkeep' : forall c s, occursIn c s = false ->
                               occursIn c (afterLast ")" s) = false).
  { intros c s Hs. destruct (afterLast_suffix ")" s) as [q Hq].
    rewrite Hq in Hs. by apply occursIn_suffix in Hs. }
  assert (Hhash : occursIn "#" (beforeFirst "#" line) = false).
  { clear. induction line as [|a s IH]; [done|]. simpl.
    destruct (decide (a = "#"%char)) as [|Hne]; [done|].
    simpl. by rewrite decide_False. }
  repeat split.
  - apply TrimSpace_occursIn, Hkeep, TrimSpace_occursIn, Hkeep',
      TrimSpace_occursIn; done.
  - apply TrimSpace_occursIn, Hkeep, TrimSpace_occursIn; [done..|].
    apply afterLast_free.
  - apply TrimSpace_occursIn; [done|]. apply afterLast_free.
Qed.

Lemma candump_id_has_no_separator_witness :
  let frame := candumpFrame "123" [xa0; x18] in
  occursIn "#" (ID frame) = false /\
  occursIn ")" (ID frame) = false /\
  occursIn " " (ID frame) = false.
Proof.
  apply (candump_id_has_no_separator AsciiText.TrimSpace
           "(1700000000.123456) can0 123#A0 18"
           (candumpFrame "123" [xa0; x18])).
  - apply AsciiText_trims.
  - reflexivity.
Defined.

(** *** CSV rows *)

Lemma indexField_lookup (fields : list string) (k : Z) (field : string) :
  0 <= k -> fields !! Z.to_nat k = Some field ->
  indexField fields k = Returned field.
Proof.
  intros Hk Hl. unfold indexField.
  destruct (k <? 0) eqn:E; [lia|]. by rewrite Hl.
Qed.

(** The data loop reads the columns in range and never leaves the row. *)
Lemma csvData_spec (TrimSpace : string -> string) (fields : list string)
    (length : Z) (remaining : nat) :
  forall (i : Z) (data : list byte),
  0 <= i -> 6 + i + Z.of_nat remaining <= len fields ->
  csvData TrimSpace fields length remaining i data =
    Returned
      (data ++
       omap (fun field => parseUint16_8 (TrimSpace field))
         (take (Z.to_nat (Z.min (Z.of_nat remaining) (length - i)))
            (drop (Z.to_nat (6 + i)) fields))).
Proof.
  induction remaining as [|r IH]; intros i data Hi Hlen.
  { simpl csvData.
    replace (Z.to_nat (Z.min (Z.of_nat 0) (length - i))) with 0%nat by lia.
    by rewrite take_0, app_nil_r. }
  simpl csvData. destruct (i <? length) eqn:E; cycle 1.
  { replace (Z.to_nat (Z.min (Z.of_nat (S r)) (length - i))) with 0%nat by lia.
    by rewrite take_0, app_nil_r. }
  assert (Hin : (Z.to_nat (6 + i) < List.length fields)%nat).
  { unfold len in Hlen. lia. }
  destruct (lookup_lt_is_Some_2 fields _ Hin) as [field Hfield].
  rewrite (indexField_lookup fields (6 + i) field) by (done || lia).
  unfold mbind, Result_bind.
  rewrite (drop_S fields field (Z.to_nat (6 + i)) Hfield).
  replace (Z.to_nat (Z.min (Z.of_nat (S r)) (length - i)))
    with (S (Z.to_nat (Z.min (Z.of_nat r) (length - (i + 1))))) by lia.
  rewrite firstn_cons. cbn [omap list_omap].
  replace (S (Z.to_nat (6 + i))) with (Z.to_nat (6 + (i + 1))) by lia.
  assert (Hdead : (length <=? i) = false) by lia.
  rewrite Hdead, andb_false_r, orb_false_r.
  destruct (bool_decide (TrimSpace field = "")) eqn:Eempty.
  { apply bool_decide_eq_true in Eempty. rewrite Eempty.
    change (parseUint16_8 "") with (@None byte).
    apply IH; unfold len in *; lia. }
  destruct (parseUint16_8 (TrimSpace field)) as [b|].
  - rewrite IH by (unfold len in *; lia).
    by rewrite <- app_assoc.
  - apply IH; unfold len in *; lia.
Qed.

(** [parseCSVLine] on a row of at least 14 columns. *)
Lemma parseCSVLine_unfold (TrimSpace ToLower : string -> string)
    (f0 f1 f2 f3 f4 f5 : string) (rest : list string) :
  8 <= len rest ->
  parseCSVLine TrimSpace ToLower (f0 :: f1 :: f2 :: f3 :: f4 :: f5 :: rest) =
    match Atoi f5 with
    | None => Failed
    | Some length =>
        Returned {| Timestamp := f0; ID := f1;
                    IsExtended := bool_decide (ToLower f2 = "true");
                    Direction := f3; Bus := default 0 (Atoi f4);
                    Length := length;
                    Data := csvBytes TrimSpace length
                              (f0 :: f1 :: f2 :: f3 :: f4 :: f5 :: rest) |}
    end.
Proof.
  intros Hrest. unfold parseCSVLine.
  assert (Hlen : len (f0 :: f1 :: f2 :: f3 :: f4 :: f5 :: rest)
                 = 6 + len rest).
  { unfold len. simpl List.length. lia. }
  destruct (_ <? 14) eqn:E; [lia|].
  change (indexField (f0 :: f1 :: f2 :: f3 :: f4 :: f5 :: rest) 0)
    with (Returned f0).
  change (indexField (f0 :: f1 :: f2 :: f3 :: f4 :: f5 :: rest) 1)
    with (Returned f1).
  change (indexField (f0 :: f1 :: f2 :: f3 :: f4 :: f5 :: rest) 2)
    with (Returned f2).
  change (indexField (f0 :: f1 :: f2 :: f3 :: f4 :: f5 :: rest) 3)
    with (Returned f3).
  change (indexField (f0 :: f1 :: f2 :: f3 :: f4 :: f5 :: rest) 4)
    with (Returned f4).
  change (indexField (f0 :: f1 :: f2 :: f3 :: f4 :: f5 :: rest) 5)
    with (Returned f5).
  unfold mbind, Result_bind.
  destruct (Atoi f5) as [length|]; [|done].
  rewrite csvData_spec by lia.
  unfold csvBytes. simpl Z.of_nat.
  replace (length - 0) with length by lia. reflexivity.
Qed.

Lemma short_row (fields : list string) :
  (len fields <? 14) = false ->
  exists f0 f1 f2 f3 f4 f5 rest,
    fields = f0 :: f1 :: f2 :: f3 :: f4 :: f5 :: rest /\ 8 <= len rest.
Proof.
  intros H. apply Z.ltb_ge in H. unfold len in *.
  destruct fields as [|f0 [|f1 [|f2 [|f3 [|f4 [|f5 rest]]]]]];
    simpl List.length in H; try lia.
  exists f0, f1, f2, f3, f4, f5, rest. split; [done|]. lia.
Qed.

Lemma omap_length_le {A B} (f : A -> option B) (l : list A) :
  (List.length (omap f l) <= List.length l)%nat.
Proof.
  induction l as [|x l IH]; [done|].
  cbn [omap list_omap]. destruct (f x); simpl; lia.
Qed.

Lemma csvBytes_length (TrimSpace : string -> string) (length : Z)
    (fields : list string) :
  len (csvBytes TrimSpace length fields) <= Z.min 8 (Z.max 0 length).
Proof.
  unfold csvBytes, len.
  pose proof (omap_length_le
                (fun field => parseUint16_8 (TrimSpace field))
                (take (Z.to_nat (Z.min 8 length)) (drop 6 fields))) as H1.
  rewrite length_take in H1. lia.
Qed.

Lemma parseCSVLine_no_panic (TrimSpace ToLower : string -> string)
    (fields : list string) :
  parseCSVLine TrimSpace ToLower fields <> Panicked.
Proof.
  destruct (len fields <? 14) eqn:E.
  { unfold parseCSVLine. by rewrite E. }
  destruct (short_row fields E) as (f0 & f1 & f2 & f3 & f4 & f5 & rest & -> & ?).
  rewrite parseCSVLine_unfold by done. by destruct (Atoi f5).
Qed.

(** X19.  [parseCSVLine] never indexes a column that the row does not have.
    It returns an error exactly for a row of fewer than 14 columns and for
    a row whose LEN column is no integer.  Otherwise time stamp, identifier
    and direction are the columns 0, 1 and 3 as they stand, the frame is
    extended iff column 2 reads "true" in any letter case, and the bus is
    column 4 as a number, 0 when that column is no integer. *)
Theorem parseCSVLine_outcome (TrimSpace ToLower : string -> string)
    (fields : list string) :
  parseCSVLine TrimSpace ToLower fields <> Panicked /\
  (parseCSVLine TrimSpace ToLower fields = Failed <->
   len fields < 14 \/
   exists lengthField, fields !! 5%nat = Some lengthField /\
                       Atoi lengthField = None) /\
  (forall frame,
     parseCSVLine TrimSpace ToLower fields = Returned frame ->
     fields !! 0%nat = Some (Timestamp frame) /\
     fields !! 1%nat = Some (ID frame) /\
     (exists extended,
        fields !! 2%nat = Some extended /\
        IsExtended frame = bool_decide (ToLower extended = "true")) /\
     fields !! 3%nat = Some (Direction frame) /\
     Bus frame = default 0 (fields !! 4%nat ≫= Atoi)).
Proof.
  split; [apply parseCSVLine_no_panic|].
  destruct (len fields <? 14) eqn:E.
  { unfold parseCSVLine. rewrite E. repeat split; try done.
    intros _. left. lia. }
  destruct (short_row fields E) as (f0 & f1 & f2 & f3 & f4 & f5 & rest & -> & ?).
  rewrite parseCSVLine_unfold by done.
  apply Z.ltb_ge in E. simpl.
  destruct (Atoi f5) as [length|] eqn:E5.
  - split.
    + split; [done|]. intros [?|(lf & [= <-] & ?)]; [lia|congruence].
    + intros frame [= <-]. simpl. repeat split; try done. by exists f2.
  - split; [|done]. split; [|done]. intros _. right. by exists f5.
Qed.

(** X20.  In a frame that [parseCSVLine] returns, the length field is the
    LEN column as read, also when it is negative or above 8, and the data
    are the bytes of the first [min(8, LEN)] data columns that hold a
    hexadecimal byte, in column order: a column that is empty or holds no
    byte is skipped, so that the later bytes move up, and the columns from
    LEN on are not read.  So the data never hold more than 8 bytes nor
    more than LEN. *)
Theorem parseCSVLine_data (TrimSpace ToLower : string -> string)
    (fields : list string) (frame : CANFrame) :
  parseCSVLine TrimSpace ToLower fields = Returned frame ->
  (fields !! 5%nat ≫= Atoi) = Some (Length frame) /\
  Data frame = csvBytes TrimSpace (Length frame) fields /\
  len (Data frame) <= 8 /\
  len (Data frame) <= Z.max 0 (Length frame).
Proof.
  destruct (len fields <? 14) eqn:E.
  { unfold parseCSVLine. by rewrite E. }
  destruct (short_row fields E) as (f0 & f1 & f2 & f3 & f4 & f5 & rest & -> & ?).
  rewrite parseCSVLine_unfold by done.
  simpl. destruct (Atoi f5) as [length|] eqn:E5; [|done].
  intros [= <-]. simpl. repeat split; try done.
  - pose proof (csvBytes_length TrimSpace length
                  (f0 :: f1 :: f2 :: f3 :: f4 :: f5 :: rest)). lia.
  - pose proof (csvBytes_length TrimSpace length
                  (f0 :: f1 :: f2 :: f3 :: f4 :: f5 :: rest)). lia.
Qed.

Lemma parseCSVLine_data_witness :
  let fields :=
    ["1000000"; "123"; "false"; "Rx"; "0"; "3";
     "A0"; ""; "zz"; "18"; "2A"; "00"; "00"; "00"] in
  let frame :=
    {| Timestamp := "1000000"; ID := "123"; IsExtended := false;
       Direction := "Rx"; Bus := 0; Length := 3; Data := [xa0] |} in
  (fields !! 5%nat ≫= Atoi) = Some (Length frame) /\
  Data frame = csvBytes AsciiText.TrimSpace (Length frame) fields /\
  len (Data frame) <= 8 /\
  len (Data frame) <= Z.max 0 (Length frame).
Proof.
  apply (parseCSVLine_data AsciiText.TrimSpace AsciiText.ToLower
           ["1000000"; "123"; "false"; "Rx"; "0"; "3";
            "A0"; ""; "zz"; "18"; "2A"; "00"; "00"; "00"]).
  reflexivity.
Defined.

Lemma omap_hexByte (TrimSpace : string -> string) (data : list byte) :
  TrimsSpace TrimSpace ->
  omap (fun field => parseUint16_8 (TrimSpace field)) (hexByte <$> data) = data.
Proof.
  intros Htrim. induction data as [|b data IH]; [done|].
  rewrite fmap_cons. cbn [omap list_omap].
  rewrite (TrimSpace_graphic TrimSpace Htrim (hexByte b))
    by (destruct b; reflexivity).
  rewrite parseUint16_8_hexByte. simpl. by rewrite IH.
Qed.

(** X21.  A CSV row reads back: when the LEN column holds the number of
    data bytes, at most 8, and the data columns hold them as two
    upper-case hexadecimal digits each, the frame returned carries these
    bytes, whatever the columns after them hold. *)
Theorem parseCSVLine_reads_back (TrimSpace ToLower : string -> string)
    (timestamp id extended direction busField lengthField : string)
    (data : list byte) (padding : list string) :
  TrimsSpace TrimSpace ->
  len data <= 8 ->
  8 <= len data + len padding ->
  Atoi lengthField = Some (len data) ->
  parseCSVLine TrimSpace ToLower
    ([timestamp; id; extended; direction; busField; lengthField]
     ++ (hexByte <$> data) ++ padding) =
    Returned {| Timestamp := timestamp; ID := id;
                IsExtended := bool_decide (ToLower extended = "true");
                Direction := direction; Bus := default 0 (Atoi busField);
                Length := len data; Data := data |}.
Proof.
  intros Htrim Hdata Hpad Hlen.
  change ([timestamp; id; extended; direction; busField; lengthField]
          ++ (hexByte <$> data) ++ padding)
    with (timestamp :: id :: extended :: direction :: busField
          :: lengthField :: ((hexByte <$> data) ++ padding)).
  rewrite parseCSVLine_unfold; cycle 1.
  { unfold len in *. rewrite length_app, length_fmap. lia. }
  rewrite Hlen. do 2 f_equal.
  unfold csvBytes.
  change (drop 6 (timestamp :: id :: extended :: direction :: busField
                  :: lengthField :: ((hexByte <$> data) ++ padding)))
    with ((hexByte <$> data) ++ padding).
  replace (Z.to_nat (Z.min 8 (len data))) with (List.length (hexByte <$> data)).
  - rewrite take_app_length. by apply omap_hexByte.
  - rewrite length_fmap. unfold len in *. lia.
Qed.

Lemma parseCSVLine_reads_back_witness :
  parseCSVLine AsciiText.TrimSpace AsciiText.ToLower
    ["1000000"; "123"; "TRUE"; "Rx"; "x"; "2";
     "A0"; "18"; "FF"; "FF"; "FF"; "FF"; "FF"; "FF"] =
    Returned {| Timestamp := "1000000"; ID := "123"; IsExtended := true;
                Direction := "Rx"; Bus := 0; Length := 2;
                Data := [xa0; x18] |}.
Proof.
  apply (parseCSVLine_reads_back AsciiText.TrimSpace AsciiText.ToLower
           "1000000" "123" "TRUE" "Rx" "x" "2" [xa0; x18]
           ["FF"; "FF"; "FF"; "FF"; "FF"; "FF"]).
  - apply AsciiText_trims.
  - vm_compute. discriminate.
  - vm_compute. discriminate.
  - reflexivity.
Defined.

(** *** Classified frames *)

Lemma classifyFrame_fields (frame : CANFrame) (ts : spec_float) (seq : Z)
    (info : FrameInfo) :
  classifyFrame frame ts seq = Some info ->
  Frame info = frame /\ TimestampFloat info = ts /\ SequenceNum info = seq /\
  exists payload,
    Data frame = Header info :: payload /\
    FrameType info =
      (if isStartHeader (Header info) then "START"
       else if isContinuationHeader (Header info) then "CONT"
       else if checkIfHeartbeat frame then "HEARTBEAT" else "UNACCOUNTED") /\
    IsCBOR info =
      isStartHeader (Header info) || isContinuationHeader (Header info) /\
    IsHeartbeat info =
      negb (isStartHeader (Header info) || isContinuationHeader (Header info))
      && checkIfHeartbeat frame.
Proof.
  unfold classifyFrame. destruct (Data frame) as [|header payload]; [done|].
  destruct (isStartHeader header) eqn:Hs;
    [|destruct (isContinuationHeader header) eqn:Hc;
      [|destruct (checkIfHeartbeat frame) eqn:Hh]];
    intros [= <-]; simpl; rewrite ?Hs, ?Hc, ?Hh; eauto 10.
Qed.

Lemma classifyFrame_isClassified (frame : CANFrame) (ts : spec_float)
    (seq : Z) (info : FrameInfo) :
  classifyFrame frame ts seq = Some info -> isClassified info.
Proof.
  intros H. destruct (classifyFrame_fields _ _ _ _ H) as (<- & <- & <- & _).
  exact H.
Qed.

(** X22.  A record that [processFile] builds for a frame is consistent: the
    frame has data and the header is its first byte; the frame type is
    START or CONT exactly when the record is marked as CBOR, HEARTBEAT
    exactly when it is marked as heartbeat, UNACCOUNTED exactly when it is
    marked as neither, which is when the comparison takes it for
    unaccounted; no record is marked as both; and the type is the answer
    of the classifier. *)
Theorem classified_frame_consistent (frame : CANFrame) (ts : spec_float)
    (seq : Z) (info : FrameInfo) :
  classifyFrame frame ts seq = Some info ->
  Frame info = frame /\
  (exists payload, Data frame = Header info :: payload) /\
  classify frame = Some (FrameType info) /\
  (IsCBOR info = true <->
   FrameType info = "START" \/ FrameType info = "CONT") /\
  (IsHeartbeat info = true <-> FrameType info = "HEARTBEAT") /\
  (isUnaccounted info = true <-> FrameType info = "UNACCOUNTED") /\
  (IsCBOR info && IsHeartbeat info = false).
Proof.
  intros H.
  destruct (classifyFrame_fields _ _ _ _ H)
    as (Hf & _ & _ & payload & HD & Ht & Hc & Hh).
  split; [done|]. split; [by exists payload|].
  split. { rewrite (classify_unfold frame _ _ HD). by rewrite Ht. }
  unfold isUnaccounted. rewrite Ht, Hc, Hh.
  destruct (isStartHeader (Header info)),
    (isContinuationHeader (Header info)), (checkIfHeartbeat frame);
    simpl; repeat split; try done; try tauto;
    try (intros [?|?]; done); auto.
Qed.

Lemma classified_frame_consistent_witness :
  let frame := candumpFrame "0111100000" [x00; x00] in
  let info :=
    {| Frame := frame; TimestampFloat := S754_zero false; Header := x00;
       FrameType := "HEARTBEAT"; IsHeartbeat := true; IsCBOR := false;
       SequenceNum := 7 |} in
  Frame info = frame /\
  (exists payload, Data frame = Header info :: payload) /\
  classify frame = Some (FrameType info) /\
  (IsCBOR info = true <->
   FrameType info = "START" \/ FrameType info = "CONT") /\
  (IsHeartbeat info = true <-> FrameType info = "HEARTBEAT") /\
  (isUnaccounted info = true <-> FrameType info = "UNACCOUNTED") /\
  (IsCBOR info && IsHeartbeat info = false).
Proof.
  apply (classified_frame_consistent
           (candumpFrame "0111100000" [x00; x00]) (S754_zero false) 7).
  reflexivity.
Defined.

(** *** The loop of [processFile] *)

Lemma stringsSplit_length (s : string) (sep : ascii) :
  List.length (stringsSplit s sep) = S (countByte sep s).
Proof.
  induction s as [|a s IH]; [done|]. simpl.
  destruct (decide (a = sep)); simpl; [by rewrite IH|].
  destruct (stringsSplit s sep); simpl in *; lia.
Qed.

Section ScanFacts.
Variable TrimSpace ToLower : string -> string.
Variable ParseFloat : string -> option spec_float.

(** One round of the loop: the line is dropped, or a frame is read from it
    and its record appended under the next sequence number. *)
Lemma scanLine_cases (st : Scan) (line : string) :
  exists st',
    scanLine TrimSpace ToLower ParseFloat st line = Returned st' /\
    lineNum st' = int_incr (lineNum st) /\
    ((sequenceNum st' = sequenceNum st /\ allFrames st' = allFrames st) \/
     exists frame info,
       (if isCSV st'
        then parseCSVLine TrimSpace ToLower (stringsSplit line ",")
        else parseCandumpLine TrimSpace line) = Returned frame /\
       classifyFrame frame (timestampOf ParseFloat (isCSV st') frame)
         (int_incr (sequenceNum st)) = Some info /\
       sequenceNum st' = int_incr (sequenceNum st) /\
       allFrames st' = allFrames st ++ [info]).
Proof.
  unfold scanLine.
  destruct (decide (TrimSpace line = "")); [eexists; eauto|].
  destruct (_ && (_ || _)); [eexists; eauto|].
  set (isCSV1 := if (int_incr (lineNum st) =? 1) && stringsContains line "#"
                 then false else isCSV st).
  set (asCSV := isCSV1 || (stringsContains line ","
                           && negb (stringsContains line "#"))).
  assert (HisCSV2 : (if asCSV then true else isCSV1) = asCSV).
  { unfold asCSV. by destruct isCSV1, (_ && _). }
  rewrite HisCSV2.
  pose proof (parseCSVLine_no_panic TrimSpace ToLower (stringsSplit line ","))
    as Hcsv.
  pose proof (parseCandumpLine_no_panic TrimSpace line) as Hcan.
  destruct (if asCSV
            then parseCSVLine TrimSpace ToLower (stringsSplit line ",")
            else parseCandumpLine TrimSpace line) as [frame| |] eqn:Ep.
  - destruct (classifyFrame frame _ _) as [info|] eqn:Ec.
    + eexists. split; [done|]. split; [done|]. right.
      exists frame, info. simpl. by rewrite Ep.
    + eexists; eauto.
  - eexists; eauto.
  - by destruct asCSV.
Qed.

(** What the loop keeps, for fewer than 2^63 lines. *)
Lemma scanLines_invariant (lines : list string) (st : Scan) :
  0 <= sequenceNum st ->
  sequenceNum st + len lines <= int_max ->
  exists st',
    scanLines TrimSpace ToLower ParseFloat st lines = Returned st' /\
    exists new,
      allFrames st' = allFrames st ++ new /\
      sequenceNum st' = sequenceNum st + len new /\
      len new <= len lines /\
      SequenceNum <$> new = seqZ (sequenceNum st + 1) (len new) /\
      Forall isClassified new.
Proof.
  revert st. induction lines as [|line lines IH]; intros st H0 Hmax.
  { exists st. split; [done|]. exists []. rewrite app_nil_r.
    unfold len. simpl. repeat split; try done; lia. }
  assert (Hlen : len (line :: lines) = 1 + len lines).
  { unfold len. simpl List.length. lia. }
  assert (Hl : 0 <= len lines) by (unfold len; lia).
  rewrite Hlen in Hmax.
  destruct (scanLine_cases st line) as (st1 & Hst1 & _ & Hcase).
  simpl scanLines. rewrite Hst1. unfold mbind at 1, Result_bind.
  destruct Hcase as [[Hseq Hfr]|(frame & info & _ & Hc & Hseq & Hfr)].
  - destruct (IH st1) as (st' & Hst' & new & Hn1 & Hn2 & Hn3 & Hn4 & Hn5);
      [lia..|].
    exists st'. split; [done|]. exists new.
    rewrite Hn1, Hn2, Hn4, Hfr, Hseq. repeat split; try done. lia.
  - rewrite int_incr_small in Hseq, Hc by lia.
    destruct (IH st1) as (st' & Hst' & new & Hn1 & Hn2 & Hn3 & Hn4 & Hn5);
      [lia..|].
    exists st'. split; [done|]. exists (info :: new).
    assert (Hnew : len (info :: new) = 1 + len new).
    { unfold len. simpl List.length. lia. }
    assert (Hn0 : 0 <= len new) by (unfold len; lia).
    rewrite Hn1, Hn2, Hfr, Hseq, Hnew, <- app_assoc.
    repeat split; try done; try lia.
    + rewrite fmap_cons, Hn4, Hseq.
      destruct (classifyFrame_fields _ _ _ _ Hc) as (_ & _ & -> & _).
      rewrite (seqZ_cons (sequenceNum st + 1) (1 + len new)) by lia.
      f_equal. f_equal; lia.
    + constructor; [|done]. by apply (classifyFrame_isClassified _ _ _ _ Hc).
Qed.

(** Without a comma no line is read as a CSV row with a frame. *)
Lemma parseCSVLine_no_comma (line : string) :
  (countByte "," line < 13)%nat ->
  parseCSVLine TrimSpace ToLower (stringsSplit line ",") = Failed.
Proof.
  intros Hc. unfold parseCSVLine.
  assert (Hlen : (len (stringsSplit line ",") <? 14) = true).
  { apply Z.ltb_lt. unfold len. rewrite stringsSplit_length. lia. }
  by rewrite Hlen.
Qed.

Lemma timestampOf_candump (isCSV' : bool) (line : string) (frame : CANFrame) :
  parseCandumpLine TrimSpace line = Returned frame ->
  timestampOf ParseFloat isCSV' frame = S754_zero false.
Proof.
  rewrite parseCandumpLine_unfold.
  destruct (occursIn "#" line); [|done].
  destruct (hexDecodeString _); [|done].
  by intros [= <-].
Qed.

Lemma scanLines_candump (lines : list string) (st : Scan) :
  Forall (fun line => (countByte "," line < 13)%nat) lines ->
  Forall (fun info => TimestampFloat info = S754_zero false) (allFrames st) ->
  forall st',
    scanLines TrimSpace ToLower ParseFloat st lines = Returned st' ->
    Forall (fun info => TimestampFloat info = S754_zero false) (allFrames st').
Proof.
  revert st. induction lines as [|line lines IH]; intros st Hl Hst st'.
  { by intros [= <-]. }
  apply Forall_cons in Hl as [Hline Hl].
  destruct (scanLine_cases st line) as (st1 & Hst1 & _ & Hcase).
  simpl scanLines. rewrite Hst1. unfold mbind at 1, Result_bind.
  apply IH; [done|].
  destruct Hcase as [[_ ->]|(frame & info & Hp & Hc & _ & ->)]; [done|].
  apply Forall_app. split; [done|]. constructor; [|done].
  destruct (isCSV st1).
  { by rewrite parseCSVLine_no_comma in Hp. }
  destruct (classifyFrame_fields _ _ _ _ Hc) as (_ & -> & _).
  by apply (timestampOf_candump _ line).
Qed.

End ScanFacts.

(** X23.  [processFile] never fails on a file that it can open, for fewer
    than 2^63 lines: it returns at most one record per line; the records
    carry the sequence numbers 1, 2, 3, ... in the order of the file; and
    every record is the classification of its own frame, which has data. *)
Theorem processFile_numbers_frames (TrimSpace ToLower : string -> string)
    (ParseFloat : string -> option spec_float) (lines : list string) :
  len lines <= int_max ->
  exists frames,
    processFile TrimSpace ToLower ParseFloat (Some lines) = Returned frames /\
    len frames <= len lines /\
    SequenceNum <$> frames = seqZ 1 (len frames) /\
    Forall isClassified frames.
Proof.
  intros Hlen. unfold processFile.
  destruct (scanLines_invariant TrimSpace ToLower ParseFloat lines scanStart)
    as (st' & Hst' & new & Hn1 & _ & Hn3 & Hn4 & Hn5); [done|simpl; lia|].
  fold scanStart. rewrite Hst'.
  change (allFrames scanStart ++ new) with new in Hn1.
  change (sequenceNum scanStart + 1) with 1 in Hn4.
  exists new. unfold mbind, Result_bind. rewrite Hn1. auto.
Qed.

Lemma processFile_numbers_frames_witness :
  exists frames,
    processFile AsciiText.TrimSpace AsciiText.ToLower AsciiText.ParseFloat
      (Some ["(0.1) can0 123#A018"; ""; "no frame";
             "(0.2) can0 123#112A"; "(0.3) can0 222#"]) = Returned frames /\
    len frames <= 5 /\
    SequenceNum <$> frames = seqZ 1 (len frames) /\
    Forall isClassified frames.
Proof.
  apply (processFile_numbers_frames AsciiText.TrimSpace AsciiText.ToLower
           AsciiText.ParseFloat
           ["(0.1) can0 123#A018"; ""; "no frame";
            "(0.2) can0 123#112A"; "(0.3) can0 222#"]).
  vm_compute. discriminate.
Defined.

Lemma zero_timestamps_sorted (l : list FrameInfo) (start : Z) :
  SequenceNum <$> l = seqZ start (len l) ->
  Forall (fun info => TimestampFloat info = S754_zero false) l ->
  StronglySorted (fun a b => frameLess a b = true) l.
Proof.
  revert start. induction l as [|a l IH]; intros start Hseq Hz; [constructor|].
  apply Forall_cons in Hz as [Ha Hz].
  assert (Hlen : len (a :: l) = 1 + len l).
  { unfold len. simpl List.length. lia. }
  assert (Hl : 0 <= len l) by (unfold len; lia).
  rewrite Hlen, seqZ_cons, fmap_cons in Hseq by lia.
  injection Hseq as Hsa Hseq.
  replace (Z.pred (1 + len l)) with (len l) in Hseq by lia.
  replace (Z.succ start) with (start + 1) in Hseq by lia.
  constructor; [by apply (IH (start + 1))|].
  rewrite Forall_forall in Hz |- *. intros b Hb.
  assert (Hsb : SequenceNum b ∈ seqZ (start + 1) (len l)).
  { rewrite <- Hseq. apply list_elem_of_fmap. by exists b. }
  apply elem_of_seqZ in Hsb.
  unfold frameLess. rewrite Ha, (Hz b Hb). simpl.
  apply Z.ltb_lt. lia.
Qed.

(** X24.  A capture in which no line holds 13 commas, so that no line is a
    CSV row of 14 columns, as in a candump log: the timestamps of all
    records are zero, since [parseCandumpLine] leaves the time stamp empty,
    and with their sequence numbers the records stand in strictly
    ascending order of (timestamp, sequence number), the order of the
    grouped display. *)
Theorem candump_capture_in_display_order (TrimSpace ToLower : string -> string)
    (ParseFloat : string -> option spec_float) (lines : list string)
    (frames : list FrameInfo) :
  len lines <= int_max ->
  Forall (fun line => (countByte "," line < 13)%nat) lines ->
  processFile TrimSpace ToLower ParseFloat (Some lines) = Returned frames ->
  Forall (fun info => TimestampFloat info = S754_zero false) frames /\
  StronglySorted (fun a b => frameLess a b = true) frames.
Proof.
  intros Hlen Hcount Hp. unfold processFile in Hp. fold scanStart in Hp.
  destruct (scanLines_invariant TrimSpace ToLower ParseFloat lines scanStart)
    as (st' & Hst' & new & Hn1 & _ & _ & Hn4 & _); [done|simpl; lia|].
  rewrite Hst' in Hp. injection Hp as <-.
  assert (Hz : Forall (fun info => TimestampFloat info = S754_zero false)
                 (allFrames st')).
  { by apply (scanLines_candump TrimSpace ToLower ParseFloat lines scanStart). }
  split; [done|].
  simpl in Hn1, Hn4. rewrite Hn1 in Hz |- *.
  by apply (zero_timestamps_sorted new 1).
Qed.

Lemma candump_capture_in_display_order_witness :
  let frames :=
    [ {| Frame := candumpFrame "123" [xa0; x18];
         TimestampFloat := S754_zero false; Header := xa0;
         FrameType := "START"; IsHeartbeat := false; IsCBOR := true;
         SequenceNum := 1 |};
      {| Frame := candumpFrame "222" [x80];
         TimestampFloat := S754_zero false; Header := x80;
         FrameType := "UNACCOUNTED"; IsHeartbeat := false; IsCBOR := false;
         SequenceNum := 2 |} ] in
  Forall (fun info => TimestampFloat info = S754_zero false) frames /\
  StronglySorted (fun a b => frameLess a b = true) frames.
Proof.
  apply (candump_capture_in_display_order AsciiText.TrimSpace
           AsciiText.ToLower AsciiText.ParseFloat
           ["(0.1) can0 123#A018"; "(0.2) can0 222#80"]).
  - vm_compute. discriminate.
  - repeat constructor.
  - reflexivity.
Defined.

(** X25.  Once a file is read as CSV it stays so: after a first line, in
    CSV mode, every further line is split at its commas, and a line with
    fewer than 13 commas, such as a candump line, adds no frame. *)
Theorem csv_mode_is_sticky (TrimSpace ToLower : string -> string)
    (ParseFloat : string -> option spec_float) (st : Scan) (line : string) :
  isCSV st = true ->
  0 < lineNum st < int_max ->
  exists st',
    scanLine TrimSpace ToLower ParseFloat st line = Returned st' /\
    isCSV st' = true /\
    lineNum st' = lineNum st + 1 /\
    ((countByte "," line < 13)%nat ->
     allFrames st' = allFrames st /\ sequenceNum st' = sequenceNum st).
Proof.
  intros Hcsv Hnum.
  destruct (scanLine_cases TrimSpace ToLower ParseFloat st line)
    as (st' & Hst' & Hline & Hcase).
  exists st'. split; [done|].
  rewrite int_incr_small in Hline by lia.
  assert (Hsticky : isCSV st' = true).
  { unfold scanLine in Hst'. rewrite int_incr_small in Hst' by lia.
    assert (Hone : (lineNum st + 1 =? 1) = false) by lia.
    rewrite Hone, Hcsv in Hst'. simpl in Hst'.
    destruct (decide (TrimSpace line = "")); [by injection Hst' as <-|].
    destruct (parseCSVLine _ _ _) as [frame| |]; [| |done].
    - destruct (classifyFrame _ _ _); by injection Hst' as <-.
    - by injection Hst' as <-. }
  repeat split; try done.
  - destruct Hcase as [[_ ?]|(frame & info & Hp & _)]; [done|].
    rewrite Hsticky, parseCSVLine_no_comma in Hp; done.
  - destruct Hcase as [[? _]|(frame & info & Hp & _)]; [done|].
    rewrite Hsticky, parseCSVLine_no_comma in Hp; done.
Qed.

Lemma csv_mode_is_sticky_witness :
  let st := {| isCSV := true; lineNum := 1; sequenceNum := 0;
               allFrames := [] |} in
  exists st',
    scanLine AsciiText.TrimSpace AsciiText.ToLower AsciiText.ParseFloat st
      "(0.1) can0 123#A018" = Returned st' /\
    isCSV st' = true /\
    lineNum st' = lineNum st + 1 /\
    ((countByte "," "(0.1) can0 123#A018" < 13)%nat ->
     allFrames st' = allFrames st /\ sequenceNum st' = sequenceNum st).
Proof.
  apply (csv_mode_is_sticky AsciiText.TrimSpace AsciiText.ToLower
           AsciiText.ParseFloat
           {| isCSV := true; lineNum := 1; sequenceNum := 0;
              allFrames := [] |} "(0.1) can0 123#A018").
  - reflexivity.
  - vm_compute. split; reflexivity.
Defined.

(** *** The loop of [compareFiles] *)





(** *** The timestamp of a line *)

Lemma stringTake_length (n : nat) (s : string) :
  (n <= String.length s)%nat -> String.length (stringTake n s) = n.
Proof.
  revert s. induction n as [|n IH]; intros s Hn; [by destruct s|].
  destruct s as [|a s]; simpl in *; [lia|]. rewrite IH; lia.
Qed.

Lemma stringsIndex_length (s : string) (c : ascii) :
  occursIn c s = true -> stringsIndex s c = strLen (beforeFirst c s).
Proof.
  intros Ho. pose proof (stringsIndex_spec s c) as H. rewrite Ho in H.
  destruct H as (Hi & Ht & _). rewrite <- Ht. unfold strLen in *.
  rewrite stringTake_length; lia.
Qed.

Lemma beforeFirst_app (c : ascii) (s t : string) :
  occursIn c s = false -> beforeFirst c (s +:+ String c t) = s.
Proof.
  induction s as [|a s IH]; intros Hs.
  { simpl. by rewrite decide_True. }
  simpl in Hs. destruct (decide (a = c)); [done|].
  rewrite string_app_cons. simpl. rewrite decide_False by done.
  by rewrite IH.
Qed.

Lemma occursIn_here (c : ascii) (s t : string) :
  occursIn c (s +:+ String c t) = true.
Proof.
  rewrite occursIn_app. simpl. rewrite decide_True by done.
  apply orb_true_r.
Qed.

Lemma stringDrop_app (s t : string) :
  stringDrop (String.length s) (s +:+ t) = t.
Proof. induction s as [|a s IH]; [by destruct t|]. exact IH. Qed.

Lemma stringTake_app (s t : string) :
  stringTake (String.length s) (s +:+ t) = s.
Proof.
  induction s as [|a s IH]; [by destruct t|].
  rewrite string_app_cons. simpl. by rewrite IH.
Qed.

Lemma string_length_app (s t : string) :
  String.length (s +:+ t) = (String.length s + String.length t)%nat.
Proof.
  induction s as [|a s IH]; [done|]. rewrite string_app_cons. simpl.
  by rewrite IH.
Qed.

Lemma stringsSplit_head (s : string) (sep : ascii) :
  exists pieces, stringsSplit s sep = beforeFirst sep s :: pieces.
Proof.
  induction s as [|a s [pieces IH]]; [by exists []|].
  simpl. destruct (decide (a = sep)); [by eexists|].
  rewrite IH. by eexists.
Qed.

Section TimestampFacts.
Variable TrimSpace : string -> string.
Variable ParseFloat : string -> option spec_float.

Lemma parseTimestamp_csv (line : string) :
  parseTimestamp TrimSpace ParseFloat line true =
    returnParseFloat ParseFloat (TrimSpace (beforeFirst "," line)).
Proof.
  unfold parseTimestamp.
  destruct (stringsSplit_head line ",") as [pieces ->].
  reflexivity.
Qed.

Lemma returnParseFloat_no_panic (s : string) :
  returnParseFloat ParseFloat s <> Panicked.
Proof. unfold returnParseFloat. by destruct (ParseFloat s). Qed.

Lemma parseTimestamp_no_panic (line : string) (isCSV' : bool) :
  parseTimestamp TrimSpace ParseFloat line isCSV' <> Panicked.
Proof.
  destruct isCSV'.
  { rewrite parseTimestamp_csv. apply returnParseFloat_no_panic. }
  unfold parseTimestamp, sliceRange.
  pose proof (stringsIndex_spec line "(") as H1.
  pose proof (stringsIndex_spec line ")") as H2.
  destruct (occursIn "(" line); [|by rewrite H1].
  destruct (occursIn ")" line); [|rewrite H2; by rewrite andb_false_r].
  destruct H1 as (H1 & _). destruct H2 as (H2 & _).
  destruct (_ && _ && _) eqn:E; [|done].
  apply andb_true_iff in E as [_ E]. apply Z.ltb_lt in E.
  assert (Hin : (stringsIndex line "(" + 1 <? 0)
                || (stringsIndex line ")" <? stringsIndex line "(" + 1)
                || (strLen line <? stringsIndex line ")") = false).
  { repeat (apply orb_false_iff; split); apply Z.ltb_ge; lia. }
  rewrite Hin. apply returnParseFloat_no_panic.
Qed.

Lemma parseTimestamp_parenthesis (before ts rest : string) :
  occursIn "(" before = false -> occursIn ")" before = false ->
  occursIn ")" ts = false ->
  parseTimestamp TrimSpace ParseFloat
    (before +:+ "(" +:+ ts +:+ ")" +:+ rest) false =
    returnParseFloat ParseFloat ts.
Proof.
  intros Hb1 Hb2 Hts. unfold parseTimestamp, sliceRange.
  set (line := before +:+ "(" +:+ ts +:+ ")" +:+ rest).
  assert (Hl1 : line = before +:+ String "(" (ts +:+ ")" +:+ rest)) by done.
  assert (Hl2 : line = (before +:+ "(" +:+ ts) +:+ String ")" rest).
  { unfold line. by rewrite !string_app_assoc. }
  assert (Hfree : occursIn ")" (before +:+ "(" +:+ ts) = false).
  { rewrite !occursIn_app, Hb2, Hts. reflexivity. }
  assert (Hstart : stringsIndex line "(" = strLen before).
  { rewrite stringsIndex_length; rewrite Hl1;
      [by rewrite beforeFirst_app|apply occursIn_here]. }
  assert (Hend : stringsIndex line ")" = strLen before + 1 + strLen ts).
  { rewrite stringsIndex_length; rewrite Hl2;
      [|apply occursIn_here].
    rewrite beforeFirst_app by done. unfold strLen.
    rewrite !string_length_app. simpl. lia. }
  rewrite Hstart, Hend.
  pose proof (strLen_nonneg before). pose proof (strLen_nonneg ts).
  assert (Hlen : strLen line = strLen before + 1 + strLen ts + 1 + strLen rest).
  { unfold line, strLen. rewrite !string_length_app. simpl. lia. }
  pose proof (strLen_nonneg rest).
  assert (Hc : negb (strLen before =? -1)
               && negb (strLen before + 1 + strLen ts =? -1)
               && (strLen before <? strLen before + 1 + strLen ts) = true).
  { repeat (apply andb_true_iff; split);
      try apply negb_true_iff; try apply Z.eqb_neq; try apply Z.ltb_lt; lia. }
  rewrite Hc.
  assert (Hin : (strLen before + 1 <? 0)
                || (strLen before + 1 + strLen ts <? strLen before + 1)
                || (strLen line <? strLen before + 1 + strLen ts) = false).
  { repeat (apply orb_false_iff; split); apply Z.ltb_ge; lia. }
  rewrite Hin. unfold mbind, Result_bind.
  replace (Z.to_nat (strLen before + 1))
    with (String.length (before +:+ "(")).
  2:{ unfold strLen. rewrite string_length_app. simpl. lia. }
  replace (Z.to_nat (strLen before + 1 + strLen ts - (strLen before + 1)))
    with (String.length ts) by (unfold strLen; lia).
  assert (Hl3 : line = (before +:+ "(") +:+ ts +:+ ")" +:+ rest).
  { unfold line. by rewrite !string_app_assoc. }
  by rewrite Hl3, stringDrop_app, stringTake_app.
Qed.

Lemma parseTimestamp_without (line : string) :
  occursIn "(" line = false \/ occursIn ")" line = false ->
  parseTimestamp TrimSpace ParseFloat line false = Failed.
Proof.
  unfold parseTimestamp.
  pose proof (stringsIndex_spec line "(") as H1.
  pose proof (stringsIndex_spec line ")") as H2.
  intros [Ho|Ho]; rewrite Ho in *.
  - by rewrite H1.
  - rewrite H2. by rewrite andb_false_r.
Qed.

End TimestampFacts.

(** X27.  [parseTimestamp] never slices out of range.  For a CSV line it
    parses the first column, trimmed.  For a candump line it parses what
    stands between the first '(' and the first ')' when the '(' comes
    first, so that a line "(timestamp) interface ID#PAYLOAD" gives its
    timestamp; a line without '(' or without ')' gives an error. *)
Theorem parseTimestamp_reads (TrimSpace : string -> string)
    (ParseFloat : string -> option spec_float) :
  (forall line isCSV',
     parseTimestamp TrimSpace ParseFloat line isCSV' <> Panicked) /\
  (forall line,
     parseTimestamp TrimSpace ParseFloat line true =
       returnParseFloat ParseFloat (TrimSpace (beforeFirst "," line))) /\
  (forall before ts rest,
     occursIn "(" before = false -> occursIn ")" before = false ->
     occursIn ")" ts = false ->
     parseTimestamp TrimSpace ParseFloat
       (before +:+ "(" +:+ ts +:+ ")" +:+ rest) false =
       returnParseFloat ParseFloat ts) /\
  (forall line,
     occursIn "(" line = false \/ occursIn ")" line = false ->
     parseTimestamp TrimSpace ParseFloat line false = Failed).
Proof.
  split; [apply parseTimestamp_no_panic|].
  split; [apply parseTimestamp_csv|].
  split; [apply parseTimestamp_parenthesis|apply parseTimestamp_without].
Qed.

(** *** Printing a decoded item *)

Lemma Value_nested_ind (P : Value -> Prop) :
  (forall v, P (VBytes v)) ->
  (forall v, P (VText v)) ->
  (forall v, Forall P v -> P (VArray v)) ->
  (forall v, Forall (fun kv => P kv.2) v -> P (VMap v)) ->
  (forall v, P (VUint v)) ->
  (forall v, P (VInt v)) ->
  (forall v, P (VBool v)) ->
  P VNil -> P VOther ->
  forall item, P item.
Proof.
  intros Hbytes Htext Harray Hmap Huint Hint Hbool Hnil Hother.
  fix IH 1. intros [v|v|v|v|v|v|v| |].
  - apply Hbytes.
  - apply Htext.
  - apply Harray.
    exact ((fix all (l : list Value) : Forall P l :=
              match l with
              | [] => @List.Forall_nil _ P
              | x :: l' => @List.Forall_cons _ P x l' (IH x) (all l')
              end) v).
  - apply Hmap.
    exact ((fix all (l : list (Value * Value))
              : Forall (fun kv => P kv.2) l :=
              match l with
              | [] => @List.Forall_nil _ _
              | kv :: l' =>
                  @List.Forall_cons _ (fun kv => P kv.2) kv l' (IH kv.2)
                    (all l')
              end) v).
  - apply Huint.
  - apply Hint.
  - apply Hbool.
  - apply Hnil.
  - apply Hother.
Qed.

Lemma asciiOf_printable (v : list byte) :
  Forall (fun b => isPrintable b = true) (asciiOf v).
Proof.
  unfold asciiOf. apply Forall_fmap, Forall_forall. intros b _. simpl.
  by destruct (isPrintable b) eqn:E.
Qed.

(** X28.  The "ASCII:" line that [decodeAndPrint] prints for a byte string
    has one character per byte, each of them printable (32 to 126): the
    byte itself where it is printable and a dot elsewhere, so that a
    printable byte string is shown as it is.  The hint at a nonce is
    printed exactly for the byte strings of 9 bytes. *)
Theorem ascii_line_printable (v : list byte) (indent : nat) :
  let printed := decodeAndPrint (VBytes v) indent in
  ((2 * indent)%nat, AsciiLine (asciiOf v)) ∈ printed /\
  len (asciiOf v) = len v /\
  Forall (fun b => isPrintable b = true) (asciiOf v) /\
  (forall (i : nat) b,
     v !! i = Some b ->
     asciiOf v !! i = Some (if isPrintable b then b else "."%byte)) /\
  (Forall (fun b => isPrintable b = true) v -> asciiOf v = v) /\
  (((2 * indent)%nat, NonceHint) ∈ printed <-> len v = 9).
Proof.
  cbv zeta. split; [|split; [|split; [|split; [|split]]]].
  - simpl. do 2 apply list_elem_of_further. apply list_elem_of_here.
  - unfold asciiOf, len. by rewrite length_fmap.
  - apply asciiOf_printable.
  - intros i b Hb. unfold asciiOf. by rewrite list_lookup_fmap, Hb.
  - intros Hp. unfold asciiOf. induction Hp as [|b l Hb Hp IH]; [done|].
    rewrite fmap_cons, IH, Hb. done.
  - simpl. destruct (decide (len v = 9)) as [E|E].
    + split; [done|]. intros _.
      do 3 apply list_elem_of_further. apply list_elem_of_here.
    + split; [|done]. intros Hin.
      repeat (apply elem_of_cons in Hin as [Hin|Hin]; [done|]).
      by apply elem_of_nil in Hin.
Qed.

Lemma arrayLines_structure (print : Value -> list (nat * Line))
    (spaces bound : nat) (elems : list Value) :
  (bound <= spaces)%nat ->
  Forall (fun elem =>
            Forall (fun l => (bound <= l.1)%nat) (print elem) /\
            List.length (List.filter (fun l => isTypeLine l.2) (print elem))
            = valuesIn elem) elems ->
  forall i,
    Forall (fun l => (bound <= l.1)%nat) (arrayLines print spaces i elems) /\
    List.length (List.filter (fun l => isTypeLine l.2)
                   (arrayLines print spaces i elems))
    = list_sum (map valuesIn elems).
Proof.
  intros Hb. induction 1 as [|elem rest [He1 He2] _ IH]; intros i; [done|].
  destruct (IH (i + 1)) as [IH1 IH2]. split.
  - simpl. constructor; [done|]. by apply Forall_app.
  - simpl. rewrite List.filter_app, length_app. by rewrite He2, IH2.
Qed.

Lemma mapLines_structure (print : Value -> list (nat * Line))
    (spaces bound : nat) (entries : list (Value * Value)) :
  (bound <= spaces)%nat ->
  Forall (fun entry =>
            Forall (fun l => (bound <= l.1)%nat) (print entry.2) /\
            List.length (List.filter (fun l => isTypeLine l.2)
                           (print entry.2))
            = valuesIn entry.2) entries ->
  Forall (fun l => (bound <= l.1)%nat) (mapLines print spaces entries) /\
  List.length (List.filter (fun l => isTypeLine l.2)
                 (mapLines print spaces entries))
  = list_sum (map (fun entry => valuesIn (snd entry)) entries).
Proof.
  intros Hb. induction 1 as [|[k val] rest [He1 He2] _ [IH1 IH2]]; [done|].
  simpl in He1, He2. split.
  - simpl. constructor; [done|]. constructor; [done|]. by apply Forall_app.
  - simpl. rewrite List.filter_app, length_app. by rewrite He2, IH2.
Qed.

Lemma decodeAndPrint_lines (item : Value) :
  forall indent,
    Forall (fun l => (2 * indent <= l.1)%nat) (decodeAndPrint item indent) /\
    List.length (List.filter (fun l => isTypeLine l.2)
                   (decodeAndPrint item indent)) = valuesIn item.
Proof.
  induction item as [v|v|v IH|v IH|v|v|v| |] using Value_nested_ind;
    intros indent.
  - simpl. destruct (decide (len v = 9)); split; by repeat constructor.
  - simpl. destruct (hasBinary v); split; by repeat constructor.
  - destruct (arrayLines_structure
                (fun elem => decodeAndPrint elem (indent + 2))
                (2 * indent + 2) (2 * indent) v ltac:(lia)) with (i := 0)
      as [H1 H2].
    { eapply Forall_impl; [exact IH|]. intros elem He. simpl in He.
      destruct (He (indent + 2)%nat) as [He1 He2]. split; [|done].
      eapply Forall_impl; [exact He1|]. simpl. intros; lia. }
    split.
    + change (decodeAndPrint (VArray v) indent)
        with (((2 * indent)%nat, TypeArray (len v))
              :: arrayLines (fun elem => decodeAndPrint elem (indent + 2))
                   (2 * indent + 2) 0 v).
      by constructor.
    + change (decodeAndPrint (VArray v) indent)
        with (((2 * indent)%nat, TypeArray (len v))
              :: arrayLines (fun elem => decodeAndPrint elem (indent + 2))
                   (2 * indent + 2) 0 v).
      change (valuesIn (VArray v)) with (S (list_sum (map valuesIn v))).
      rewrite <- H2.
      remember (arrayLines (fun elem => decodeAndPrint elem (indent + 2))
                  (2 * indent + 2) 0 v) as lines.
      reflexivity.
  - destruct (mapLines_structure
                (fun val => decodeAndPrint val (indent + 2))
                (2 * indent + 2) (2 * indent) v ltac:(lia)) as [H1 H2].
    { eapply Forall_impl; [exact IH|]. intros entry He. simpl in He.
      destruct (He (indent + 2)%nat) as [He1 He2]. split; [|done].
      eapply Forall_impl; [exact He1|]. simpl. intros; lia. }
    split.
    + change (decodeAndPrint (VMap v) indent)
        with (((2 * indent)%nat, TypeMap (len v))
              :: mapLines (fun val => decodeAndPrint val (indent + 2))
                   (2 * indent + 2) v).
      by constructor.
    + change (decodeAndPrint (VMap v) indent)
        with (((2 * indent)%nat, TypeMap (len v))
              :: mapLines (fun val => decodeAndPrint val (indent + 2))
                   (2 * indent + 2) v).
      change (valuesIn (VMap v))
        with (S (list_sum (map (fun entry => valuesIn (snd entry)) v))).
      rewrite <- H2.
      remember (mapLines (fun val => decodeAndPrint val (indent + 2))
                  (2 * indent + 2) v) as lines.
      reflexivity.
  - split; by repeat constructor.
  - split; by repeat constructor.
  - split; by repeat constructor.
  - split; by repeat constructor.
  - split; by repeat constructor.
Qed.

(** X29.  For every item and indentation, [decodeAndPrint] starts with the
    line that names the type of the item, indented by two spaces per unit
    of [indent]; no line is indented less; and there is one type line for
    each value that it visits: the item, the elements of its arrays and
    the values of its maps at every depth. *)
Theorem decodeAndPrint_structure (item : Value) (indent : nat) :
  let printed := decodeAndPrint item indent in
  (exists line rest,
     printed = ((2 * indent)%nat, line) :: rest /\ isTypeLine line = true) /\
  Forall (fun l => (2 * indent <= l.1)%nat) printed /\
  List.length (List.filter (fun l => isTypeLine l.2) printed) = valuesIn item.
Proof.
  cbv zeta. split; [|apply decodeAndPrint_lines].
  destruct item; by eexists _, _.
Qed.
